(** * POS/CRM: debt ledger, order reconciliation and stock

    A shallow embedding of the server routes that read and write the debt
    ledger ([user_debt_adjustments]), the orders and the stock:

    - [routes/users.js]  : GET /users/debt-logs, GET /users/:id/profile,
                           DELETE /users/debt-logs/cleanup,
                           PUT /users/:id/debt, DELETE /users/:id;
    - [routes/orders.js] : [checkItemsChanged], [calculateNetDebtChange],
                           GET /orders/revenue, POST /orders,
                           PUT /orders/:id/status, GET /orders/:id/invoice,
                           PUT /orders/:id, DELETE /orders/:id.

    Conventions of the model.

    - Money is exact: an amount is an integer number of hundredths, the
      resolution of the DECIMAL(10,2) columns.  The rounding of JavaScript
      doubles is not modelled: a sum that a route adds up in doubles is the
      exact sum here.  Where the exact sum is zero the double may be a tiny
      non-zero number (0.3 - 0.1 - 0.2), and a test of it against zero then
      goes the other way: the edit route writes a ledger row of 0.00 that
      the model does not have.
    - A table with a primary key that the routes address by key (products,
      orders) is a finite map from the key; tables that are only scanned,
      filtered and appended to (order_items, user_debt_adjustments) are lists
      of rows in insertion order.  Their serial row ids are never read by
      the routes modelled here and are left out.
    - The store is PostgreSQL (see the migration script): inside a
      transaction a statement that fails leaves the transaction in the
      failed state, in which every later statement is refused and COMMIT
      rolls back. *)

From Stdlib Require Import ZArith Lia.
From stdpp Require Import gmap strings list fin_maps pretty sorting.

Local Open Scope string_scope.
Local Open Scope list_scope.
Local Open Scope Z_scope.

(** ** Data model (supabase-migration.sql) *)

Inductive Currency := EUR | MKD.
Inductive Category := accessories | smartphones.
Inductive StockStatus := enabled | disabled.
Inductive OrderStatus := pending | approved | shipped | completed | cancelled.
Inductive AdjustmentType := manual_set | manual_reduction.

#[global] Instance Currency_eq_dec : EqDecision Currency.
Proof. solve_decision. Defined.
#[global] Instance Category_eq_dec : EqDecision Category.
Proof. solve_decision. Defined.
#[global] Instance StockStatus_eq_dec : EqDecision StockStatus.
Proof. solve_decision. Defined.
#[global] Instance OrderStatus_eq_dec : EqDecision OrderStatus.
Proof. solve_decision. Defined.
#[global] Instance AdjustmentType_eq_dec : EqDecision AdjustmentType.
Proof. solve_decision. Defined.

(** products *)
Record Product := {
  p_name : string;
  p_price : Z;
  stock_quantity : Z;
  stock_status : StockStatus;
  category : Category
}.

(** orders; [client_id = None] is the NULL of a guest order. *)
Record Order := {
  client_id : option Z;
  guest_name : option string;
  status : OrderStatus;
  original_status : OrderStatus;
  total_amount : Z;
  discount_amount : Z;
  discount_currency : Currency;
  original_total : Z
}.

(** order_items *)
Record OrderItem := {
  order_id : Z;
  product_id : Z;
  oi_quantity : Z;
  oi_price : Z
}.

(** user_debt_adjustments; [currency] and [notes] are nullable,
    [created_at] is in milliseconds. *)
Record Adjustment := {
  user_id : Z;
  adjustment_amount : Z;
  adjustment_type : AdjustmentType;
  currency : option Currency;
  notes : option string;
  created_by : Z;
  created_at : Z
}.

(** [next_order_id] is the state of the sequence behind [orders.id]. *)
Record DB := {
  products : gmap Z Product;
  orders : gmap Z Order;
  next_order_id : Z;
  order_items : list OrderItem;
  ledger : list Adjustment
}.

Definition set_products (f : gmap Z Product → gmap Z Product) (d : DB) : DB :=
  {| products := f (products d); orders := orders d; next_order_id := next_order_id d;
     order_items := order_items d; ledger := ledger d |}.
Definition set_orders (f : gmap Z Order → gmap Z Order) (d : DB) : DB :=
  {| products := products d; orders := f (orders d); next_order_id := next_order_id d;
     order_items := order_items d; ledger := ledger d |}.
Definition set_order_items (f : list OrderItem → list OrderItem) (d : DB) : DB :=
  {| products := products d; orders := orders d; next_order_id := next_order_id d;
     order_items := f (order_items d); ledger := ledger d |}.
Definition set_ledger (f : list Adjustment → list Adjustment) (d : DB) : DB :=
  {| products := products d; orders := orders d; next_order_id := next_order_id d;
     order_items := order_items d; ledger := f (ledger d) |}.

(** The hard-coded rule: smartphones settle in EUR, everything else in MKD. *)
Definition currency_of (c : Category) : Currency :=
  match c with smartphones => EUR | accessories => MKD end.

(** ** Aggregates *)

(** SUM(adjustment_amount) over a list of rows. *)
Definition sum_amounts (rows : list Adjustment) : Z :=
  foldr (fun a acc => adjustment_amount a + acc) 0 rows.

(** The rows of one (client, currency) pair. *)
Definition entries_of (u : Z) (c : Currency) (rows : list Adjustment) : list Adjustment :=
  filter (fun a => user_id a = u ∧ currency a = Some c) rows.

(** The balance the specification defines: minus the sum of the pair's
    entries. *)
Definition currentBalance (u : Z) (c : Currency) (rows : list Adjustment) : Z :=
  - sum_amounts (entries_of u c rows).

(** ** GET /users/:id/profile : debt from the ledger *)

(** [SELECT currency, COALESCE(SUM(adjustment_amount), 0) AS sum
     FROM user_debt_adjustments WHERE user_id = $1 GROUP BY currency]:
    one row per distinct currency value (NULL included) among the user's
    rows. *)
Definition sums_by_currency (u : Z) (rows : list Adjustment) : list (option Currency * Z) :=
  let mine := filter (fun a => user_id a = u) rows in
  (fun k => (k, sum_amounts (filter (fun a => currency a = k) mine)))
    <$> remove_dups (currency <$> mine).

(** [sumsResult.rows.forEach(row => { if (row.currency === 'EUR') eurSum = sum;
     if (row.currency === 'MKD') mkdSum = sum; })] from [eurSum = mkdSum = 0]. *)
Definition pick_sums (groups : list (option Currency * Z)) : Z * Z :=
  fold_left
    (fun (acc : Z * Z) (row : option Currency * Z) =>
       let acc1 := if decide (row.1 = Some EUR) then (row.2, acc.2) else acc in
       if decide (row.1 = Some MKD) then (acc1.1, row.2) else acc1)
    groups (0, 0).

Record DebtSummary := { eurDebt : Z; mkdDebt : Z; totalDebt : Z }.

(** [eurDebt = -eurSum; mkdDebt = -mkdSum; totalDebt = eurDebt + mkdDebt]. *)
Definition profileDebt (d : DB) (userId : Z) : DebtSummary :=
  let '(eurSum, mkdSum) := pick_sums (sums_by_currency userId (ledger d)) in
  {| eurDebt := - eurSum; mkdDebt := - mkdSum; totalDebt := - eurSum + - mkdSum |}.

(** ** GET /orders/:id/invoice : the debt columns of the order query *)

(** The sub-select
    [SELECT user_id, ABS(SUM(CASE WHEN adjustment_amount IS NOT NULL
       THEN adjustment_amount ELSE 0 END)) FROM user_debt_adjustments
     WHERE currency = c GROUP BY user_id]
    has a row for [u] exactly when [u] has an entry in [c]; the LEFT JOIN
    on [u.id = user_id] and the COALESCE give 0 otherwise. *)
Definition debt_column (u : Z) (c : Currency) (rows : list Adjustment) : Z :=
  match entries_of u c rows with
  | [] => 0
  | grp => Z.abs (sum_amounts grp)
  end.

(** [client_eur_debt] / [client_mkd_debt] of the invoice of order [orderId];
    [None] when the order does not exist (404).  The second, direct query is
    guarded by [order.client_id], a column the order query does not select,
    so it never runs. *)
Definition invoiceDebt (d : DB) (orderId : Z) (c : Currency) : option Z :=
  o ← orders d !! orderId;
  Some (match client_id o with
        | None => 0
        | Some u => debt_column u c (ledger d)
        end).

(** ** GET /orders/revenue and the revenue of the profile *)

(** [quantity * price] of the rows of [orders o JOIN order_items oi JOIN
    products p] that satisfy [keep] on the order and whose product settles
    in [c]; COALESCE makes the empty sum 0. *)
Definition item_revenue (d : DB) (keep : Z → Order → bool) (c : Currency) : Z :=
  foldr
    (fun (oi : OrderItem) acc =>
       match orders d !! order_id oi, products d !! product_id oi with
       | Some o, Some p =>
           if keep (order_id oi) o && bool_decide (currency_of (category p) = c)
           then oi_quantity oi * oi_price oi + acc else acc
       | _, _ => acc
       end)
    0 (order_items d).

Definition is_completed (o : Order) : bool := bool_decide (status o = completed).

Record Revenue := { eurRevenue : Z; mkdRevenue : Z; totalRevenue : Z }.

(** GET /orders/revenue: [WHERE o.status = 'completed']. *)
Definition getRevenue (d : DB) : Revenue :=
  let e := item_revenue d (fun _ o => is_completed o) EUR in
  let m := item_revenue d (fun _ o => is_completed o) MKD in
  {| eurRevenue := e; mkdRevenue := m; totalRevenue := e + m |}.

(** GET /users/:id/profile: [WHERE o.client_id = $1 AND o.status = 'completed']. *)
Definition profileRevenue (d : DB) (userId : Z) (c : Currency) : Z :=
  item_revenue d (fun _ o => bool_decide (client_id o = Some userId) && is_completed o) c.

(** [totalPaid]: the [total_amount] of the client's completed orders,
    [allOrders.filter(o => o.status === 'completed').reduce(...)]. *)
Definition totalPaid (d : DB) (userId : Z) : Z :=
  foldr (fun (kv : Z * Order) acc =>
           if bool_decide (client_id kv.2 = Some userId) && is_completed kv.2
           then total_amount kv.2 + acc else acc)
        0 (map_to_list (orders d)).

(** The charged totals of all completed orders. *)
Definition completed_totals (d : DB) : Z :=
  foldr (fun (kv : Z * Order) acc =>
           if is_completed kv.2 then total_amount kv.2 + acc else acc)
        0 (map_to_list (orders d)).

(** ** JavaScript values used by the order routes *)

(** A key of a JS [Map] built from item ids; [None] is [undefined]. *)
Definition Key := option Z.

(** [a || b] on ids: [undefined] and [0] are falsy. *)
Definition or_id (a b : option Z) : option Z :=
  match a with
  | Some n => if decide (n = 0) then b else a
  | None => b
  end.

(** [a || b] on strings: [undefined] and the empty string are falsy. *)
Definition or_str (a b : option string) : option string :=
  match a with
  | Some s => if decide (s = "") then b else a
  | None => b
  end.

(** Truthiness of a number that may be absent ([if (item.increase)]). *)
Definition truthy (a : option Z) : bool :=
  match a with Some n => negb (bool_decide (n = 0)) | None => false end.

(** An item of a request body.  [productId] and [name] are the camel-case
    fields, [item_product_id] and [product_name] the snake-case ones that
    rows echoed back by the client carry. *)
Record Item := {
  productId : option Z;
  item_product_id : option Z;
  quantity : Z;
  price : Z;
  name : option string;
  product_name : option string
}.

(** A JS [Map] keeps its keys in insertion order; [set] on a present key
    replaces the value in place. *)
Fixpoint map_set {V} (k : Key) (v : V) (m : list (Key * V)) : list (Key * V) :=
  match m with
  | [] => [(k, v)]
  | (k', v') :: m' =>
      if decide (k = k') then (k, v) :: m' else (k', v') :: map_set k v m'
  end.

Fixpoint map_get {V} (k : Key) (m : list (Key * V)) : option V :=
  match m with
  | [] => None
  | (k', v') :: m' => if decide (k = k') then Some v' else map_get k m'
  end.

(** [items.forEach(item => map.set(key(item), val(item)))] on an empty map. *)
Definition build_map {V} (key : Item → Key) (val : Item → V) (items : list Item)
  : list (Key * V) :=
  fold_left (fun m it => map_set (key it) (val it) m) items [].

Definition original_key (it : Item) : Key := or_id (productId it) (item_product_id it).
Definition new_key (it : Item) : Key := productId it.

(** ** checkItemsChanged *)

Definition checkItemsChanged (originalItems newItems : list Item) : bool :=
  if negb (bool_decide (length originalItems = length newItems)) then true
  else
    let originalMap := build_map original_key quantity originalItems in
    let newMap := build_map new_key quantity newItems in
    if existsb (fun '(productId, originalQty) =>
                  match map_get productId newMap with
                  | None => true
                  | Some newQty => negb (bool_decide (newQty = originalQty))
                  end) originalMap
    then true
    else if existsb (fun '(productId, _) =>
                       match map_get productId originalMap with
                       | None => true
                       | Some _ => false
                       end) newMap
    then true
    else false.

(** ** Transactions on a pooled connection *)

Inductive Error :=
| ProductNotFound (id : option Z)
| InsufficientStock (id : option Z) (available requested : Z)
| StatementFailed
| TransactionAborted.

Inductive Outcome (A : Type) :=
| Done (a : A)
| Raise (e : Error).
Arguments Done {A} a.
Arguments Raise {A} e.

(** The connection between BEGIN and COMMIT: the uncommitted tables, the
    failed flag of the transaction, and the number of statements sent. *)
Record Session := { work : DB; failed : bool; clock : nat }.

(** Which statements the store fails, by their position in the session. *)
Definition Faults := nat → bool.
Definition no_faults : Faults := fun _ => false.

Definition Tx (A : Type) := Faults → Session → Outcome A * Session.

Definition ret {A} (a : A) : Tx A := fun _ s => (Done a, s).

Definition bind {A B} (m : Tx A) (k : A → Tx B) : Tx B :=
  fun flt s =>
    match m flt s with
    | (Done a, s') => k a flt s'
    | (Raise e, s') => (Raise e, s')
    end.

(** [throw new Error(...)] *)
Definition throw {A} (e : Error) : Tx A := fun _ s => (Raise e, s).

(** [try { m } catch (err) { h }] *)
Definition try_catch {A} (m : Tx A) (h : Error → Tx A) : Tx A :=
  fun flt s =>
    match m flt s with
    | (Done a, s') => (Done a, s')
    | (Raise e, s') => h e flt s'
    end.

Notation "'do' x <- m ; k" := (bind m (fun x => k))
  (at level 10, x name, m at level 100, k at level 200).
Notation "'exec' m ; k" := (bind m (fun _ => k))
  (at level 10, m at level 100, k at level 200).

(** [await client.query(...)]: refused once the transaction has failed
    (PostgreSQL's 25P02, "current transaction is aborted, commands ignored
    until end of transaction block"); fails, and marks the transaction
    failed, when the store faults it; otherwise runs [q] on the uncommitted
    tables. *)
Definition statement {A} (q : DB → A * DB) : Tx A :=
  fun flt s =>
    if failed s then
      (Raise TransactionAborted,
       {| work := work s; failed := true; clock := S (clock s) |})
    else if flt (clock s) then
      (Raise StatementFailed,
       {| work := work s; failed := true; clock := S (clock s) |})
    else
      let '(a, d) := q (work s) in
      (Done a, {| work := d; failed := false; clock := S (clock s) |}).

(** [for (const x of xs) { await body(x) }] *)
Fixpoint for_each {A} (xs : list A) (body : A → Tx unit) : Tx unit :=
  match xs with
  | [] => ret tt
  | x :: xs' => exec body x; for_each xs' body
  end.

(** A loop that carries accumulators. *)
Fixpoint fold_each {A S} (xs : list A) (body : S → A → Tx S) (acc : S) : Tx S :=
  match xs with
  | [] => ret acc
  | x :: xs' => do acc' <- body acc x; fold_each xs' body acc'
  end.

Definition when (b : bool) (m : Tx unit) : Tx unit := if b then m else ret tt.

(** [BEGIN; body; COMMIT] with [catch { ROLLBACK; throw }]: the tables
    after the request.  COMMIT of a failed transaction rolls back. *)
Definition transaction {A} (body : Tx A) (flt : Faults) (d : DB) : Outcome A * DB :=
  match body flt {| work := d; failed := false; clock := 0 |} with
  | (Done a, s) => (Done a, if failed s then d else work s)
  | (Raise e, _) => (Raise e, d)
  end.

(** *** The statements of the order routes *)

(** [SELECT stock_quantity FROM products WHERE id = $1] *)
Definition select_stock (id : option Z) (d : DB) : option Z * DB :=
  (stock_quantity <$> (id ≫= (fun i => products d !! i)), d).

(** [SELECT category FROM products WHERE id = $1], [rows[0]?.category] *)
Definition select_category (id : option Z) (d : DB) : option Category * DB :=
  (category <$> (id ≫= (fun i => products d !! i)), d).

Definition add_to_stock (n : Z) (p : Product) : Product :=
  {| p_name := p_name p; p_price := p_price p;
     stock_quantity := stock_quantity p + n;
     stock_status := stock_status p; category := category p |}.

(** [UPDATE products SET stock_quantity = stock_quantity + $1 WHERE id = $2] *)
Definition restore_stock (n : Z) (id : Z) (d : DB) : unit * DB :=
  (tt, set_products (alter (add_to_stock n) id) d).

(** [UPDATE products SET stock_quantity = stock_quantity - $1 WHERE id = $2] *)
Definition reduce_stock (n : Z) (id : Z) (d : DB) : unit * DB :=
  (tt, set_products (alter (add_to_stock (- n)) id) d).

Definition with_status (st : OrderStatus) (o : Order) : Order :=
  {| client_id := client_id o; guest_name := guest_name o; status := st;
     original_status := original_status o; total_amount := total_amount o;
     discount_amount := discount_amount o;
     discount_currency := discount_currency o;
     original_total := original_total o |}.

Definition with_total (t : Z) (o : Order) : Order :=
  {| client_id := client_id o; guest_name := guest_name o; status := status o;
     original_status := original_status o; total_amount := t;
     discount_amount := discount_amount o;
     discount_currency := discount_currency o;
     original_total := original_total o |}.

(** [UPDATE orders SET status = $1 WHERE id = $2] *)
Definition update_status (st : OrderStatus) (id : Z) (d : DB) : unit * DB :=
  (tt, set_orders (alter (with_status st) id) d).

(** [UPDATE orders SET total_amount = $1 WHERE id = $2] *)
Definition update_total (t : Z) (id : Z) (d : DB) : unit * DB :=
  (tt, set_orders (alter (with_total t) id) d).

(** [SELECT oi.product_id, oi.quantity, oi.price, p.category FROM order_items
     oi JOIN products p ON oi.product_id = p.id WHERE oi.order_id = $1] *)
Definition select_current_items (id : Z) (d : DB) : list OrderItem * DB :=
  (filter (fun oi => order_id oi = id ∧ is_Some (products d !! product_id oi))
          (order_items d), d).

(** [SELECT product_id, quantity FROM order_items WHERE order_id = $1] *)
Definition select_order_items (id : Z) (d : DB) : list OrderItem * DB :=
  (filter (fun oi => order_id oi = id) (order_items d), d).

(** [SELECT client_id FROM orders WHERE id = $1], [rows[0]?.client_id] *)
Definition select_client_id (id : Z) (d : DB) : option Z * DB :=
  (orders d !! id ≫= client_id, d).

(** [DELETE FROM order_items WHERE order_id = $1] *)
Definition delete_order_items (id : Z) (d : DB) : unit * DB :=
  (tt, set_order_items (filter (fun oi => order_id oi ≠ id)) d).

(** [DELETE FROM orders WHERE id = $1] *)
Definition delete_order (id : Z) (d : DB) : unit * DB :=
  (tt, set_orders (delete id) d).

(** [INSERT INTO order_items (order_id, product_id, quantity, price)] *)
Definition insert_order_item (oi : OrderItem) (d : DB) : unit * DB :=
  (tt, set_order_items (fun l => l ++ [oi]) d).

(** [INSERT INTO user_debt_adjustments (user_id, adjustment_amount,
     adjustment_type, currency, notes, created_by)]; the row comes with the
    column default of [created_at] filled in. *)
Definition insert_adjustment (a : Adjustment) (d : DB) : unit * DB :=
  (tt, set_ledger (fun l => l ++ [a]) d).

(** [SELECT SUM(oi.quantity * oi.price) FROM order_items oi
     WHERE oi.order_id = $1]; NULL on no rows. *)
Definition select_items_total (id : Z) (d : DB) : option Z * DB :=
  (match filter (fun oi => order_id oi = id) (order_items d) with
   | [] => None
   | rows => Some (foldr (fun oi acc => oi_quantity oi * oi_price oi + acc) 0 rows)
   end, d).

(** ** calculateNetDebtChange *)

(** A value of [originalMap] / [newMap]. *)
Record MapItem := { mi_quantity : Z; mi_price : Z; mi_name : option string }.

(** An element of [addedItems] or [removedItems]. *)
Record LineItem := {
  li_productId : Key; li_name : option string; li_quantity : Z; li_price : Z
}.

(** An element of [quantityChanges]: it carries [increase] or [decrease]. *)
Record QuantityChange := {
  qc_productId : Key; qc_name : option string;
  increase : option Z; decrease : option Z; qc_price : Z
}.

Record NetDebtChange := {
  eurNetChange : Z; mkdNetChange : Z; eurNote : string; mkdNote : string
}.

Definition map_item (it : Item) : MapItem :=
  {| mi_quantity := quantity it; mi_price := price it;
     mi_name := or_str (name it) (product_name it) |}.

Definition originalMap_of (originalItems : list Item) : list (Key * MapItem) :=
  build_map original_key map_item originalItems.
Definition newMap_of (newItems : list Item) : list (Key * MapItem) :=
  build_map new_key map_item newItems.

(** First loop, over [newMap]: the pushes to [addedItems]. *)
Definition addedItems_of (originalMap newMap : list (Key * MapItem)) : list LineItem :=
  omap (fun '(productId, newItem) =>
          match map_get productId originalMap with
          | None => Some {| li_productId := productId; li_name := mi_name newItem;
                            li_quantity := mi_quantity newItem;
                            li_price := mi_price newItem |}
          | Some _ => None
          end) newMap.

(** First loop: the pushes to [quantityChanges] (increases). *)
Definition increases_of (originalMap newMap : list (Key * MapItem)) : list QuantityChange :=
  omap (fun '(productId, newItem) =>
          match map_get productId originalMap with
          | None => None
          | Some originalItem =>
              if bool_decide (mi_quantity originalItem < mi_quantity newItem)
              then Some {| qc_productId := productId; qc_name := mi_name newItem;
                           increase := Some (mi_quantity newItem - mi_quantity originalItem);
                           decrease := None; qc_price := mi_price newItem |}
              else None
          end) newMap.

(** Second loop, over [originalMap]: the pushes to [removedItems]. *)
Definition removedItems_of (originalMap newMap : list (Key * MapItem)) : list LineItem :=
  omap (fun '(productId, originalItem) =>
          match map_get productId newMap with
          | None => Some {| li_productId := productId; li_name := mi_name originalItem;
                            li_quantity := mi_quantity originalItem;
                            li_price := mi_price originalItem |}
          | Some _ => None
          end) originalMap.

(** Second loop: the pushes to [quantityChanges] (decreases). *)
Definition decreases_of (originalMap newMap : list (Key * MapItem)) : list QuantityChange :=
  omap (fun '(productId, originalItem) =>
          match map_get productId newMap with
          | None => None
          | Some newItem =>
              if bool_decide (mi_quantity newItem < mi_quantity originalItem)
              then Some {| qc_productId := productId; qc_name := mi_name originalItem;
                           increase := None;
                           decrease := Some (mi_quantity originalItem - mi_quantity newItem);
                           qc_price := mi_price originalItem |}
              else None
          end) originalMap.

(** [if (category === 'smartphones') eurNetChange += t else mkdNetChange += t] *)
Definition route (cat : option Category) (t : Z) (acc : Z * Z) : Z * Z :=
  if decide (cat = Some smartphones) then (acc.1 + t, acc.2) else (acc.1, acc.2 + t).

(** The signed line value of a quantity change. *)
Definition change_value (item : QuantityChange) : Z :=
  if truthy (increase item) then default 0 (increase item) * qc_price item
  else if truthy (decrease item) then - (default 0 (decrease item) * qc_price item)
  else 0.

(** [`${item.name}`] and [`${item.increase}`] *)
Definition show_name (n : option string) : string := default "undefined" n.
Definition show_num (n : option Z) : string :=
  match n with Some z => pretty z | None => "undefined" end.

Definition times_text (item : LineItem) : string :=
  show_name (li_name item) +:+ " (x" +:+ pretty (li_quantity item) +:+ ")".

Definition change_text (item : QuantityChange) : string :=
  if truthy (increase item)
  then show_name (qc_name item) +:+ " (+" +:+ show_num (increase item) +:+ ")"
  else show_name (qc_name item) +:+ " (-" +:+ show_num (decrease item) +:+ ")".

Definition join (sep : string) (parts : list string) : string := String.concat sep parts.

Definition nonempty {A} (l : list A) : bool := negb (bool_decide (l = [])).
Definition empty {A} (l : list A) : bool := bool_decide (l = []).

(** The note of the adjustment. *)
Definition noteText (addedItems removedItems : list LineItem)
    (quantityChanges : list QuantityChange) (orderId : Z) : string :=
  let addedNames := join ", " (times_text <$> addedItems) in
  let removedNames := join ", " (times_text <$> removedItems) in
  let changeNames := join ", " (change_text <$> quantityChanges) in
  let noteParts :=
    if nonempty addedItems && empty removedItems && empty quantityChanges then
      ["Items increased in order #" +:+ pretty orderId +:+ ". Added: " +:+ addedNames]
    else if nonempty removedItems && empty addedItems && empty quantityChanges then
      ["Items reduced from order #" +:+ pretty orderId +:+ ". Removed: " +:+ removedNames]
    else if nonempty quantityChanges && empty addedItems && empty removedItems then
      ["Items quantity updated in order #" +:+ pretty orderId
         +:+ ". Quantity changes: " +:+ changeNames]
    else if nonempty addedItems || nonempty removedItems || nonempty quantityChanges then
      let changes :=
        (if nonempty addedItems then ["increased"] else [])
        ++ (if nonempty removedItems then ["reduced"] else [])
        ++ (if nonempty quantityChanges then ["quantity updated"] else []) in
      ("Items " +:+ join " and " changes +:+ " in order #" +:+ pretty orderId)
      :: (if nonempty addedItems then ["Increased: " +:+ addedNames] else [])
      ++ (if nonempty removedItems then ["Reduced: " +:+ removedNames] else [])
      ++ (if nonempty quantityChanges then ["Quantity changes: " +:+ changeNames] else [])
    else [] in
  if nonempty noteParts then join ". " noteParts else "Order items updated".

(** The function itself; its [clientId] argument is not used.  The three
    accumulation loops send one category query per element. *)
Definition calculateNetDebtChange (originalItems newItems : list Item) (orderId : Z)
  : Tx NetDebtChange :=
  let originalMap := originalMap_of originalItems in
  let newMap := newMap_of newItems in
  let addedItems := addedItems_of originalMap newMap in
  let removedItems := removedItems_of originalMap newMap in
  let quantityChanges := increases_of originalMap newMap ++ decreases_of originalMap newMap in
  do acc1 <- fold_each addedItems
    (fun acc item =>
       do cat <- statement (select_category (li_productId item));
       ret (route cat (li_quantity item * li_price item) acc)) (0, 0);
  do acc2 <- fold_each removedItems
    (fun acc item =>
       do cat <- statement (select_category (li_productId item));
       ret (route cat (- (li_quantity item * li_price item)) acc)) acc1;
  do acc3 <- fold_each quantityChanges
    (fun acc item =>
       do cat <- statement (select_category (qc_productId item));
       ret (route cat (change_value item) acc)) acc2;
  let note := noteText addedItems removedItems quantityChanges orderId in
  ret {| eurNetChange := acc3.1; mkdNetChange := acc3.2;
         eurNote := note; mkdNote := note |}.

(** ** PUT /orders/:id *)

Record EditRequest := {
  new_status : option OrderStatus;
  items : option (list Item);
  originalItems : option (list Item);
  preserveDiscount : bool;
  originalDiscount : Z
}.

Inductive EditResponse :=
| BadRequest                       (* 400, validation *)
| NotFound                         (* 404 *)
| Updated (itemsUpdated : bool)    (* 200 *)
| ServerError (e : Error).         (* 500 *)

(** [isIn(['pending', 'completed'])] *)
Definition accepted_status (st : OrderStatus) : bool :=
  bool_decide (st = pending) || bool_decide (st = completed).

(** [productId] isInt min 1, [quantity] isInt min 1, [price] isFloat min 0 *)
Definition valid_edit_item (it : Item) : bool :=
  match productId it with
  | Some p => bool_decide (1 ≤ p) && bool_decide (1 ≤ quantity it)
              && bool_decide (0 ≤ price it)
  | None => false
  end.

Definition valid_edit (req : EditRequest) : bool :=
  match new_status req with Some st => accepted_status st | None => true end
  && match items req with
     | Some its => nonempty its && forallb valid_edit_item its
     | None => true
     end.

(** The adjustment row the route inserts for one currency, at time [now]. *)
Definition net_adjustment (now clientId : Z) (c : Currency) (netChange : Z)
    (note : string) (actor : Z) : Adjustment :=
  {| user_id := clientId; adjustment_amount := - netChange;
     adjustment_type := manual_reduction; currency := Some c;
     notes := Some note; created_by := actor; created_at := now |}.

(** One turn of the loop over the new items. *)
Definition insert_new_item (orderId : Z) (item : Item) : Tx unit :=
  do stock <- statement (select_stock (productId item));
  match stock with
  | None => throw (ProductNotFound (productId item))
  | Some currentStock =>
      if bool_decide (currentStock < quantity item)
      then throw (InsufficientStock (productId item) currentStock (quantity item))
      else
        (* the stock query found the product: [productId] is present *)
        exec statement (reduce_stock (quantity item) (default 0 (productId item)));
        statement (insert_order_item
                     {| order_id := orderId; product_id := default 0 (productId item);
                        oi_quantity := quantity item; oi_price := price item |})
  end.

(** The body between BEGIN and COMMIT; it returns [itemsUpdated]. *)
Definition edit_body (now actor orderId : Z) (req : EditRequest) : Tx bool :=
  exec match new_status req with
       | Some st => statement (update_status st orderId)
       | None => ret tt
       end;
  match items req with
  | None => ret false
  | Some its =>
      let itemsChanged := checkItemsChanged (default [] (originalItems req)) its in
      if negb itemsChanged then
        exec match new_status req with
             | Some st => statement (update_status st orderId)
             | None => ret tt
             end;
        ret false
      else
        do currentItems <- statement (select_current_items orderId);
        exec for_each currentItems (fun item =>
               exec statement (select_stock (Some (product_id item))); ret tt);
        exec for_each currentItems (fun item =>
               statement (restore_stock (oi_quantity item) (product_id item)));
        exec for_each currentItems (fun item =>
               exec statement (select_stock (Some (product_id item))); ret tt);
        do clientId <- statement (select_client_id orderId);
        exec statement (delete_order_items orderId);
        exec for_each its (insert_new_item orderId);
        do net <- calculateNetDebtChange (default [] (originalItems req)) its orderId;
        exec when (negb (bool_decide (eurNetChange net = 0)) && truthy clientId)
               (try_catch
                  (statement (insert_adjustment
                     (net_adjustment now (default 0 clientId) EUR (eurNetChange net)
                                     (eurNote net) actor)))
                  (fun _ => ret tt));
        exec when (negb (bool_decide (mkdNetChange net = 0)) && truthy clientId)
               (try_catch
                  (statement (insert_adjustment
                     (net_adjustment now (default 0 clientId) MKD (mkdNetChange net)
                                     (mkdNote net) actor)))
                  (fun _ => ret tt));
        do total <- statement (select_items_total orderId);
        let finalTotal := default 0 total in
        let finalTotal :=
          if preserveDiscount req && bool_decide (0 < originalDiscount req)
          then Z.max 0 (finalTotal - originalDiscount req) else finalTotal in
        exec statement (update_total finalTotal orderId);
        ret true
  end.

Definition putOrder (flt : Faults) (now actor orderId : Z) (req : EditRequest) (d : DB)
  : EditResponse * DB :=
  if negb (valid_edit req) then (BadRequest, d)
  else match orders d !! orderId with
       | None => (NotFound, d)
       | Some _ =>
           match transaction (edit_body now actor orderId req) flt d with
           | (Done itemsUpdated, d') => (Updated itemsUpdated, d')
           | (Raise e, d') => (ServerError e, d')
           end
       end.

(** ** DELETE /orders/:id *)

Inductive DeleteResponse :=
| DeleteNotFound
| Deleted (itemsRestored : nat)
| DeleteFailed (e : Error).

(** [SELECT id, status FROM orders WHERE id = $1] *)
Definition select_order (id : Z) (d : DB) : option Order * DB := (orders d !! id, d).

(** The body of the transaction; [None] is the 404 branch, which has
    changed nothing when it rolls back. *)
Definition delete_body (orderId : Z) : Tx (option nat) :=
  do orderResult <- statement (select_order orderId);
  match orderResult with
  | None => ret None
  | Some _ =>
      do rows <- statement (select_order_items orderId);
      exec for_each rows (fun item =>
             statement (restore_stock (oi_quantity item) (product_id item)));
      exec statement (delete_order_items orderId);
      exec statement (delete_order orderId);
      ret (Some (length rows))
  end.

Definition deleteOrder (flt : Faults) (orderId : Z) (d : DB) : DeleteResponse * DB :=
  match transaction (delete_body orderId) flt d with
  | (Done None, _) => (DeleteNotFound, d)
  | (Done (Some n), d') => (Deleted n, d')
  | (Raise e, d') => (DeleteFailed e, d')
  end.

(** ** PUT /orders/:id/status *)

Inductive StatusResponse := StatusInvalid | StatusNotFound | StatusUpdated (st : OrderStatus).

(** [UPDATE orders SET status = $1 WHERE id = $2 RETURNING id, status];
    the second route registered on the same path is never reached. *)
Definition putStatus (orderId : Z) (st : OrderStatus) (d : DB) : StatusResponse * DB :=
  if negb (accepted_status st) then (StatusInvalid, d)
  else match orders d !! orderId with
       | None => (StatusNotFound, d)
       | Some _ => (StatusUpdated st, (update_status st orderId d).2)
       end.

(** ** POST /orders *)

(** [req.user] *)
Record User := { u_id : Z; isAdmin : bool }.

Record CreateRequest := {
  c_items : list Item;
  guestName : option string;
  requestedClientId : option Z;
  c_status : option OrderStatus;      (* default 'pending' *)
  discount : Z;                       (* default 0 *)
  discountCurrency : option Currency; (* default 'EUR' *)
  totalMkd : Z;                       (* default 0 *)
  totalEur : Z                        (* default 0 *)
}.

Inductive CreateResponse :=
| ValidationFailed                       (* 400 *)
| Forbidden                              (* 403 *)
| ProductMissing (id : option Z)         (* 400 *)
| ProductDisabled (id : option Z)        (* 400 *)
| StockTooLow (id : option Z)            (* 400 *)
| Created (orderId totalAmount : Z).     (* 201 *)

Definition valid_create_item (it : Item) : bool :=
  match productId it with
  | Some p => bool_decide (1 ≤ p) && bool_decide (1 ≤ quantity it)
  | None => false
  end.

Definition valid_create (req : CreateRequest) : bool :=
  nonempty (c_items req) && forallb valid_create_item (c_items req)
  && match guestName req with Some g => negb (bool_decide (g = "")) | None => true end
  && match requestedClientId req with Some c => bool_decide (1 ≤ c) | None => true end
  && match c_status req with Some st => accepted_status st | None => true end.

(** An element of [validatedItems]. *)
Record ValidatedItem := {
  v_productId : Z; v_quantity : Z; v_price : Z; v_category : Category
}.

(** The result of the validation loop: the running totals and the items. *)
Record Validated := {
  totalAmount : Z; eurPendingTotal : Z; mkdPendingTotal : Z;
  validatedItems : list ValidatedItem
}.

(** The loop that validates the products and computes the totals; it
    returns at the first item that fails. *)
Fixpoint validate_items (d : DB) (its : list Item) (acc : Validated)
  : CreateResponse + Validated :=
  match its with
  | [] => inr acc
  | item :: rest =>
      match productId item ≫= (fun i => (fun p => (i, p)) <$> products d !! i) with
      | None => inl (ProductMissing (productId item))
      | Some (pid, product) =>
          if bool_decide (stock_status product = disabled)
          then inl (ProductDisabled (productId item))
          else if bool_decide (stock_quantity product < quantity item)
          then inl (StockTooLow (productId item))
          else
            let lineTotal := p_price product * quantity item in
            let v := {| v_productId := pid; v_quantity := quantity item;
                        v_price := p_price product; v_category := category product |} in
            validate_items d rest
              (if decide (category product = smartphones)
               then {| totalAmount := totalAmount acc + lineTotal;
                       eurPendingTotal := eurPendingTotal acc + lineTotal;
                       mkdPendingTotal := mkdPendingTotal acc;
                       validatedItems := validatedItems acc ++ [v] |}
               else {| totalAmount := totalAmount acc + lineTotal;
                       eurPendingTotal := eurPendingTotal acc;
                       mkdPendingTotal := mkdPendingTotal acc + lineTotal;
                       validatedItems := validatedItems acc ++ [v] |})
      end
  end.

(** [INSERT INTO orders (...) RETURNING id] *)
Definition insert_order (o : Order) (d : DB) : Z * DB :=
  (next_order_id d,
   {| products := products d; orders := <[next_order_id d := o]> (orders d);
      next_order_id := next_order_id d + 1;
      order_items := order_items d; ledger := ledger d |}).

(** The amount in currency units as JavaScript prints it: 150 is "1.5". *)
Definition show_money (z : Z) : string :=
  let a := Z.abs z in
  let r := a mod 100 in
  (if bool_decide (z < 0) then "-" else "") +:+ pretty (a / 100)
  +:+ (if bool_decide (r = 0) then ""
       else if bool_decide (r mod 10 = 0) then "." +:+ pretty (r / 10)
       else if bool_decide (r < 10) then ".0" +:+ pretty r
       else "." +:+ pretty r).

Definition creation_note (orderId : Z) (req : CreateRequest) : string :=
  "Debt increase from pending order #" +:+ pretty orderId
  +:+ (if bool_decide (0 < discount req) then
         " (Discount: " +:+ show_money (discount req) +:+ " "
         +:+ (if bool_decide (0 < totalEur req) && bool_decide (totalMkd req = 0)
              then "EUR"
              else if bool_decide (0 < totalMkd req) && bool_decide (totalEur req = 0)
              then "MKD" else "MKD/EUR")
         +:+ ")"
       else "").

(** The loop that inserts the items and takes them from the stock. *)
Definition create_items (orderId : Z) (vs : list ValidatedItem) (d : DB) : DB :=
  fold_left
    (fun d item =>
       let d1 := (insert_order_item
                    {| order_id := orderId; product_id := v_productId item;
                       oi_quantity := v_quantity item; oi_price := v_price item |} d).2 in
       (reduce_stock (v_quantity item) (v_productId item) d1).2)
    vs d.

(** The ledger rows of a creation: the code after the comment
    "Record debt increase ONLY when a pending order is created for a client". *)
Definition creation_adjustments (now : Z) (user : User) (req : CreateRequest)
    (guest : bool) (clientId : option Z) (st : OrderStatus) (orderId : Z)
    (v : Validated) : list Adjustment :=
  if negb guest && truthy clientId && bool_decide (st = pending) then
    let notes := creation_note orderId req in
    let finalEurTotal := if bool_decide (0 < totalEur req) then totalEur req
                         else eurPendingTotal v in
    let finalMkdTotal := if bool_decide (0 < totalMkd req) then totalMkd req
                         else mkdPendingTotal v in
    (if bool_decide (0 < finalEurTotal) then
       [ {| user_id := default 0 clientId; adjustment_amount := - finalEurTotal;
            adjustment_type := manual_reduction; currency := Some EUR;
            notes := Some notes; created_by := u_id user; created_at := now |} ]
     else [])
    ++ (if bool_decide (0 < finalMkdTotal) then
          [ {| user_id := default 0 clientId; adjustment_amount := - finalMkdTotal;
               adjustment_type := manual_reduction; currency := Some MKD;
               notes := Some notes; created_by := u_id user; created_at := now |} ]
        else [])
  else [].

(** The route.  Its statements go to the pool one by one, outside any
    transaction. *)
Definition createOrder (now : Z) (user : User) (req : CreateRequest) (d : DB)
  : CreateResponse * DB :=
  if negb (valid_create req) then (ValidationFailed, d)
  else if bool_decide (is_Some (requestedClientId req)) && negb (isAdmin user)
  then (Forbidden, d)
  else if bool_decide (is_Some (guestName req)) && negb (isAdmin user)
  then (Forbidden, d)
  else
    let guest := bool_decide (is_Some (guestName req)) in
    let clientId :=
      if guest then None
      else match requestedClientId req with
           | Some c => Some c
           | None => Some (u_id user)
           end in
    let st := default pending (c_status req) in
    match validate_items d (c_items req)
            {| totalAmount := 0; eurPendingTotal := 0; mkdPendingTotal := 0;
               validatedItems := [] |} with
    | inl err => (err, d)
    | inr v =>
        let finalTotalAmount :=
          (if bool_decide (0 < totalEur req) then totalEur req else eurPendingTotal v)
          + (if bool_decide (0 < totalMkd req) then totalMkd req else mkdPendingTotal v) in
        let '(orderId, d1) :=
          insert_order
            {| client_id := clientId; guest_name := guestName req; status := st;
               original_status := st; total_amount := finalTotalAmount;
               discount_amount := discount req;
               discount_currency := default EUR (discountCurrency req);
               original_total := totalAmount v |} d in
        let d2 := create_items orderId (validatedItems v) d1 in
        let d3 := set_ledger
                    (fun l => l ++ creation_adjustments now user req guest clientId st
                                     orderId v) d2 in
        (Created orderId finalTotalAmount, d3)
    end.

(** ** GET /users/debt-logs *)

(** [hay.includes(needle)] *)
Fixpoint includes (needle hay : string) : bool :=
  String.prefix needle hay
  || match hay with
     | EmptyString => false
     | String _ rest => includes needle rest
     end.

(** [adjustment.notes && (...includes(w1) || ...)] *)
Definition notes_mention (words : list string) (n : option string) : bool :=
  match n with
  | Some text => negb (bool_decide (text = "")) && existsb (fun w => includes w text) words
  | None => false
  end.

(** The rows the "debt before" query sums for the log row [adj]:
    [WHERE user_id = $1 AND currency = $2 AND created_at < $3
       AND adjustment_type = 'manual_reduction'],
    with [$3 = adj.created_at - 1000] milliseconds.  A NULL currency
    compares equal to nothing. *)
Definition before_rows (adj : Adjustment) (rows : list Adjustment) : list Adjustment :=
  filter (fun a => user_id a = user_id adj
                   ∧ is_Some (currency adj) ∧ currency a = currency adj
                   ∧ created_at a < created_at adj - 1000
                   ∧ adjustment_type a = manual_reduction) rows.

Definition debtBefore (adj : Adjustment) (rows : list Adjustment) : Z :=
  Z.abs (sum_amounts (before_rows adj rows)).

Definition debtAfter (adj : Adjustment) (rows : list Adjustment) : Z :=
  let rawAdjustmentAmount := adjustment_amount adj in
  let adjustmentAmount := Z.abs rawAdjustmentAmount in
  if notes_mention ["increased"; "Debt increase"; "Added"; "Increased"] (notes adj)
  then debtBefore adj rows + adjustmentAmount
  else if notes_mention ["reduced"; "removed"; "Reduced"] (notes adj)
  then debtBefore adj rows - adjustmentAmount
  else debtBefore adj rows + rawAdjustmentAmount.

(** A row of the response: the adjustment with [debt_before], [debt_after]. *)
Record DebtLog := { log_entry : Adjustment; debt_before : Z; debt_after : Z }.

Definition with_history (rows : list Adjustment) (adj : Adjustment) : DebtLog :=
  {| log_entry := adj;
     debt_before := Z.abs (debtBefore adj rows);
     debt_after := Z.abs (debtAfter adj rows) |}.

(** [ORDER BY uda.created_at DESC] *)
Definition newest_first (a b : Adjustment) : Prop := created_at b ≤ created_at a.

#[global] Instance newest_first_dec a b : Decision (newest_first a b).
Proof. unfold newest_first. apply _. Defined.

(** The page of adjustments the main query selects: the manual_reduction
    rows that pass the optional client-name and date conditions ([search]),
    newest first (rows of equal time in the order of the sort), [limit]
    rows from [offset]. *)
Definition log_page (search : Adjustment → bool) (limit offset : Z)
    (rows : list Adjustment) : list Adjustment :=
  take (Z.to_nat limit)
    (drop (Z.to_nat offset)
       (merge_sort newest_first
          (filter (fun a => adjustment_type a = manual_reduction ∧ search a = true) rows))).

(** [parseInt(x) || dflt]: an absent or unreadable number and 0 give the
    default. *)
Definition int_or (dflt : Z) (x : option Z) : Z :=
  match x with
  | Some n => if decide (n = 0) then dflt else n
  | None => dflt
  end.

(** The route; [None] is the 400 for a page or limit out of range. *)
Definition debtLogs (search : Adjustment → bool) (page_param limit_param : option Z)
    (d : DB) : option (list DebtLog) :=
  let page := int_or 1 page_param in
  let limit := int_or 50 limit_param in
  let offset := (page - 1) * limit in
  if bool_decide (page < 1) || bool_decide (limit < 1) || bool_decide (100 < limit)
  then None
  else Some (with_history (ledger d) <$> log_page search limit offset (ledger d)).

(** * Reasoning about transactions *)

(** ** The discipline of the store *)

(** Once failed, the session stays failed. *)
Definition steady {A} (m : Tx A) : Prop :=
  ∀ flt s, failed s = true → failed (m flt s).2 = true.

(** A run that starts and ends unfailed met no fault: it is the fault-free
    run. *)
Definition replays {A} (m : Tx A) : Prop :=
  ∀ flt s, failed s = false → failed (m flt s).2 = false → m flt s = m no_faults s.

Definition lawful {A} (m : Tx A) : Prop := steady m ∧ replays m.

(** A run that starts unfailed and returns normally ends unfailed. *)
Definition sound {A} (m : Tx A) : Prop :=
  ∀ flt s a s', failed s = false → m flt s = (Done a, s') → failed s' = false.

(** A run that returns normally ends unfailed, wherever it starts. *)
Definition strict {A} (m : Tx A) : Prop :=
  ∀ flt s a s', m flt s = (Done a, s') → failed s' = false.

(** ** Fault-free runs *)

Definition session (d : DB) (c : nat) : Session :=
  {| work := d; failed := false; clock := c |}.

(** Without faults, from the tables [d], [m] returns [a] and leaves [d']. *)
Definition returns {A} (m : Tx A) (d : DB) (a : A) (d' : DB) : Prop :=
  ∀ c, ∃ c', m no_faults (session d c) = (Done a, session d' c').

(** Without faults, from the tables [d], [m] throws [e]. *)
Definition raises {A} (m : Tx A) (d : DB) (e : Error) : Prop :=
  ∀ c, ∃ s', m no_faults (session d c) = (Raise e, s').

(** Both at once: [inr (a, d')] for a return, [inl e] for a throw. *)
Definition runs {A} (m : Tx A) (d : DB) (r : Error + A * DB) : Prop :=
  match r with
  | inr (a, d') => returns m d a d'
  | inl e => raises m d e
  end.

(** The loop over the new items of PUT /orders/:id, without faults. *)
Fixpoint place_items (orderId : Z) (its : list Item) (d : DB) : Error + DB :=
  match its with
  | [] => inr d
  | item :: rest =>
      match (select_stock (productId item) d).1 with
      | None => inl (ProductNotFound (productId item))
      | Some currentStock =>
          if bool_decide (currentStock < quantity item)
          then inl (InsufficientStock (productId item) currentStock (quantity item))
          else
            let d1 := (reduce_stock (quantity item) (default 0 (productId item)) d).2 in
            place_items orderId rest
              (insert_order_item
                 {| order_id := orderId; product_id := default 0 (productId item);
                    oi_quantity := quantity item; oi_price := price item |} d1).2
      end
  end.

(** The loop that restores the stock of stored rows, without faults. *)
Definition restore_rows (rows : list OrderItem) (d : DB) : DB :=
  fold_left (fun d item => (restore_stock (oi_quantity item) (product_id item) d).2) rows d.

(** The accumulators of [calculateNetDebtChange] with the categories of [d]. *)
Definition net_totals (d : DB) (originalItems newItems : list Item) : Z * Z :=
  let originalMap := originalMap_of originalItems in
  let newMap := newMap_of newItems in
  let acc1 :=
    fold_left (fun acc item =>
                 route (select_category (li_productId item) d).1
                       (li_quantity item * li_price item) acc)
              (addedItems_of originalMap newMap) (0, 0) in
  let acc2 :=
    fold_left (fun acc item =>
                 route (select_category (li_productId item) d).1
                       (- (li_quantity item * li_price item)) acc)
              (removedItems_of originalMap newMap) acc1 in
  fold_left (fun acc item =>
               route (select_category (qc_productId item) d).1 (change_value item) acc)
            (increases_of originalMap newMap ++ decreases_of originalMap newMap) acc2.

Definition net_note (originalItems newItems : list Item) (orderId : Z) : string :=
  let originalMap := originalMap_of originalItems in
  let newMap := newMap_of newItems in
  noteText (addedItems_of originalMap newMap) (removedItems_of originalMap newMap)
           (increases_of originalMap newMap ++ decreases_of originalMap newMap) orderId.

Definition net_change (d : DB) (originalItems newItems : list Item) (orderId : Z)
  : NetDebtChange :=
  {| eurNetChange := (net_totals d originalItems newItems).1;
     mkdNetChange := (net_totals d originalItems newItems).2;
     eurNote := net_note originalItems newItems orderId;
     mkdNote := net_note originalItems newItems orderId |}.

(** The rows an edit appends for the order's client [clientId]: one per
    currency with a non-zero net change. *)
Definition net_rows (now actor : Z) (clientId : option Z) (net : NetDebtChange)
  : list Adjustment :=
  (if negb (bool_decide (eurNetChange net = 0)) && truthy clientId
   then [net_adjustment now (default 0 clientId) EUR (eurNetChange net) (eurNote net) actor]
   else [])
  ++ (if negb (bool_decide (mkdNetChange net = 0)) && truthy clientId
      then [net_adjustment now (default 0 clientId) MKD (mkdNetChange net) (mkdNote net) actor]
      else []).

Definition apply_status (st : option OrderStatus) (orderId : Z) (d : DB) : DB :=
  match st with Some s => (update_status s orderId d).2 | None => d end.

Definition final_total (req : EditRequest) (total : option Z) : Z :=
  if preserveDiscount req && bool_decide (0 < originalDiscount req)
  then Z.max 0 (default 0 total - originalDiscount req) else default 0 total.

(** The tables from which the new items are placed: status applied, stock
    of the stored rows restored, stored rows deleted. *)
Definition cleared (orderId : Z) (req : EditRequest) (d : DB) : DB :=
  let d1 := apply_status (new_status req) orderId d in
  let d2 := restore_rows (select_current_items orderId d1).1 d1 in
  (delete_order_items orderId d2).2.

(** The fault-free result of [edit_body]. *)
Definition edit_result (now actor orderId : Z) (req : EditRequest) (d : DB)
  : Error + (bool * DB) :=
  let d1 := apply_status (new_status req) orderId d in
  match items req with
  | None => inr (false, d1)
  | Some its =>
      if negb (checkItemsChanged (default [] (originalItems req)) its)
      then inr (false, apply_status (new_status req) orderId d1)
      else
        match place_items orderId its (cleared orderId req d) with
        | inl e => inl e
        | inr d4 =>
            let net := net_change d4 (default [] (originalItems req)) its orderId in
            let clientId := (select_client_id orderId d1).1 in
            let d6 := set_ledger (fun l => l ++ net_rows now actor clientId net) d4 in
            inr (true, (update_total (final_total req (select_items_total orderId d6).1)
                                     orderId d6).2)
        end
  end.

(** ** Vocabulary of the statements *)

Definition stock_at (d : DB) (k : Key) : option Z := (select_stock k d).1.
Definition category_at (d : DB) (k : Key) : option Category := (select_category k d).1.

(** The currency a product id settles in: EUR for a smartphone, MKD for
    anything else, an unknown product included. *)
Definition settles_in (d : DB) (k : Key) : Currency :=
  match category_at d k with
  | Some smartphones => EUR
  | _ => MKD
  end.

Definition sum_with {A} (f : A → Z) (l : list A) : Z :=
  foldr (fun x acc => f x + acc) 0 l.

(** The accumulators of [calculateNetDebtChange] in closed form, over its
    two maps [productId → item]: the terms added for added items and
    quantity increases ... *)
Definition debt_increase (d : DB) (c : Currency) (originalMap newMap : list (Key * MapItem)) : Z :=
  sum_with
    (fun '(k, newItem) =>
       if decide (settles_in d k = c) then
         match map_get k originalMap with
         | None => mi_quantity newItem * mi_price newItem
         | Some originalItem =>
             if decide (mi_quantity originalItem < mi_quantity newItem)
             then (mi_quantity newItem - mi_quantity originalItem) * mi_price newItem
             else 0
         end
       else 0) newMap.

(** ... and the terms subtracted for removed items and quantity
    decreases. *)
Definition debt_decrease (d : DB) (c : Currency) (originalMap newMap : list (Key * MapItem)) : Z :=
  sum_with
    (fun '(k, originalItem) =>
       if decide (settles_in d k = c) then
         match map_get k newMap with
         | None => mi_quantity originalItem * mi_price originalItem
         | Some newItem =>
             if decide (mi_quantity newItem < mi_quantity originalItem)
             then (mi_quantity originalItem - mi_quantity newItem) * mi_price originalItem
             else 0
         end
       else 0) originalMap.

Definition netChange (d : DB) (c : Currency) (originalItems newItems : list Item) : Z :=
  debt_increase d c (originalMap_of originalItems) (newMap_of newItems)
  - debt_decrease d c (originalMap_of originalItems) (newMap_of newItems).

(** ** The net change in the words of the specification

    The specification speaks of item sets, [{A:2, B:1}]: each product is
    listed once, with its quantity and price.  The definitions below follow
    its sentence on the net change and read nothing of the code above: the
    entry of a product is looked up in the list itself, and the currency of
    a product in the products table. *)






(** The products keep their categories from [d] to [d']. *)
Definition same_catalog (d d' : DB) : Prop := ∀ k, category_at d' k = category_at d k.

(** The stored rows of an order, and the units of product [p] they hold. *)
Definition stored_rows (d : DB) (orderId : Z) : list OrderItem :=
  filter (fun oi => order_id oi = orderId) (order_items d).

Definition units_of (p : Z) (rows : list OrderItem) : Z :=
  sum_with (fun oi => if decide (product_id oi = p) then oi_quantity oi else 0) rows.

(** An item set as (product id, quantity) pairs. *)
Definition original_pairs (its : list Item) : list (Key * Z) :=
  (fun it => (original_key it, quantity it)) <$> its.
Definition new_pairs (its : list Item) : list (Key * Z) :=
  (fun it => (new_key it, quantity it)) <$> its.
Definition stored_pairs (rows : list OrderItem) : list (Key * Z) :=
  (fun oi => (Some (product_id oi), oi_quantity oi)) <$> rows.

(** * A small shop, for the examples

    Amounts are in hundredths: 1000 is 10.00. *)

Definition item (p q pr : Z) (n : string) : Item :=
  {| productId := Some p; item_product_id := None; quantity := q; price := pr;
     name := Some n; product_name := None |}.

Definition product (n : string) (pr stock : Z) (c : Category) : Product :=
  {| p_name := n; p_price := pr; stock_quantity := stock;
     stock_status := enabled; category := c |}.

Definition client_order (u : Z) (st : OrderStatus) (total : Z) : Order :=
  {| client_id := Some u; guest_name := None; status := st; original_status := st;
     total_amount := total; discount_amount := 0; discount_currency := EUR;
     original_total := total |}.

(** Products A, B, C of the specification's example (10, 5 and 20 MKD) and
    a smartphone. *)
Definition catalog : gmap Z Product :=
  <[1 := product "A" 1000 5 accessories]>
    (<[2 := product "B" 500 5 accessories]>
       (<[3 := product "C" 2000 5 accessories]>
          (<[4 := product "Phone" 10000 3 smartphones]> ∅))).

(** Client 42 has the pending order #7 with A x2 and B x1, and the debt
    entry its creation wrote. *)
Definition shop : DB :=
  {| products := catalog;
     orders := {[ 7 := client_order 42 pending 2500 ]};
     next_order_id := 8;
     order_items := [ {| order_id := 7; product_id := 1; oi_quantity := 2; oi_price := 1000 |};
                      {| order_id := 7; product_id := 2; oi_quantity := 1; oi_price := 500 |} ];
     ledger := [ {| user_id := 42; adjustment_amount := -2500;
                    adjustment_type := manual_reduction; currency := Some MKD;
                    notes := Some "Debt increase from pending order #7";
                    created_by := 42; created_at := 1700000000000 |} ] |}.

(** The edit of the example: {A:2, B:1} becomes {A:3, C:1}. *)
Definition edit_A3_C1 : EditRequest :=
  {| new_status := None;
     items := Some [item 1 3 1000 "A"; item 3 1 2000 "C"];
     originalItems := Some [item 1 2 1000 "A"; item 2 1 500 "B"];
     preserveDiscount := false; originalDiscount := 0 |}.


(** An edit that adds a phone: it moves both currencies. *)
Definition edit_A3_Phone : EditRequest :=
  {| new_status := Some completed;
     items := Some [item 1 3 1000 "A"; item 4 1 10000 "Phone"];
     originalItems := Some [item 1 2 1000 "A"; item 2 1 500 "B"];
     preserveDiscount := false; originalDiscount := 0 |}.

(** The store fails the [n]-th statement of the session. *)
Definition fault_at (n : nat) : Faults := fun i => bool_decide (i = n).

(** The stored items sent back, in the other order, with and without
    [originalItems]. *)
Definition resend_same : EditRequest :=
  {| new_status := Some completed;
     items := Some [item 2 1 500 "B"; item 1 2 1000 "A"];
     originalItems := Some [item 1 2 1000 "A"; item 2 1 500 "B"];
     preserveDiscount := false; originalDiscount := 0 |}.

Definition resend_without_original : EditRequest :=
  {| new_status := None;
     items := Some [item 2 1 500 "B"; item 1 2 1000 "A"];
     originalItems := None;
     preserveDiscount := false; originalDiscount := 0 |}.





(** The tables after a fault-free DELETE of an existing order. *)
Definition deleted (orderId : Z) (d : DB) : DB :=
  (delete_order orderId
     (delete_order_items orderId (restore_rows (stored_rows d orderId) d)).2).2.

(** Order #9 holds A x2 and C x3. *)
Definition shop_2_3 : DB :=
  {| products := catalog;
     orders := {[ 9 := client_order 42 completed 8000 ]};
     next_order_id := 10;
     order_items := [ {| order_id := 9; product_id := 1; oi_quantity := 2; oi_price := 1000 |};
                      {| order_id := 9; product_id := 3; oi_quantity := 3; oi_price := 2000 |} ];
     ledger := [] |}.

(** ** Totals of an order, from its stored rows *)

(** The part of the items' total that settles in [c]. *)
Definition order_total_in (d : DB) (c : Currency) (orderId : Z) : Z :=
  sum_with (fun oi => match products d !! product_id oi with
                      | Some p => if decide (currency_of (category p) = c)
                                  then oi_quantity oi * oi_price oi else 0
                      | None => 0
                      end)
           (stored_rows d orderId).

(** SUM(quantity * price) of the order's rows. *)
Definition order_items_total (d : DB) (orderId : Z) : Z :=
  sum_with (fun oi => oi_quantity oi * oi_price oi) (stored_rows d orderId).

(** The total in [c] of the items of a creation request, at the products'
    current prices. *)
Definition items_total (d : DB) (c : Currency) (its : list Item) : Z :=
  sum_with (fun it => match productId it ≫= (fun i => products d !! i) with
                      | Some p => if decide (currency_of (category p) = c)
                                  then p_price p * quantity it else 0
                      | None => 0
                      end) its.

(** ** More of the shop *)

Definition admin : User := {| u_id := 1; isAdmin := true |}.

(** The catalog, no order yet. *)
Definition stocked : DB :=
  {| products := catalog; orders := ∅; next_order_id := 1;
     order_items := []; ledger := [] |}.

(** A phone for client 42, pending, at the list price of 100 EUR. *)
Definition order_phone : CreateRequest :=
  {| c_items := [item 4 1 0 "Phone"]; guestName := None;
     requestedClientId := Some 42; c_status := Some pending; discount := 0;
     discountCurrency := None; totalMkd := 0; totalEur := 0 |}.

(** The same phone with a discount of 10 EUR: the client sends the
    discounted total, 90 EUR. *)
Definition order_phone_discount (st : OrderStatus) : CreateRequest :=
  {| c_items := [item 4 1 0 "Phone"]; guestName := None;
     requestedClientId := Some 42; c_status := Some st; discount := 1000;
     discountCurrency := Some EUR; totalMkd := 0; totalEur := 9000 |}.

Definition status_only (st : OrderStatus) : EditRequest :=
  {| new_status := Some st; items := None; originalItems := None;
     preserveDiscount := false; originalDiscount := 0 |}.

(** ** The history the specification describes for a log row *)




(** Client 42 paid 140 EUR against a debt of 100 EUR, ten minutes after
    the order. *)
Definition paid_order : Order := client_order 42 pending 10000.

Definition credit_ledger : list Adjustment :=
  [ {| user_id := 42; adjustment_amount := -10000; adjustment_type := manual_reduction;
       currency := Some EUR; notes := Some "Debt increase from pending order #7";
       created_by := 42; created_at := 1700000000000 |};
    {| user_id := 42; adjustment_amount := 14000; adjustment_type := manual_reduction;
       currency := Some EUR; notes := Some "EUR debt reduced by 140 EUR (paid with EUR)";
       created_by := 1; created_at := 1700000600000 |} ].

Definition credit_db : DB :=
  {| products := ∅; orders := {[ 7 := paid_order ]}; next_order_id := 8;
     order_items := []; ledger := credit_ledger |}.



(** * The other routes of [routes/users.js] and [routes/orders.js] *)

(** ** users *)

Inductive Role := role_admin | role_client.

#[global] Instance Role_eq_dec : EqDecision Role.
Proof. solve_decision. Defined.

(** The columns of [users] that the routes below read. *)
Record Account := { acc_name : string; acc_role : Role }.

(** A field of a request body as express-validator sees it: absent, well
    formed, or refused by its validator. *)
Inductive Field (A : Type) :=
| Absent
| Given (a : A)
| Refused.
Arguments Absent {A}.
Arguments Given {A} a.
Arguments Refused {A}.

(** ** PUT /users/:id/debt *)

Record DebtRequest := {
  debt : Field Z;                               (* isFloat *)
  debt_currency : Field Currency;               (* optional, isIn ['EUR','MKD'] *)
  debt_adjustment_type : Field AdjustmentType;  (* optional, isIn ['manual_reduction'] *)
  debt_notes : option string
}.

Inductive DebtResponse :=
| DebtValidationError                           (* 400 *)
| DebtInvalidUser                               (* 400, 'Invalid user ID' *)
| DebtUserNotFound                              (* 404 *)
| DebtUpdated (userId debt : Z) (adjustment_type : AdjustmentType)
              (currency : option Currency)      (* 200 *)
| DebtFailed.                                   (* 500 *)

Definition valid_debt (req : DebtRequest) : bool :=
  match debt req with Given _ => true | _ => false end
  && match debt_currency req with Refused => false | _ => true end
  && match debt_adjustment_type req with
     | Absent | Given manual_reduction => true
     | _ => false
     end.

(** The route.  [id] is [parseInt(req.params.id)], [None] for NaN.  Its two
    statements go to the pool outside any transaction: [flt 0] fails the
    query of the user, [flt 1] the insert, whose error the route catches and
    only logs. *)
Definition putDebt (flt : Faults) (now : Z) (actor : User) (users : gmap Z Account)
    (id : option Z) (req : DebtRequest) (d : DB) : DebtResponse * DB :=
  if negb (valid_debt req) then (DebtValidationError, d)
  else match id with
       | None => (DebtInvalidUser, d)
       | Some userId =>
           if bool_decide (userId ≤ 0) then (DebtInvalidUser, d)
           else
             let amount := match debt req with Given z => z | _ => 0 end in
             let cur := match debt_currency req with Given c => Some c | _ => None end in
             let ty := match debt_adjustment_type req with
                       | Given t => t
                       | _ => manual_reduction
                       end in
             if flt 0%nat then (DebtFailed, d)
             else match users !! userId with
                  | None => (DebtUserNotFound, d)
                  | Some _ =>
                      (DebtUpdated userId amount ty cur,
                       if flt 1%nat then d
                       else (insert_adjustment
                               {| user_id := userId; adjustment_amount := amount;
                                  adjustment_type := ty; currency := cur;
                                  notes := or_str (debt_notes req) None;
                                  created_by := u_id actor; created_at := now |} d).2)
                  end
       end.

(** ** DELETE /users/debt-logs/cleanup *)

Inductive CleanupResponse :=
| CleanupDone (deletedRecords : nat)   (* 200 *)
| CleanupFailed.                       (* 500 *)

(** [WHERE adjustment_type = 'manual_reduction' AND created_at < $1] *)
Definition old_log (cutoff : Z) (a : Adjustment) : Prop :=
  adjustment_type a = manual_reduction ∧ created_at a < cutoff.

#[global] Instance old_log_dec cutoff a : Decision (old_log cutoff a).
Proof. unfold old_log. apply _. Defined.

(** The route; [threeMonthsAgo] is the date it computes, the current time
    moved back three calendar months. *)
Definition cleanupDebtLogs (flt : Faults) (threeMonthsAgo : Z) (d : DB)
  : CleanupResponse * DB :=
  if flt 0%nat then (CleanupFailed, d)
  else (CleanupDone (length (filter (old_log threeMonthsAgo) (ledger d))),
        set_ledger (filter (fun a => ¬ old_log threeMonthsAgo a)) d).

(** ** GET /users/debt-logs : the pagination block *)

Record Pagination := {
  currentPage : Z; totalPages : Z; totalRecords : Z; recordsPerPage : Z;
  hasNextPage : bool; hasPreviousPage : bool
}.

(** The rows both queries of the route select from: the manual_reduction
    rows that pass the optional client-name and date conditions. *)
Definition matching_logs (search : Adjustment → bool) (rows : list Adjustment)
  : list Adjustment :=
  filter (fun a => adjustment_type a = manual_reduction ∧ search a = true) rows.

(** [Math.ceil(a / b)] for a positive [b]. *)
Definition ceil_div (a b : Z) : Z := - (- a / b).

Definition debtLogsPagination (search : Adjustment → bool)
    (page_param limit_param : option Z) (d : DB) : option Pagination :=
  let page := int_or 1 page_param in
  let limit := int_or 50 limit_param in
  if bool_decide (page < 1) || bool_decide (limit < 1) || bool_decide (100 < limit)
  then None
  else
    let totalRecords := Z.of_nat (length (matching_logs search (ledger d))) in
    let totalPages := ceil_div totalRecords limit in
    Some {| currentPage := page; totalPages := totalPages;
            totalRecords := totalRecords; recordsPerPage := limit;
            hasNextPage := bool_decide (page < totalPages);
            hasPreviousPage := bool_decide (1 < page) |}.

(** ** GET /orders/:id/invoice : the figures of the totals section

    The two queries of the route and the numbers its totals section works
    out.  The drawing of the PDF is not modelled; the amounts below are the
    values the route then formats with [toFixed(0)].  The route works them
    out in doubles; whether it draws the discount box, which it decides by
    testing such a double against zero, is not modelled. *)

(** A row of the items query,
    [SELECT oi.quantity, oi.price, p.category, ... FROM order_items oi
     JOIN products p ON oi.product_id = p.id WHERE oi.order_id = $1]. *)
Record InvoiceRow := { ir_quantity : Z; ir_price : Z; ir_category : Category }.

Definition select_invoice_items (orderId : Z) (d : DB) : list InvoiceRow :=
  omap (fun oi =>
          if decide (order_id oi = orderId)
          then (fun p => {| ir_quantity := oi_quantity oi; ir_price := oi_price oi;
                            ir_category := category p |})
                 <$> products d !! product_id oi
          else None)
       (order_items d).

(** [rows.reduce((sum, item) => sum + (parseFloat(item.price) * item.quantity), 0)] *)
Definition rows_total (rows : list InvoiceRow) : Z :=
  fold_left (fun sum item => sum + ir_price item * ir_quantity item) rows 0.

(** The figures of the totals section: the item totals, the discount
    applied, and the total shown for each currency that has items. *)
Record InvoiceFigures := {
  eurTotal : Z; mkdTotal : Z; actualDiscount : Z;
  displayEurTotal : option Z; displayMkdTotal : option Z
}.

Inductive InvoiceResponse :=
| InvoiceNotFound                    (* 404 *)
| InvoiceNoItems                     (* 400, 'Order has no items' *)
| InvoicePdf (f : InvoiceFigures).   (* the PDF *)

Definition invoice (user : User) (orderId : Z) (d : DB) : InvoiceResponse :=
  match orders d !! orderId with
  | None => InvoiceNotFound
  | Some o =>
      if negb (isAdmin user) && negb (bool_decide (client_id o = Some (u_id user)))
      then InvoiceNotFound
      else
        let rows := select_invoice_items orderId d in
        if empty rows then InvoiceNoItems
        else
          let eurItems := filter (fun item => ir_category item = smartphones) rows in
          let mkdItems := filter (fun item => ir_category item ≠ smartphones) rows in
          let eurTotal := rows_total eurItems in
          let mkdTotal := rows_total mkdItems in
          let actualDiscount :=
            if decide (discount_amount o = 0) then
              if decide (total_amount o < eurTotal + mkdTotal)
              then eurTotal + mkdTotal - total_amount o else 0
            else discount_amount o in
          InvoicePdf
            {| eurTotal := eurTotal; mkdTotal := mkdTotal;
               actualDiscount := actualDiscount;
               displayEurTotal :=
                 if decide (0 < eurTotal) then
                   Some (if decide (0 < actualDiscount ∧ 0 < eurTotal)
                         then eurTotal - actualDiscount else eurTotal)
                 else None;
               displayMkdTotal :=
                 if decide (0 < mkdTotal) then
                   Some (if decide (0 < actualDiscount ∧ 0 < mkdTotal)
                         then mkdTotal - actualDiscount else mkdTotal)
                 else None |}
  end.

(** ** DELETE /users/:id *)

Inductive UserDeleteResponse :=
| UserInvalidId                        (* 400 *)
| UserNotFound                         (* 404 *)
| UserIsAdmin                          (* 403 *)
| UserHasUnpaidOrders (n : nat)        (* 400 *)
| UserDeleted (id : Z)                 (* 200 *)
| UserDeleteFailed.                    (* 500 *)

(** The count of [orders WHERE client_id = $1 AND status != 'completed']. *)
Definition unpaid_count (userId : Z) (d : DB) : nat :=
  length (filter (fun kv : Z * Order =>
                    client_id kv.2 = Some userId ∧ status kv.2 ≠ completed)
                 (map_to_list (orders d))).

Section UserDeletion.

(** What the store does with [DELETE FROM users WHERE id = $1], foreign-key
    actions and constraints included: the tables it leaves, or [None] when
    it raises. *)
Context (delete_user_row : Z → gmap Z Account * DB → option (gmap Z Account * DB)).

(** The route.  [flt 0] fails the query of the user, [flt 1] the count of
    the unpaid orders. *)
Definition deleteUser (flt : Faults) (id : option Z) (users : gmap Z Account) (d : DB)
  : UserDeleteResponse * (gmap Z Account * DB) :=
  match id with
  | None => (UserInvalidId, (users, d))
  | Some userId =>
      if bool_decide (userId ≤ 0) then (UserInvalidId, (users, d))
      else if flt 0%nat then (UserDeleteFailed, (users, d))
      else match users !! userId with
           | None => (UserNotFound, (users, d))
           | Some user =>
               if bool_decide (acc_role user = role_admin) then (UserIsAdmin, (users, d))
               else if flt 1%nat then (UserDeleteFailed, (users, d))
               else
                 let unpaidOrders := unpaid_count userId d in
                 if bool_decide (0 < unpaidOrders)%nat
                 then (UserHasUnpaidOrders unpaidOrders, (users, d))
                 else match delete_user_row userId (users, d) with
                      | Some after => (UserDeleted userId, after)
                      | None => (UserDeleteFailed, (users, d))
                      end
           end
  end.

End UserDeletion.

(** ** Vocabulary of the further properties *)

(** The units of product [p] a list of request items asks for. *)
Definition requested_units (p : Z) (its : list Item) : Z :=
  sum_with (fun it => if decide (productId it = Some p) then quantity it else 0) its.

(** The rows PUT /orders/:id inserts for the items of a request. *)
Definition edit_rows (orderId : Z) (its : list Item) : list OrderItem :=
  (fun it => {| order_id := orderId; product_id := default 0 (productId it);
                oi_quantity := quantity it; oi_price := price it |}) <$> its.

(** The rows POST /orders inserts: the price is the product's. *)
Definition creation_rows (d : DB) (orderId : Z) (its : list Item) : list OrderItem :=
  omap (fun it =>
          pid ← productId it;
          p ← products d !! pid;
          Some {| order_id := orderId; product_id := pid;
                  oi_quantity := quantity it; oi_price := p_price p |}) its.

(** The client an accepted creation is for: nobody for a guest order,
    else the client the request names, else the caller. *)
Definition creation_client (user : User) (req : CreateRequest) : option Z :=
  if bool_decide (is_Some (guestName req)) then None
  else match requestedClientId req with
       | Some c => Some c
       | None => Some (u_id user)
       end.

(** No product has a negative stock. *)
Definition stock_in_hand (d : DB) : Prop :=
  ∀ p s, stock_at d (Some p) = Some s → 0 ≤ s.

(** Every ledger row has the type [manual_reduction]. *)
Definition only_reductions (rows : list Adjustment) : Prop :=
  Forall (fun a => adjustment_type a = manual_reduction) rows.

(** [SUM(quantity * price)] of request items. *)
Definition request_total (its : list Item) : Z :=
  sum_with (fun it => quantity it * price it) its.

(** ** More examples *)

(** The edit of the example taken back: {A:3, C:1} becomes {A:2, B:1}. *)
Definition edit_back : EditRequest :=
  {| new_status := None;
     items := Some [item 1 2 1000 "A"; item 2 1 500 "B"];
     originalItems := Some [item 1 3 1000 "A"; item 3 1 2000 "C"];
     preserveDiscount := false; originalDiscount := 0 |}.

(** Order #5 of client 42 holds one phone; the edit swaps it for one A. *)
Definition shop_phone : DB :=
  {| products := catalog;
     orders := {[ 5 := client_order 42 pending 10000 ]};
     next_order_id := 6;
     order_items := [ {| order_id := 5; product_id := 4; oi_quantity := 1; oi_price := 10000 |} ];
     ledger := [ {| user_id := 42; adjustment_amount := -10000;
                    adjustment_type := manual_reduction; currency := Some EUR;
                    notes := Some "Debt increase from pending order #5";
                    created_by := 42; created_at := 1700000000000 |} ] |}.

Definition edit_phone_for_A : EditRequest :=
  {| new_status := None;
     items := Some [item 1 1 1000 "A"];
     originalItems := Some [item 4 1 10000 "Phone"];
     preserveDiscount := false; originalDiscount := 0 |}.

(** The users: an admin and the client 42. *)
Definition accounts : gmap Z Account :=
  {[ 1 := {| acc_name := "Admin"; acc_role := role_admin |};
     42 := {| acc_name := "Dugi"; acc_role := role_client |} ]}.

(** A payment of 140 EUR recorded by the admin. *)
Definition pay_140_eur : DebtRequest :=
  {| debt := Given 14000; debt_currency := Given EUR;
     debt_adjustment_type := Given manual_reduction;
     debt_notes := Some "EUR debt reduced by 140 EUR (paid with EUR)" |}.

(** Seven log rows of client 42, one a minute. *)
Definition seven_rows : list Adjustment :=
  (fun i => {| user_id := 42; adjustment_amount := -1000;
               adjustment_type := manual_reduction; currency := Some MKD;
               notes := Some "Debt increase from pending order #1";
               created_by := 1; created_at := 1700000000000 + 60000 * i |})
    <$> [0; 1; 2; 3; 4; 5; 6].

Definition seven_db : DB :=
  {| products := ∅; orders := ∅; next_order_id := 1;
     order_items := []; ledger := seven_rows |}.

(** Order #3 of client 42: a phone and two A, charged 110 EUR/MKD after a
    discount of 10. *)
Definition mixed_db : DB :=
  {| products := catalog;
     orders := {[ 3 := {| client_id := Some 42; guest_name := None; status := pending;
                          original_status := pending; total_amount := 11000;
                          discount_amount := 1000; discount_currency := EUR;
                          original_total := 12000 |} ]};
     next_order_id := 4;
     order_items := [ {| order_id := 3; product_id := 4; oi_quantity := 1; oi_price := 10000 |};
                      {| order_id := 3; product_id := 1; oi_quantity := 2; oi_price := 1000 |} ];
     ledger := [] |}.

(** A store that carries out every [DELETE FROM users]. *)
Definition delete_account (u : Z) (s : gmap Z Account * DB) : option (gmap Z Account * DB) :=
  Some (delete u s.1, s.2).

(** * Lemmas *)

(** * The ledger and its sums *)

Lemma sum_amounts_app l1 l2 : sum_amounts (l1 ++ l2) = sum_amounts l1 + sum_amounts l2.
Proof. unfold sum_amounts. induction l1 as [|a l1 IH]; simpl; [done | rewrite IH; lia]. Qed.

Lemma sum_amounts_perm l1 l2 : l1 ≡ₚ l2 → sum_amounts l1 = sum_amounts l2.
Proof.
  unfold sum_amounts. intros H. induction H; simpl; try lia.
Qed.

Lemma pick_sums_groups (S : option Currency → Z) (keys : list (option Currency)) :
  NoDup keys → ∀ acc,
  fold_left
    (fun (acc : Z * Z) (row : option Currency * Z) =>
       let acc1 := if decide (row.1 = Some EUR) then (row.2, acc.2) else acc in
       if decide (row.1 = Some MKD) then (acc1.1, row.2) else acc1)
    ((fun k => (k, S k)) <$> keys) acc
  = (if decide (Some EUR ∈ keys) then S (Some EUR) else acc.1,
     if decide (Some MKD ∈ keys) then S (Some MKD) else acc.2).
Proof.
  intros Hnd. induction Hnd as [|k keys Hk Hnd IH]; intros [e m]; simpl.
  - done.
  - rewrite IH. clear IH.
    destruct k as [[|]|]; simpl; repeat case_decide; simplify_eq/=; try done;
      exfalso;
      repeat match goal with
             | H : _ ∈ _ :: _ |- _ => apply elem_of_cons in H as [?|?]
             | H : ¬ (_ ∈ _ :: _) |- _ => rewrite elem_of_cons in H
             | H : _ ∉ _ :: _ |- _ => rewrite elem_of_cons in H
             end; naive_solver.
Qed.

Lemma filter_none {A} (P : A → Prop) `{∀ x, Decision (P x)} (l : list A) :
  (∀ x, x ∈ l → ¬ P x) → filter P l = [].
Proof.
  induction l as [|x l IH]; intros Hl; [done|].
  rewrite filter_cons. destruct (decide (P x)) as [Hx|_].
  - exfalso. apply (Hl x); [left | done].
  - apply IH. intros y Hy. apply Hl. by right.
Qed.

Lemma pick_sums_by_currency u rows :
  pick_sums (sums_by_currency u rows)
  = (sum_amounts (entries_of u EUR rows), sum_amounts (entries_of u MKD rows)).
Proof.
  unfold pick_sums, sums_by_currency, entries_of.
  set (mine := filter (fun a => user_id a = u) rows).
  rewrite (pick_sums_groups
             (fun k => sum_amounts (filter (fun a => currency a = k) mine)));
    [|apply NoDup_remove_dups].
  assert (Hsum : ∀ c, sum_amounts (filter (fun a => currency a = Some c) mine)
                      = sum_amounts (filter (fun a => user_id a = u ∧ currency a = Some c) rows)).
  { intros c. subst mine. rewrite list_filter_filter. f_equal.
    apply list_filter_iff. tauto. }
  assert (Hnone : ∀ c, Some c ∉ remove_dups (currency <$> mine) →
                       sum_amounts (filter (fun a => currency a = Some c) mine) = 0).
  { intros c Hc. rewrite elem_of_remove_dups in Hc.
    rewrite filter_none; [done|].
    intros a Ha Hcur. apply Hc. rewrite <- Hcur. by apply list_elem_of_fmap_2. }
  simpl. f_equal.
  - case_decide; [apply Hsum|]. rewrite <- Hsum. symmetry. by apply Hnone.
  - case_decide; [apply Hsum|]. rewrite <- Hsum. symmetry. by apply Hnone.
Qed.

Lemma profileDebt_balance d u :
  eurDebt (profileDebt d u) = currentBalance u EUR (ledger d)
  ∧ mkdDebt (profileDebt d u) = currentBalance u MKD (ledger d)
  ∧ totalDebt (profileDebt d u)
    = currentBalance u EUR (ledger d) + currentBalance u MKD (ledger d).
Proof.
  unfold profileDebt, currentBalance. rewrite pick_sums_by_currency. done.
Qed.

Lemma entries_of_perm u c l1 l2 : l1 ≡ₚ l2 → entries_of u c l1 ≡ₚ entries_of u c l2.
Proof. intros H. unfold entries_of. by rewrite H. Qed.

Lemma currentBalance_perm u c l1 l2 :
  l1 ≡ₚ l2 → currentBalance u c l1 = currentBalance u c l2.
Proof.
  intros H. unfold currentBalance. f_equal.
  apply sum_amounts_perm, entries_of_perm, H.
Qed.

Lemma debt_column_abs u c rows : debt_column u c rows = Z.abs (currentBalance u c rows).
Proof.
  unfold debt_column, currentBalance.
  destruct (entries_of u c rows) as [|a l]; [done|]. by rewrite Z.abs_opp.
Qed.

(** * Transactions: a failed transaction stays failed, and a run that ends
      unfailed is the fault-free run *)


Section Discipline.
Context {A : Type}.

Lemma strict_sound (m : Tx A) : strict m → sound m.
Proof. intros H flt s a s' _. apply H. Qed.

Lemma lawful_ret (a : A) : lawful (ret a).
Proof. split; intros flt s; simpl; auto. Qed.

Lemma lawful_throw e : lawful (@throw A e).
Proof. split; intros flt s; simpl; auto. Qed.

Lemma sound_ret (a : A) : sound (ret a).
Proof. intros flt s a' s' Hs [= _ <-]. done. Qed.

Lemma strict_throw e : strict (@throw A e).
Proof. intros flt s a s' [=]. Qed.

Lemma lawful_statement (q : DB → A * DB) : lawful (statement q).
Proof.
  split; intros flt s Hs; unfold statement; rewrite Hs; simpl; [done|].
  destruct (flt (clock s)); simpl; [done|]. done.
Qed.

Lemma strict_statement (q : DB → A * DB) : strict (statement q).
Proof.
  intros flt s a s'. unfold statement.
  destruct (failed s); [done|]. destruct (flt (clock s)); [done|].
  destruct (q (work s)). by intros [= _ <-].
Qed.

End Discipline.

Lemma lawful_bind {A B} (m : Tx A) (k : A → Tx B) :
  lawful m → (∀ a, lawful (k a)) → lawful (bind m k).
Proof.
  intros [Hm1 Hm2] Hk. split.
  - intros flt s Hs. unfold bind. specialize (Hm1 flt s Hs).
    destruct (m flt s) as [[a|e] s1]; simpl in *; [|done].
    by apply (Hk a).
  - intros flt s Hs Hend. unfold bind in *.
    assert (Hmid : failed (m flt s).2 = false).
    { destruct (failed (m flt s).2) eqn:E; [|done].
      destruct (m flt s) as [[a|e] s1]; simpl in *; [|congruence].
      destruct (Hk a) as [Hk1 _]. rewrite (Hk1 flt s1 E) in Hend. done. }
    rewrite <- (Hm2 flt s Hs Hmid).
    destruct (m flt s) as [[a|e] s1]; simpl in *; [|done].
    destruct (Hk a) as [_ Hk2]. by apply Hk2.
Qed.

Lemma lawful_try_catch {A} (m : Tx A) (h : Error → Tx A) :
  lawful m → (∀ e, lawful (h e)) → lawful (try_catch m h).
Proof.
  intros [Hm1 Hm2] Hh. split.
  - intros flt s Hs. unfold try_catch. specialize (Hm1 flt s Hs).
    destruct (m flt s) as [[a|e] s1]; simpl in *; [done|].
    by apply (Hh e).
  - intros flt s Hs Hend. unfold try_catch in *.
    assert (Hmid : failed (m flt s).2 = false).
    { destruct (failed (m flt s).2) eqn:E; [|done].
      destruct (m flt s) as [[a|e] s1]; simpl in *; [congruence|].
      destruct (Hh e) as [Hh1 _]. rewrite (Hh1 flt s1 E) in Hend. done. }
    rewrite <- (Hm2 flt s Hs Hmid).
    destruct (m flt s) as [[a|e] s1]; simpl in *; [done|].
    destruct (Hh e) as [_ Hh2]. by apply Hh2.
Qed.

Lemma lawful_for_each {A} (xs : list A) (body : A → Tx unit) :
  (∀ x, lawful (body x)) → lawful (for_each xs body).
Proof.
  intros Hb. induction xs as [|x xs IH]; simpl.
  - apply lawful_ret.
  - apply lawful_bind; [apply Hb | intros _; apply IH].
Qed.

Lemma lawful_fold_each {A S} (xs : list A) (body : S → A → Tx S) acc :
  (∀ acc x, lawful (body acc x)) → lawful (fold_each xs body acc).
Proof.
  intros Hb. revert acc. induction xs as [|x xs IH]; intros acc; simpl.
  - apply lawful_ret.
  - apply lawful_bind; [apply Hb | intros acc'; apply IH].
Qed.

Lemma lawful_when b (m : Tx unit) : lawful m → lawful (when b m).
Proof. destruct b; simpl; [done | intros _; apply lawful_ret]. Qed.

Lemma sound_bind {A B} (m : Tx A) (k : A → Tx B) :
  sound m → (∀ a, sound (k a)) → sound (bind m k).
Proof.
  intros Hm Hk flt s b s' Hs. unfold bind.
  destruct (m flt s) as [[a|e] s1] eqn:E; [|done].
  intros Hrun. eapply Hk; [|exact Hrun]. eapply Hm; eauto.
Qed.

Lemma strict_bind {A B} (m : Tx A) (k : A → Tx B) :
  (∀ a, strict (k a)) → strict (bind m k).
Proof.
  intros Hk flt s b s'. unfold bind.
  destruct (m flt s) as [[a|e] s1] eqn:E; [|done]. apply Hk.
Qed.

Lemma strict_bind_l {A B} (m : Tx A) (k : A → Tx B) :
  strict m → (∀ a, sound (k a)) → strict (bind m k).
Proof.
  intros Hm Hk flt s b s'. unfold bind.
  destruct (m flt s) as [[a|e] s1] eqn:E; [|done].
  intros Hrun. eapply Hk; [|exact Hrun]. eapply Hm; eauto.
Qed.

Lemma sound_for_each {A} (xs : list A) (body : A → Tx unit) :
  (∀ x, sound (body x)) → sound (for_each xs body).
Proof.
  intros Hb. induction xs as [|x xs IH]; simpl.
  - apply sound_ret.
  - apply sound_bind; [apply Hb | intros _; apply IH].
Qed.

Lemma sound_fold_each {A S} (xs : list A) (body : S → A → Tx S) acc :
  (∀ acc x, sound (body acc x)) → sound (fold_each xs body acc).
Proof.
  intros Hb. revert acc. induction xs as [|x xs IH]; intros acc; simpl.
  - apply sound_ret.
  - apply sound_bind; [apply Hb | intros acc'; apply IH].
Qed.

(** All or nothing: the request fails and leaves the tables as they were,
    or it is the fault-free request. *)
Lemma transaction_all_or_nothing {A} (body : Tx A) flt d :
  lawful body → sound body →
  (∃ e, transaction body flt d = (Raise e, d))
  ∨ transaction body flt d = transaction body no_faults d.
Proof.
  intros [_ Hrep] Hsound. unfold transaction.
  set (s0 := {| work := d; failed := false; clock := 0 |}).
  destruct (body flt s0) as [[a|e] s1] eqn:E.
  - right. assert (Hs1 : failed s1 = false) by (eapply Hsound; eauto; done).
    rewrite <- (Hrep flt s0), E; [done|done|by rewrite E].
  - left. by exists e.
Qed.

(** * Fault-free runs, step by step *)

Lemma returns_ret {A} (a : A) d : returns (ret a) d a d.
Proof. intros c. by exists c. Qed.

Lemma raises_throw {A} e d : raises (@throw A e) d e.
Proof. intros c. by eexists. Qed.

Lemma returns_statement {A} (q : DB → A * DB) d :
  returns (statement q) d (q d).1 (q d).2.
Proof.
  intros c. exists (S c). unfold statement, session, no_faults. simpl.
  by destruct (q d).
Qed.

Lemma returns_bind {A B} (m : Tx A) (k : A → Tx B) d a d1 b d2 :
  returns m d a d1 → returns (k a) d1 b d2 → returns (bind m k) d b d2.
Proof.
  intros Hm Hk c. destruct (Hm c) as [c1 E1]. destruct (Hk c1) as [c2 E2].
  exists c2. unfold bind. by rewrite E1.
Qed.

Lemma raises_bind_l {A B} (m : Tx A) (k : A → Tx B) d e :
  raises m d e → raises (bind m k) d e.
Proof.
  intros Hm c. destruct (Hm c) as [s1 E1]. exists s1. unfold bind. by rewrite E1.
Qed.

Lemma raises_bind_r {A B} (m : Tx A) (k : A → Tx B) d a d1 e :
  returns m d a d1 → raises (k a) d1 e → raises (bind m k) d e.
Proof.
  intros Hm Hk c. destruct (Hm c) as [c1 E1]. destruct (Hk c1) as [s2 E2].
  exists s2. unfold bind. by rewrite E1.
Qed.

Lemma returns_try_catch {A} (m : Tx A) h d a d1 :
  returns m d a d1 → returns (try_catch m h) d a d1.
Proof.
  intros Hm c. destruct (Hm c) as [c1 E1]. exists c1. unfold try_catch. by rewrite E1.
Qed.

Lemma returns_for_each {A} (xs : list A) (body : A → Tx unit) (f : DB → A → DB) d :
  (∀ x d, returns (body x) d tt (f d x)) →
  returns (for_each xs body) d tt (fold_left f xs d).
Proof.
  intros Hb. revert d. induction xs as [|x xs IH]; intros d; simpl.
  - apply returns_ret.
  - eapply returns_bind; [apply Hb | apply IH].
Qed.

Lemma returns_for_each_reads {A} (xs : list A) (body : A → Tx unit) d :
  (∀ x, returns (body x) d tt d) → returns (for_each xs body) d tt d.
Proof.
  intros Hb. induction xs as [|x xs IH]; simpl.
  - apply returns_ret.
  - eapply returns_bind; [apply Hb | apply IH].
Qed.

Lemma returns_fold_each {A S} (xs : list A) (body : S → A → Tx S) (g : S → A → S) d acc :
  (∀ acc x, returns (body acc x) d (g acc x) d) →
  returns (fold_each xs body acc) d (fold_left g xs acc) d.
Proof.
  intros Hb. revert acc. induction xs as [|x xs IH]; intros acc; simpl.
  - apply returns_ret.
  - eapply returns_bind; [apply Hb | apply IH].
Qed.

Lemma transaction_returns {A} (body : Tx A) d a d' :
  returns body d a d' → transaction body no_faults d = (Done a, d').
Proof.
  intros H. destruct (H 0%nat) as [c' E]. unfold transaction.
  change {| work := d; failed := false; clock := 0 |} with (session d 0).
  by rewrite E.
Qed.

Lemma transaction_raises {A} (body : Tx A) d e :
  raises body d e → transaction body no_faults d = (Raise e, d).
Proof.
  intros H. destruct (H 0%nat) as [c' E]. unfold transaction.
  change {| work := d; failed := false; clock := 0 |} with (session d 0).
  by rewrite E.
Qed.

(** * The edit route without faults *)

Lemma place_items_run orderId its d :
  match place_items orderId its d with
  | inr d' => returns (for_each its (insert_new_item orderId)) d tt d'
  | inl e => raises (for_each its (insert_new_item orderId)) d e
  end.
Proof.
  revert d. induction its as [|item rest IH]; intros d; simpl.
  - apply returns_ret.
  - pose proof (returns_statement (select_stock (productId item)) d) as Hsel.
    simpl in Hsel.
    destruct (stock_quantity <$> (productId item ≫= fun i => products d !! i))
      as [currentStock|] eqn:Est.
    + destruct (bool_decide (currentStock < quantity item)) eqn:Elow.
      * apply raises_bind_l. unfold insert_new_item.
        eapply raises_bind_r; [exact Hsel|]. cbv beta iota. rewrite Elow. apply raises_throw.
      * match goal with |- context [place_items orderId rest ?d1] =>
          specialize (IH d1); destruct (place_items orderId rest d1) as [e|d'] end.
        -- eapply raises_bind_r; [|exact IH]. unfold insert_new_item.
           eapply returns_bind; [exact Hsel|]. cbv beta iota. rewrite Elow.
           eapply returns_bind; [apply returns_statement|]. apply returns_statement.
        -- eapply returns_bind; [|exact IH]. unfold insert_new_item.
           eapply returns_bind; [exact Hsel|]. cbv beta iota. rewrite Elow.
           eapply returns_bind; [apply returns_statement|]. apply returns_statement.
    + apply raises_bind_l. unfold insert_new_item.
      eapply raises_bind_r; [exact Hsel|]. cbv beta iota. apply raises_throw.
Qed.

Lemma calculateNetDebtChange_run originalItems newItems orderId d :
  returns (calculateNetDebtChange originalItems newItems orderId) d
          (net_change d originalItems newItems orderId) d.
Proof.
  unfold calculateNetDebtChange.
  eapply returns_bind.
  { apply (returns_fold_each _ _
             (fun acc item => route (select_category (li_productId item) d).1
                                    (li_quantity item * li_price item) acc)).
    intros acc x. eapply returns_bind; [apply returns_statement | apply returns_ret]. }
  eapply returns_bind.
  { apply (returns_fold_each _ _
             (fun acc item => route (select_category (li_productId item) d).1
                                    (- (li_quantity item * li_price item)) acc)).
    intros acc x. eapply returns_bind; [apply returns_statement | apply returns_ret]. }
  eapply returns_bind.
  { apply (returns_fold_each _ _
             (fun acc item => route (select_category (qc_productId item) d).1
                                    (change_value item) acc)).
    intros acc x. eapply returns_bind; [apply returns_statement | apply returns_ret]. }
  apply returns_ret.
Qed.

Lemma returns_status st orderId d :
  returns (match st with
           | Some s => statement (update_status s orderId)
           | None => ret tt
           end) d tt (apply_status st orderId d).
Proof.
  destruct st as [s|]; simpl; [|apply returns_ret].
  apply (returns_statement (update_status s orderId)).
Qed.

Lemma orders_restore_rows rows d : orders (restore_rows rows d) = orders d.
Proof.
  unfold restore_rows. revert d. induction rows as [|r rows IH]; intros d; simpl; [done|].
  by rewrite IH.
Qed.

Lemma set_ledger_nil d : set_ledger (fun l => l ++ []) d = d.
Proof. destruct d. unfold set_ledger. simpl. by rewrite app_nil_r. Qed.

Lemma set_ledger_app r1 r2 d :
  set_ledger (fun l => l ++ r2) (set_ledger (fun l => l ++ r1) d)
  = set_ledger (fun l => l ++ (r1 ++ r2)) d.
Proof. destruct d. unfold set_ledger. simpl. by rewrite app_assoc. Qed.

Lemma returns_adjustment (b : bool) a d :
  returns (when b (try_catch (statement (insert_adjustment a)) (fun _ => ret tt)))
          d tt (set_ledger (fun l => l ++ (if b then [a] else [])) d).
Proof.
  destruct b; simpl.
  - apply returns_try_catch. apply (returns_statement (insert_adjustment a)).
  - rewrite set_ledger_nil. apply returns_ret.
Qed.

Lemma runs_bind {A B} (m : Tx A) (k : A → Tx B) d a d1 r :
  returns m d a d1 → runs (k a) d1 r → runs (bind m k) d r.
Proof.
  destruct r as [e|[b d2]]; simpl; intros Hm Hk.
  - eapply raises_bind_r; eauto.
  - eapply returns_bind; eauto.
Qed.

Lemma runs_bind_raise {A B} (m : Tx A) (k : A → Tx B) d e :
  raises m d e → runs (bind m k) d (inl e).
Proof. apply raises_bind_l. Qed.

Ltac lawful_steps :=
  repeat first
    [ apply lawful_ret | apply lawful_throw | apply lawful_statement
    | apply lawful_bind; [|intros ?]
    | apply lawful_try_catch; [|intros ?]
    | apply lawful_for_each; intros ?
    | apply lawful_fold_each; intros ? ?
    | apply lawful_when
    | match goal with |- lawful (match ?x with _ => _ end) => destruct x end ].

Section EditRoute.
Context (now actor orderId : Z) (req : EditRequest).

Lemma edit_body_run d :
  runs (edit_body now actor orderId req) d (edit_result now actor orderId req d).
Proof.
  unfold edit_result, edit_body.
  pose proof (returns_status (new_status req) orderId d) as Hst.
  set (d1 := apply_status (new_status req) orderId d) in *.
  eapply runs_bind; [exact Hst|].
  destruct (items req) as [its|]; [|apply returns_ret].
  destruct (negb (checkItemsChanged (default [] (originalItems req)) its)).
  { eapply returns_bind; [apply returns_status | apply returns_ret]. }
  unfold cleared. fold d1.
  set (rows := (select_current_items orderId d1).1).
  set (d2 := restore_rows rows d1).
  set (d3 := (delete_order_items orderId d2).2).
  eapply runs_bind; [apply (returns_statement (select_current_items orderId))|].
  change (select_current_items orderId d1).2 with d1. fold rows.
  eapply runs_bind.
  { apply returns_for_each_reads. intros x.
    eapply returns_bind; [apply (returns_statement (select_stock _)) | apply returns_ret]. }
  eapply runs_bind.
  { apply (returns_for_each rows _
             (fun d item => (restore_stock (oi_quantity item) (product_id item) d).2)).
    intros x d0. apply (returns_statement (restore_stock _ _)). }
  fold (restore_rows rows d1). fold d2.
  eapply runs_bind.
  { apply returns_for_each_reads. intros x.
    eapply returns_bind; [apply (returns_statement (select_stock _)) | apply returns_ret]. }
  eapply runs_bind; [apply (returns_statement (select_client_id orderId))|].
  change (select_client_id orderId d2).2 with d2.
  replace (select_client_id orderId d2).1 with (select_client_id orderId d1).1
    by (unfold select_client_id, d2; simpl; by rewrite orders_restore_rows).
  eapply runs_bind; [apply (returns_statement (delete_order_items orderId))|].
  fold d3.
  pose proof (place_items_run orderId its d3) as Hplace.
  destruct (place_items orderId its d3) as [e|d4].
  { apply runs_bind_raise, Hplace. }
  eapply runs_bind; [exact Hplace|].
  eapply runs_bind; [apply calculateNetDebtChange_run|].
  set (net := net_change d4 (default [] (originalItems req)) its orderId).
  set (clientId := (select_client_id orderId d1).1).
  eapply runs_bind; [apply returns_adjustment|].
  eapply runs_bind; [apply returns_adjustment|].
  rewrite set_ledger_app.
  fold (net_rows now actor clientId net).
  set (d6 := set_ledger _ d4).
  eapply runs_bind; [apply (returns_statement (select_items_total orderId))|].
  change (select_items_total orderId d6).2 with d6.
  eapply returns_bind; [apply (returns_statement (update_total _ orderId))|].
  apply returns_ret.
Qed.

Lemma lawful_insert_new_item item : lawful (insert_new_item orderId item).
Proof. unfold insert_new_item. lawful_steps. Qed.

Lemma lawful_calculateNetDebtChange originalItems newItems :
  lawful (calculateNetDebtChange originalItems newItems orderId).
Proof. unfold calculateNetDebtChange. cbv zeta. lawful_steps. Qed.

Lemma lawful_edit_body : lawful (edit_body now actor orderId req).
Proof.
  unfold edit_body. cbv zeta.
  apply lawful_bind; [lawful_steps|intros _].
  destruct (items req) as [its|]; [|lawful_steps].
  destruct (negb _); [lawful_steps|].
  do 6 (apply lawful_bind; [lawful_steps|intros ?]).
  apply lawful_bind; [apply lawful_for_each, lawful_insert_new_item|intros _].
  apply lawful_bind; [apply lawful_calculateNetDebtChange|intros net].
  lawful_steps.
Qed.

Lemma sound_status (st : option OrderStatus) :
  sound (match st with
         | Some s => statement (update_status s orderId)
         | None => ret tt
         end).
Proof. destruct st; [apply strict_sound, strict_statement | apply sound_ret]. Qed.

(** After the two inserts whose errors are swallowed the body still sends
    the query of the total, which a failed transaction refuses: the body
    cannot return normally from a failed transaction. *)
Lemma sound_edit_body : sound (edit_body now actor orderId req).
Proof.
  unfold edit_body. cbv zeta.
  apply sound_bind; [apply sound_status|intros _].
  destruct (items req) as [its|]; [|apply sound_ret].
  destruct (negb _).
  { apply sound_bind; [apply sound_status | intros _; apply sound_ret]. }
  apply strict_sound.
  do 10 (apply strict_bind; intros ?).
  apply strict_bind_l; [apply strict_statement | intros total].
  apply sound_bind; [apply strict_sound, strict_statement | intros _; apply sound_ret].
Qed.

Lemma putOrder_fault_free d :
  putOrder no_faults now actor orderId req d
  = if negb (valid_edit req) then (BadRequest, d)
    else match orders d !! orderId with
         | None => (NotFound, d)
         | Some _ =>
             match edit_result now actor orderId req d with
             | inr (b, d') => (Updated b, d')
             | inl e => (ServerError e, d)
             end
         end.
Proof.
  unfold putOrder. destruct (negb (valid_edit req)); [done|].
  destruct (orders d !! orderId); [|done].
  pose proof (edit_body_run d) as Hrun.
  destruct (edit_result now actor orderId req d) as [e|[b d']]; simpl in Hrun.
  - by rewrite (transaction_raises _ _ _ Hrun).
  - by rewrite (transaction_returns _ _ _ _ Hrun).
Qed.

Lemma putOrder_all_or_nothing flt d :
  (∃ e, putOrder flt now actor orderId req d = (ServerError e, d))
  ∨ putOrder flt now actor orderId req d = putOrder no_faults now actor orderId req d.
Proof.
  unfold putOrder. destruct (negb (valid_edit req)); [by right|].
  destruct (orders d !! orderId); [|by right].
  destruct (transaction_all_or_nothing (edit_body now actor orderId req) flt d
              lawful_edit_body sound_edit_body) as [[e He]|He].
  - left. exists e. by rewrite He.
  - right. by rewrite He.
Qed.

End EditRoute.

(** * Sums *)

Lemma sum_with_app {A} (f : A → Z) l1 l2 :
  sum_with f (l1 ++ l2) = sum_with f l1 + sum_with f l2.
Proof. unfold sum_with. induction l1 as [|x l1 IH]; simpl; [done | rewrite IH; lia]. Qed.

Lemma sum_with_ext {A} (f g : A → Z) l :
  (∀ x, x ∈ l → f x = g x) → sum_with f l = sum_with g l.
Proof.
  unfold sum_with. induction l as [|x l IH]; intros H; simpl; [done|].
  rewrite (H x), IH; [done| |left]. intros y Hy. apply H. by right.
Qed.

Lemma sum_with_plus {A} (f g : A → Z) l :
  sum_with (fun x => f x + g x) l = sum_with f l + sum_with g l.
Proof. unfold sum_with. induction l as [|x l IH]; simpl; [done | rewrite IH; lia]. Qed.

Lemma sum_with_zero {A} (l : list A) : sum_with (fun _ => 0) l = 0.
Proof. unfold sum_with. induction l as [|x l IH]; simpl; [done | by rewrite IH]. Qed.

Lemma sum_with_omap {A B} (f : A → option B) (g : B → Z) l :
  sum_with g (omap f l)
  = sum_with (fun x => match f x with Some y => g y | None => 0 end) l.
Proof.
  induction l as [|x l IH]; [done|]. simpl.
  destruct (f x) as [y|]; unfold sum_with in *; simpl;
    change (list_omap A B f l) with (omap f l); by rewrite IH.
Qed.

Lemma sum_with_opp {A} (f : A → Z) l : - sum_with f l = sum_with (fun x => - f x) l.
Proof. unfold sum_with. induction l as [|x l IH]; simpl; [done | rewrite <- IH; lia]. Qed.

Lemma sum_with_perm {A} (f : A → Z) l1 l2 : l1 ≡ₚ l2 → sum_with f l1 = sum_with f l2.
Proof. unfold sum_with. intros H. induction H; simpl; lia. Qed.

Lemma fold_route {A} (cat : A → option Category) (v : A → Z) l acc :
  fold_left (fun acc x => route (cat x) (v x) acc) l acc
  = (acc.1 + sum_with (fun x => if decide (cat x = Some smartphones) then v x else 0) l,
     acc.2 + sum_with (fun x => if decide (cat x = Some smartphones) then 0 else v x) l).
Proof.
  unfold sum_with. revert acc. induction l as [|x l IH]; intros [e m]; simpl.
  - f_equal; lia.
  - rewrite IH. unfold route. destruct (decide (cat x = Some smartphones)); simpl; f_equal; lia.
Qed.

(** * The accumulators in closed form *)

Lemma settles_in_EUR d k : settles_in d k = EUR ↔ category_at d k = Some smartphones.
Proof. unfold settles_in. destruct (category_at d k) as [[|]|]; naive_solver. Qed.

Lemma settles_in_MKD d k : settles_in d k = MKD ↔ category_at d k ≠ Some smartphones.
Proof. unfold settles_in. destruct (category_at d k) as [[|]|]; naive_solver. Qed.

Ltac close_point d k :=
  simpl;
  change (category <$> k ≫= (fun i : Z => products d !! i)) with (category_at d k);
  repeat case_decide; lia.

Lemma net_pointwise_new d c (om : list (Key * MapItem)) (k : Key) (n : MapItem) :
  let pick (cat : option Category) (v : Z) :=
    match c with
    | EUR => if decide (cat = Some smartphones) then v else 0
    | MKD => if decide (cat = Some smartphones) then 0 else v
    end in
  match map_get k om with
  | None => pick (category_at d k) (mi_quantity n * mi_price n)
  | Some o =>
      if bool_decide (mi_quantity o < mi_quantity n)
      then pick (category_at d k)
             (change_value {| qc_productId := k; qc_name := mi_name n;
                              increase := Some (mi_quantity n - mi_quantity o);
                              decrease := None; qc_price := mi_price n |})
      else 0
  end
  = if decide (settles_in d k = c) then
      match map_get k om with
      | None => mi_quantity n * mi_price n
      | Some o => if decide (mi_quantity o < mi_quantity n)
                  then (mi_quantity n - mi_quantity o) * mi_price n else 0
      end
    else 0.
Proof.
  intros pick. subst pick.
  pose proof (settles_in_EUR d k). pose proof (settles_in_MKD d k).
  destruct (map_get k om) as [o|]; [case_bool_decide|];
    unfold change_value, truthy; simpl;
    destruct c; repeat case_decide; repeat case_bool_decide; simpl;
    try lia; try tauto; try congruence.
Qed.

Lemma net_pointwise_original d c (nm : list (Key * MapItem)) (k : Key) (o : MapItem) :
  let pick (cat : option Category) (v : Z) :=
    match c with
    | EUR => if decide (cat = Some smartphones) then v else 0
    | MKD => if decide (cat = Some smartphones) then 0 else v
    end in
  match map_get k nm with
  | None => pick (category_at d k) (- (mi_quantity o * mi_price o))
  | Some n =>
      if bool_decide (mi_quantity n < mi_quantity o)
      then pick (category_at d k)
             (change_value {| qc_productId := k; qc_name := mi_name o;
                              increase := None;
                              decrease := Some (mi_quantity o - mi_quantity n);
                              qc_price := mi_price o |})
      else 0
  end
  = - (if decide (settles_in d k = c) then
         match map_get k nm with
         | None => mi_quantity o * mi_price o
         | Some n => if decide (mi_quantity n < mi_quantity o)
                     then (mi_quantity o - mi_quantity n) * mi_price o else 0
         end
       else 0).
Proof.
  intros pick. subst pick.
  pose proof (settles_in_EUR d k). pose proof (settles_in_MKD d k).
  destruct (map_get k nm) as [n|]; [case_bool_decide|];
    unfold change_value, truthy; simpl;
    destruct c; repeat case_decide; repeat case_bool_decide; simpl;
    try lia; try tauto; try congruence.
Qed.

Lemma net_totals_netChange d originalItems newItems :
  net_totals d originalItems newItems
  = (netChange d EUR originalItems newItems, netChange d MKD originalItems newItems).
Proof.
  unfold net_totals, netChange, debt_increase, debt_decrease.
  set (om := originalMap_of originalItems). set (nm := newMap_of newItems).
  rewrite !fold_route. cbn [fst snd]. rewrite !sum_with_app.
  unfold addedItems_of, removedItems_of, increases_of, decreases_of.
  rewrite !sum_with_omap.
  f_equal.
  - rewrite Z.add_0_l.
    match goal with |- ?a + ?r + (?i + ?dd) = ?x - ?y =>
      assert (a + i = x) as <-; [|assert (r + dd = - y) as Hy; [|lia]] end.
    + rewrite <- sum_with_plus. apply sum_with_ext. intros [k n] _.
      rewrite <- (net_pointwise_new d EUR om k n). cbv zeta.
      change (select_category k d).1 with (category_at d k).
      destruct (map_get k om) as [o|]; [case_bool_decide|]; close_point d k.
    + rewrite sum_with_opp, <- sum_with_plus. apply sum_with_ext. intros [k o] _.
      rewrite <- (net_pointwise_original d EUR nm k o). cbv zeta.
      change (select_category k d).1 with (category_at d k).
      destruct (map_get k nm) as [n|]; [case_bool_decide|]; close_point d k.
  - rewrite Z.add_0_l.
    match goal with |- ?a + ?r + (?i + ?dd) = ?x - ?y =>
      assert (a + i = x) as <-; [|assert (r + dd = - y) as Hy; [|lia]] end.
    + rewrite <- sum_with_plus. apply sum_with_ext. intros [k n] _.
      rewrite <- (net_pointwise_new d MKD om k n). cbv zeta.
      change (select_category k d).1 with (category_at d k).
      destruct (map_get k om) as [o|]; [case_bool_decide|]; close_point d k.
    + rewrite sum_with_opp, <- sum_with_plus. apply sum_with_ext. intros [k o] _.
      rewrite <- (net_pointwise_original d MKD nm k o). cbv zeta.
      change (select_category k d).1 with (category_at d k).
      destruct (map_get k nm) as [n|]; [case_bool_decide|]; close_point d k.
Qed.

(** * What each statement leaves alone *)


Lemma same_catalog_refl d : same_catalog d d.
Proof. done. Qed.

Lemma same_catalog_trans d1 d2 d3 :
  same_catalog d1 d2 → same_catalog d2 d3 → same_catalog d1 d3.
Proof. intros H1 H2 k. by rewrite H2, H1. Qed.

Lemma same_catalog_products d d' : products d' = products d → same_catalog d d'.
Proof. intros H k. unfold category_at, select_category. simpl. by rewrite H. Qed.

Lemma same_catalog_stock n i d : same_catalog d (set_products (alter (add_to_stock n) i) d).
Proof.
  intros [k|]; [|done]. unfold category_at, select_category. simpl.
  rewrite lookup_alter. case_decide; [subst|done].
  by destruct (products d !! k).
Qed.

Lemma same_catalog_restore_rows rows d : same_catalog d (restore_rows rows d).
Proof.
  unfold restore_rows. revert d. induction rows as [|r rows IH]; intros d; simpl; [done|].
  eapply same_catalog_trans; [|apply IH]. apply same_catalog_stock.
Qed.

Lemma add_to_stock_add a b p : add_to_stock a (add_to_stock b p) = add_to_stock (b + a) p.
Proof. unfold add_to_stock. simpl. f_equal. lia. Qed.

Lemma add_to_stock_0 p : add_to_stock 0 p = p.
Proof. destruct p. unfold add_to_stock. simpl. f_equal. lia. Qed.

Lemma products_restore_rows rows d p :
  products (restore_rows rows d) !! p = add_to_stock (units_of p rows) <$> products d !! p.
Proof.
  unfold restore_rows, units_of, sum_with.
  revert d. induction rows as [|r rows IH]; intros d; simpl.
  - destruct (products d !! p); simpl; [by rewrite add_to_stock_0|done].
  - rewrite IH. simpl. rewrite lookup_alter.
    destruct (decide (product_id r = p)) as [->|Hne].
    + destruct (products d !! p); simpl; [|done]. by rewrite add_to_stock_add.
    + by rewrite Z.add_0_l.
Qed.

Lemma ledger_restore_rows rows d : ledger (restore_rows rows d) = ledger d.
Proof.
  unfold restore_rows. revert d. induction rows as [|r rows IH]; intros d; simpl; [done|].
  by rewrite IH.
Qed.

Lemma order_items_restore_rows rows d : order_items (restore_rows rows d) = order_items d.
Proof.
  unfold restore_rows. revert d. induction rows as [|r rows IH]; intros d; simpl; [done|].
  by rewrite IH.
Qed.

Lemma ledger_apply_status st orderId d : ledger (apply_status st orderId d) = ledger d.
Proof. by destruct st. Qed.

Lemma products_apply_status st orderId d : products (apply_status st orderId d) = products d.
Proof. by destruct st. Qed.

Lemma order_items_apply_status st orderId d :
  order_items (apply_status st orderId d) = order_items d.
Proof. by destruct st. Qed.

Lemma client_apply_status st orderId d :
  (select_client_id orderId (apply_status st orderId d)).1 = orders d !! orderId ≫= client_id.
Proof.
  destruct st as [s|]; simpl; [|done]. rewrite lookup_alter, decide_True by done.
  by destruct (orders d !! orderId).
Qed.

Lemma place_items_frame orderId its d d' :
  place_items orderId its d = inr d' →
  ledger d' = ledger d ∧ orders d' = orders d ∧ same_catalog d d'.
Proof.
  revert d. induction its as [|item rest IH]; intros d; simpl.
  - intros [= <-]. done.
  - destruct (stock_quantity <$> _) as [st|]; [|done].
    destruct (bool_decide (st < quantity item)); [done|].
    intros H. apply IH in H as (Hl & Ho & Hc). simpl in *.
    split_and!; [done|done|].
    eapply same_catalog_trans; [|exact Hc].
    eapply same_catalog_trans; [apply same_catalog_stock|].
    apply same_catalog_products. done.
Qed.

Lemma same_catalog_cleared orderId req d : same_catalog d (cleared orderId req d).
Proof.
  unfold cleared.
  eapply same_catalog_trans; [|apply same_catalog_products; reflexivity].
  eapply same_catalog_trans; [|apply same_catalog_restore_rows].
  apply same_catalog_products, products_apply_status.
Qed.

Lemma ledger_cleared orderId req d : ledger (cleared orderId req d) = ledger d.
Proof. unfold cleared. simpl. by rewrite ledger_restore_rows, ledger_apply_status. Qed.

Lemma netChange_catalog d d' c originalItems newItems :
  same_catalog d d' →
  netChange d' c originalItems newItems = netChange d c originalItems newItems.
Proof.
  intros H. unfold netChange, debt_increase, debt_decrease.
  f_equal; apply sum_with_ext; intros [k x] _; unfold settles_in; by rewrite H.
Qed.

Lemma net_change_catalog d d' originalItems newItems orderId :
  same_catalog d d' →
  net_change d' originalItems newItems orderId = net_change d originalItems newItems orderId.
Proof.
  intros H. unfold net_change. rewrite !net_totals_netChange. simpl.
  by rewrite !(netChange_catalog d d' _ _ _ H).
Qed.

(** The ledger after a fault-free edit. *)
Lemma edit_result_ledger now actor orderId req d b d' :
  edit_result now actor orderId req d = inr (b, d') →
  ledger d' = ledger d
              ++ (if b then net_rows now actor (orders d !! orderId ≫= client_id)
                             (net_change d (default [] (originalItems req))
                                         (default [] (items req)) orderId)
                  else []).
Proof.
  unfold edit_result. destruct (items req) as [its|]; simpl.
  2:{ intros [= <- <-]. by rewrite app_nil_r, ledger_apply_status. }
  destruct (negb _).
  { intros [= <- <-]. by rewrite app_nil_r, !ledger_apply_status. }
  destruct (place_items orderId its (cleared orderId req d)) as [e|d4] eqn:Hplace; [done|].
  intros [= <- <-]. simpl.
  apply place_items_frame in Hplace as (Hl & Ho & Hc).
  rewrite Hl, ledger_cleared. f_equal.
  rewrite (net_change_catalog d d4).
  - f_equal. destruct (new_status req) as [s|]; simpl; [|done].
    rewrite lookup_alter, decide_True by done. by destruct (orders d !! orderId).
  - eapply same_catalog_trans; [apply same_catalog_cleared | exact Hc].
Qed.

(** * When the loop over the new items throws *)

Lemma stock_at_step orderId item k d :
  stock_at
    (insert_order_item
       {| order_id := orderId; product_id := default 0 (productId item);
          oi_quantity := quantity item; oi_price := price item |}
       (reduce_stock (quantity item) (default 0 (productId item)) d).2).2 k
  = (fun s => if decide (k = Some (default 0 (productId item)))
              then s - quantity item else s) <$> stock_at d k.
Proof.
  unfold stock_at, select_stock. simpl. destruct k as [i|]; simpl; [|done].
  rewrite lookup_alter.
  destruct (decide (default 0 (productId item) = i)) as [<-|Hi].
  - destruct (products d !! _); simpl; [|done].
    rewrite decide_True by done. f_equal.
  - destruct (products d !! i); simpl; [|done].
    by rewrite decide_False by congruence.
Qed.

Lemma place_items_missing orderId its d item :
  item ∈ its → stock_at d (productId item) = None →
  ∃ e, place_items orderId its d = inl e.
Proof.
  revert d. induction its as [|hd rest IH]; intros d Hin Hnone; [by apply elem_of_nil in Hin|].
  cbn [place_items]. change (select_stock (productId hd) d).1 with (stock_at d (productId hd)).
  destruct (stock_at d (productId hd)) as [st|] eqn:Ehd; [|by eexists].
  destruct (bool_decide (st < quantity hd)); [by eexists|].
  apply elem_of_cons in Hin as [->|Hin]; [congruence|].
  apply IH; [done|]. rewrite stock_at_step, Hnone. done.
Qed.

Lemma place_items_short orderId its d item st :
  Forall (fun it => 0 ≤ quantity it) its →
  item ∈ its → stock_at d (productId item) = Some st → st < quantity item →
  ∃ e, place_items orderId its d = inl e.
Proof.
  revert d st. induction its as [|hd rest IH]; intros d st Hq Hin Hst Hlt;
    [by apply elem_of_nil in Hin|].
  cbn [place_items]. change (select_stock (productId hd) d).1 with (stock_at d (productId hd)).
  destruct (stock_at d (productId hd)) as [sh|] eqn:Ehd; [|by eexists].
  case_bool_decide as Hhd; [by eexists|].
  apply Forall_cons in Hq as [Hq0 Hq].
  apply elem_of_cons in Hin as [->|Hin]; [simplify_eq; lia|].
  eapply (IH _ (if decide (productId item = Some (default 0 (productId hd)))
                then st - quantity hd else st)); [done|done| |].
  - rewrite stock_at_step, Hst. done.
  - case_decide; lia.
Qed.

(** The stock from which the new items are taken. *)
Lemma units_of_current p orderId d :
  is_Some (products d !! p) →
  units_of p (select_current_items orderId d).1 = units_of p (stored_rows d orderId).
Proof.
  intros Hp. unfold units_of, select_current_items, stored_rows, sum_with. simpl.
  induction (order_items d) as [|r rows IH]; [done|].
  rewrite !filter_cons.
  destruct (decide (order_id r = orderId)) as [Ho|Ho].
  - destruct (decide (product_id r = p)) as [Hr|Hr].
    + rewrite decide_True by (by rewrite Hr). simpl. rewrite decide_True by done.
      by rewrite IH.
    + case_decide; simpl; rewrite decide_False by done; rewrite IH; done.
  - rewrite decide_False by tauto. done.
Qed.

Lemma select_current_items_apply_status st orderId d :
  (select_current_items orderId (apply_status st orderId d)).1
  = (select_current_items orderId d).1.
Proof. by destruct st. Qed.

Lemma stock_cleared orderId req d p :
  stock_at (cleared orderId req d) (Some p)
  = (fun s => s + units_of p (stored_rows d orderId)) <$> stock_at d (Some p).
Proof.
  unfold cleared.
  pose proof (select_current_items_apply_status (new_status req) orderId d) as Hrows.
  set (rows := (select_current_items orderId (apply_status _ _ _)).1) in *.
  clearbody rows. subst rows.
  unfold stock_at, select_stock. simpl.
  rewrite products_restore_rows, products_apply_status.
  destruct (products d !! p) as [x|] eqn:Hp; simpl; [|done].
  f_equal. f_equal.
  apply units_of_current. by rewrite Hp.
Qed.

(** * When [checkItemsChanged] answers "unchanged" *)

Lemma map_set_fresh {V} (k : Key) (v : V) m : k ∉ m.*1 → map_set k v m = m ++ [(k, v)].
Proof.
  induction m as [|[k' v'] m IH]; intros Hk; simpl; [done|].
  rewrite decide_False by (intros ->; apply Hk; left).
  rewrite IH; [done|]. intros H. apply Hk. by right.
Qed.

Lemma build_map_nodup {V} (key : Item → Key) (val : Item → V) its :
  NoDup (key <$> its) → build_map key val its = (fun it => (key it, val it)) <$> its.
Proof.
  unfold build_map.
  assert (Hgen : ∀ acc, NoDup (acc.*1 ++ (key <$> its)) →
    fold_left (fun m it => map_set (key it) (val it) m) its acc
    = acc ++ ((fun it => (key it, val it)) <$> its)).
  { induction its as [|it its IH]; intros acc Hnd; simpl; [by rewrite app_nil_r|].
    rewrite map_set_fresh.
    - rewrite IH; [by rewrite <- app_assoc|].
      rewrite fmap_app. simpl. rewrite <- app_assoc. done.
    - apply NoDup_app in Hnd as (_ & Hdis & _). intros Hin.
      apply (Hdis _ Hin). left. }
  intros Hnd. apply (Hgen []). done.
Qed.

Lemma map_get_elem {V} (k : Key) (v : V) m :
  NoDup m.*1 → (k, v) ∈ m → map_get k m = Some v.
Proof.
  induction m as [|[k' v'] m IH]; intros Hnd Hin; [by apply elem_of_nil in Hin|].
  simpl. apply NoDup_cons in Hnd as [Hk' Hnd].
  apply elem_of_cons in Hin as [[= <- <-]|Hin].
  - by rewrite decide_True.
  - rewrite decide_False; [by apply IH|].
    intros <-. apply Hk'. apply list_elem_of_fmap. by exists (k, v).
Qed.

Lemma existsb_none {A} (f : A → bool) l : (∀ x, x ∈ l → f x = false) → existsb f l = false.
Proof.
  induction l as [|x l IH]; intros H; simpl; [done|].
  rewrite (H x) by left. apply IH. intros y Hy. apply H. by right.
Qed.

Lemma checkItemsChanged_same originalItems newItems :
  original_pairs originalItems ≡ₚ new_pairs newItems →
  NoDup (new_key <$> newItems) →
  checkItemsChanged originalItems newItems = false.
Proof.
  intros Hperm Hnd. unfold checkItemsChanged.
  assert (Hlen : length originalItems = length newItems).
  { apply Permutation_length in Hperm. unfold original_pairs, new_pairs in Hperm.
    by rewrite !length_fmap in Hperm. }
  rewrite bool_decide_true by done. simpl.
  assert (Hnd' : NoDup (original_key <$> originalItems)).
  { assert (Hk : (original_pairs originalItems).*1 ≡ₚ (new_pairs newItems).*1)
      by (by rewrite Hperm).
    unfold original_pairs, new_pairs in Hk. rewrite <- !list_fmap_compose in Hk.
    change (original_key <$> originalItems ≡ₚ new_key <$> newItems) in Hk.
    by rewrite Hk. }
  rewrite !build_map_nodup by done.
  fold (original_pairs originalItems). fold (new_pairs newItems).
  assert (Hn : NoDup (new_pairs newItems).*1).
  { unfold new_pairs. by rewrite <- list_fmap_compose. }
  assert (Ho : NoDup (original_pairs originalItems).*1).
  { unfold original_pairs. by rewrite <- list_fmap_compose. }
  rewrite existsb_none.
  - rewrite existsb_none; [done|]. intros [k q] Hin.
    rewrite (map_get_elem k q); [done|done|]. by rewrite Hperm.
  - intros [k q] Hin. rewrite (map_get_elem k q); [|done|by rewrite <- Hperm].
    by rewrite bool_decide_true.
Qed.

Lemma apply_status_twice st orderId d :
  apply_status st orderId (apply_status st orderId d) = apply_status st orderId d.
Proof.
  destruct st as [s|]; simpl; [|done]. unfold set_orders. simpl. f_equal.
  apply map_eq. intros i. rewrite !lookup_alter.
  case_decide; [|done]. rewrite decide_True by done.
  by destruct (orders d !! orderId).
Qed.

Lemma putOrder_updated flt now actor orderId req d b d' :
  putOrder flt now actor orderId req d = (Updated b, d') →
  valid_edit req = true ∧ is_Some (orders d !! orderId)
  ∧ edit_result now actor orderId req d = inr (b, d').
Proof.
  intros Hrun.
  destruct (putOrder_all_or_nothing now actor orderId req flt d) as [[e He]|He];
    [congruence|].
  rewrite He, putOrder_fault_free in Hrun.
  destruct (valid_edit req); simpl in Hrun; [|done].
  destruct (orders d !! orderId) as [o|]; [|done].
  destruct (edit_result now actor orderId req d) as [e|[b0 d0]]; [done|].
  by simplify_eq.
Qed.

Lemma edit_result_flag now actor orderId req d b d' :
  edit_result now actor orderId req d = inr (b, d') →
  b = match items req with
      | Some its => checkItemsChanged (default [] (originalItems req)) its
      | None => false
      end.
Proof.
  unfold edit_result. destruct (items req) as [its|]; [|by intros [= <- _]].
  destruct (checkItemsChanged _ its); simpl; [|by intros [= <- _]].
  destruct (place_items _ _ _); [done|]. by intros [= <- _].
Qed.

Lemma putOrder_cases flt now actor orderId req d :
  (∃ resp, putOrder flt now actor orderId req d = (resp, d) ∧ ∀ b, resp ≠ Updated b)
  ∨ (∃ b d', putOrder flt now actor orderId req d = (Updated b, d')
             ∧ putOrder no_faults now actor orderId req d = (Updated b, d')
             ∧ valid_edit req = true
             ∧ edit_result now actor orderId req d = inr (b, d')).
Proof.
  destruct (putOrder_all_or_nothing now actor orderId req flt d) as [[e He]|He].
  { left. exists (ServerError e). by rewrite He. }
  rewrite He. rewrite putOrder_fault_free.
  destruct (valid_edit req); simpl; [|left; by eexists].
  destruct (orders d !! orderId) as [o|]; [|left; by eexists].
  destruct (edit_result now actor orderId req d) as [e|[b d']]; [left; by eexists|].
  right. by exists b, d'.
Qed.

Lemma valid_edit_quantities req its :
  valid_edit req = true → items req = Some its → Forall (fun it => 0 ≤ quantity it) its.
Proof.
  unfold valid_edit. intros Hv Hits. rewrite Hits in Hv.
  apply andb_true_iff in Hv as [_ Hv].
  apply andb_true_iff in Hv as [_ Hv]. rewrite forallb_forall in Hv.
  apply Forall_forall. intros it Hit. apply list_elem_of_In in Hit. apply Hv in Hit.
  unfold valid_edit_item in Hit. destruct (productId it); [|done].
  apply andb_true_iff in Hit as [Hit _]. apply andb_true_iff in Hit as [_ Hit].
  apply bool_decide_eq_true in Hit. lia.
Qed.

(** * DELETE /orders/:id *)

Lemma delete_body_run orderId d :
  returns (delete_body orderId) d
    (match orders d !! orderId with
     | Some _ => Some (length (stored_rows d orderId))
     | None => None
     end)
    (match orders d !! orderId with
     | Some _ => deleted orderId d
     | None => d
     end).
Proof.
  unfold delete_body.
  eapply returns_bind; [apply (returns_statement (select_order orderId))|].
  simpl. destruct (orders d !! orderId) as [o|]; [|apply returns_ret].
  eapply returns_bind; [apply (returns_statement (select_order_items orderId))|].
  change (select_order_items orderId d).1 with (stored_rows d orderId).
  change (select_order_items orderId d).2 with d.
  eapply returns_bind.
  { apply (returns_for_each _ _
             (fun d item => (restore_stock (oi_quantity item) (product_id item) d).2)).
    intros x d0. apply (returns_statement (restore_stock _ _)). }
  fold (restore_rows (stored_rows d orderId) d).
  eapply returns_bind; [apply (returns_statement (delete_order_items orderId))|].
  eapply returns_bind; [apply (returns_statement (delete_order orderId))|].
  apply returns_ret.
Qed.

Lemma lawful_delete_body orderId : lawful (delete_body orderId).
Proof. unfold delete_body. lawful_steps. Qed.

Lemma sound_delete_body orderId : sound (delete_body orderId).
Proof.
  unfold delete_body.
  apply sound_bind; [apply strict_sound, strict_statement|intros [o|]]; [|apply sound_ret].
  apply strict_sound.
  do 3 (apply strict_bind; intros ?).
  apply strict_bind_l; [apply strict_statement | intros _; apply sound_ret].
Qed.

Lemma deleteOrder_all_or_nothing flt orderId d :
  (∃ e, deleteOrder flt orderId d = (DeleteFailed e, d))
  ∨ deleteOrder flt orderId d = deleteOrder no_faults orderId d.
Proof.
  unfold deleteOrder.
  destruct (transaction_all_or_nothing (delete_body orderId) flt d
              (lawful_delete_body _) (sound_delete_body _)) as [[e He]|He].
  - left. exists e. by rewrite He.
  - right. by rewrite He.
Qed.

Lemma stored_rows_after_delete orderId d k :
  stored_rows (deleted orderId d) k = if decide (k = orderId) then [] else stored_rows d k.
Proof.
  unfold stored_rows, deleted. simpl. rewrite order_items_restore_rows.
  rewrite list_filter_filter. case_decide as Hk.
  - subst k. apply filter_none. intros x _ [H1 H2]. done.
  - apply list_filter_iff. intros x. split; [tauto|]. intros Hx. split; [done|congruence].
Qed.

(** * Revenue *)

Lemma sum_single_key (g : Z → Order → Z) (m : gmap Z Order) (k0 : Z) :
  sum_with (fun kv => if decide (kv.1 = k0) then g kv.1 kv.2 else 0) (map_to_list m)
  = match m !! k0 with Some o => g k0 o | None => 0 end.
Proof.
  induction m as [|i x m Hi Hfold IH] using map_first_key_ind.
  - by rewrite map_to_list_empty.
  - rewrite map_to_list_insert_first_key by done.
    unfold sum_with in *. simpl. rewrite IH. rewrite lookup_insert.
    destruct (decide (i = k0)) as [->|Hne].
    + rewrite Hi. lia.
    + by rewrite Z.add_0_l.
Qed.

(** The join of the revenue queries, regrouped by order. *)
Lemma item_revenue_by_order d keep c :
  item_revenue d keep c
  = sum_with (fun kv => if keep kv.1 kv.2 then order_total_in d c kv.1 else 0)
             (map_to_list (orders d)).
Proof.
  unfold item_revenue, order_total_in, stored_rows.
  induction (order_items d) as [|oi rows IH].
  - simpl. symmetry. etrans; [|apply (sum_with_zero (map_to_list (orders d)))].
    apply sum_with_ext. intros kv _. by destruct (keep kv.1 kv.2).
  - simpl. rewrite IH. clear IH.
    set (v := match products d !! product_id oi with
              | Some p => if decide (currency_of (category p) = c)
                          then oi_quantity oi * oi_price oi else 0
              | None => 0
              end).
    transitivity
      (sum_with (fun kv => if decide (kv.1 = order_id oi)
                           then (fun k o => if keep k o then v else 0) kv.1 kv.2 else 0)
                (map_to_list (orders d))
       + sum_with (fun kv => if keep kv.1 kv.2
                             then sum_with
                                    (fun oi => match products d !! product_id oi with
                                               | Some p => if decide (currency_of (category p) = c)
                                                           then oi_quantity oi * oi_price oi else 0
                                               | None => 0
                                               end)
                                    (filter (fun oi => order_id oi = kv.1) rows)
                             else 0) (map_to_list (orders d))).
    + rewrite (sum_single_key (fun k o => if keep k o then v else 0)). subst v.
      destruct (orders d !! order_id oi) as [o|]; [|lia].
      destruct (products d !! product_id oi) as [p|].
      * destruct (keep (order_id oi) o); simpl; [|lia].
        rewrite bool_decide_decide. destruct (decide _); lia.
      * destruct (keep (order_id oi) o); lia.
    + rewrite <- sum_with_plus. apply sum_with_ext. intros [k o] _. simpl.
      rewrite filter_cons. destruct (decide (order_id oi = k)) as [->|Hne].
      * rewrite decide_True by done. destruct (keep k o); [|lia].
        unfold sum_with. simpl. done.
      * rewrite decide_False by done. lia.
Qed.

Lemma completed_totals_sum d :
  completed_totals d
  = sum_with (fun kv => if is_completed kv.2 then total_amount kv.2 else 0)
             (map_to_list (orders d)).
Proof.
  unfold completed_totals, sum_with.
  induction (map_to_list (orders d)) as [|kv l IH]; simpl; [done|].
  rewrite IH. destruct (is_completed kv.2); lia.
Qed.

Lemma order_total_split d k :
  (∀ oi, oi ∈ order_items d → is_Some (products d !! product_id oi)) →
  order_total_in d EUR k + order_total_in d MKD k = order_items_total d k.
Proof.
  intros Hfk. unfold order_total_in, order_items_total.
  rewrite <- sum_with_plus. apply sum_with_ext. intros oi Hoi.
  destruct (Hfk oi) as [p ->].
  { unfold stored_rows in Hoi. by apply list_elem_of_filter in Hoi as [_ ?]. }
  destruct (category p); simpl; lia.
Qed.

(** * GET /users/debt-logs *)

Lemma filter_ext_in {A} (P Q : A → Prop) `{∀ x, Decision (P x)} `{∀ x, Decision (Q x)}
    (l : list A) :
  (∀ x, x ∈ l → P x ↔ Q x) → filter P l = filter Q l.
Proof.
  induction l as [|x l IH]; intros Hl; [done|].
  rewrite !filter_cons.
  destruct (decide (P x)) as [HP|HP], (decide (Q x)) as [HQ|HQ].
  - f_equal. apply IH. intros y Hy. apply Hl. by right.
  - exfalso. apply HQ, (Hl x); [left|done].
  - exfalso. apply HP, (Hl x); [left|done].
  - apply IH. intros y Hy. apply Hl. by right.
Qed.


(** * POST /orders *)

Lemma validate_items_totals d its acc v :
  validate_items d its acc = inr v →
  eurPendingTotal v = eurPendingTotal acc + items_total d EUR its
  ∧ mkdPendingTotal v = mkdPendingTotal acc + items_total d MKD its
  ∧ totalAmount v = totalAmount acc + items_total d EUR its + items_total d MKD its.
Proof.
  unfold items_total, sum_with.
  revert acc. induction its as [|it rest IH]; intros acc; simpl.
  - intros [= <-]. lia.
  - destruct (productId it) as [i|]; simpl; [|done].
    destruct (products d !! i) as [p|]; simpl; [|done].
    destruct (bool_decide (stock_status p = disabled)); [done|].
    destruct (bool_decide (stock_quantity p < quantity it)); [done|].
    intros H. apply IH in H as (He & Hm & Ht). rewrite He, Hm, Ht.
    destruct (category p); simpl; lia.
Qed.

Lemma validate_items_refusal d its acc err :
  validate_items d its acc = inl err → ∀ orderId total, err ≠ Created orderId total.
Proof.
  revert acc. induction its as [|it rest IH]; intros acc; simpl; [done|].
  destruct (productId it ≫= _) as [[pid p]|]; [|by intros [= <-]].
  destruct (bool_decide (stock_status p = disabled)); [by intros [= <-]|].
  destruct (bool_decide (stock_quantity p < quantity it)); [by intros [= <-]|].
  apply IH.
Qed.

Lemma ledger_create_items orderId vs d : ledger (create_items orderId vs d) = ledger d.
Proof.
  unfold create_items. revert d. induction vs as [|v vs IH]; intros d; simpl; [done|].
  by rewrite IH.
Qed.

(** * The accumulators and the net change of the specification *)

Lemma build_map_ext {V} (key1 key2 : Item → Key) (val : Item → V) its :
  (∀ it, it ∈ its → key1 it = key2 it) → build_map key1 val its = build_map key2 val its.
Proof.
  unfold build_map. generalize (@nil (Key * V)).
  induction its as [|it its IH]; intros acc Hk; simpl; [done|].
  rewrite (Hk it) by left. apply IH. intros it' Hit'. apply Hk. by right.
Qed.

Lemma sum_with_fmap {A B} (g : A → B) (f : B → Z) l :
  sum_with f (g <$> l) = sum_with (fun x => f (g x)) l.
Proof.
  unfold sum_with. induction l as [|x l IH]; [done|].
  rewrite fmap_cons. cbn [foldr]. by rewrite IH.
Qed.







(** * The claims *)

(** C1: the profile reports minus the sum of the pair's entries, whatever
    their number and order; the invoice reports the absolute value of that
    sum.  For a client in credit (positive sum) the invoice therefore shows
    the credit as a debt: 40 EUR of credit is printed as 40 EUR of debt. *)
Theorem invoice_reports_credit_as_debt :
  (∀ d u, eurDebt (profileDebt d u) = currentBalance u EUR (ledger d)
          ∧ mkdDebt (profileDebt d u) = currentBalance u MKD (ledger d))
  ∧ (∀ u c rows rows', rows ≡ₚ rows' → currentBalance u c rows = currentBalance u c rows')
  ∧ (∀ d orderId o u c,
       orders d !! orderId = Some o → client_id o = Some u →
       invoiceDebt d orderId c = Some (Z.abs (currentBalance u c (ledger d))))
  ∧ currentBalance 42 EUR (ledger credit_db) = -4000
  ∧ eurDebt (profileDebt credit_db 42) = -4000
  ∧ invoiceDebt credit_db 7 EUR = Some 4000.
Proof.
  split_and!.
  - intros d u. pose proof (profileDebt_balance d u) as (? & ? & _). done.
  - intros u c rows rows'. apply currentBalance_perm.
  - intros d orderId o u c Ho Hu. unfold invoiceDebt. rewrite Ho. simpl.
    by rewrite Hu, debt_column_abs.
  - by vm_compute.
  - by vm_compute.
  - by vm_compute.
Qed.

(** C2: whichever statements the store fails, an edit that fails leaves
    the tables as they were, and an edit that succeeds is the complete,
    fault-free edit.  A new item whose product does not exist, or whose
    quantity exceeds the stock after the stored rows are restored, makes the
    edit fail.  The committed ledger holds all the rows of the edit or none
    of them: the errors of the two inserts are swallowed, but the
    transaction is failed by then and the query of the total that follows
    is refused. *)
Theorem edit_is_all_or_nothing flt now actor orderId req d :
  let out := putOrder flt now actor orderId req d in
  ((∀ b, out.1 ≠ Updated b) → out.2 = d)
  ∧ ((∃ b, out.1 = Updated b) → out = putOrder no_faults now actor orderId req d)
  ∧ (∀ its item,
       items req = Some its → item ∈ its →
       checkItemsChanged (default [] (originalItems req)) its = true →
       (stock_at d (productId item) = None
        ∨ ∃ p s, productId item = Some p ∧ stock_at d (Some p) = Some s
                 ∧ s + units_of p (stored_rows d orderId) < quantity item) →
       (∀ b, out.1 ≠ Updated b) ∧ out.2 = d)
  ∧ (ledger out.2 = ledger d
     ∨ ledger out.2
       = ledger d ++ net_rows now actor (orders d !! orderId ≫= client_id)
                       (net_change d (default [] (originalItems req))
                                   (default [] (items req)) orderId)).
Proof.
  intros out. subst out.
  destruct (putOrder_cases flt now actor orderId req d)
    as [(resp & -> & Hresp)|(b & d' & -> & Hfree & Hvalid & Hres)]; simpl.
  - split_and!; [done| |done|by left].
    intros [b Hb]. by destruct (Hresp b).
  - split_and!.
    + intros H. by destruct (H b).
    + by rewrite Hfree.
    + intros its item Hits Hin Hchanged Hbad. exfalso.
      unfold edit_result in Hres. rewrite Hits, Hchanged in Hres. simpl in Hres.
      assert (∃ e, place_items orderId its (cleared orderId req d) = inl e) as [e He].
      { destruct Hbad as [Hnone|(p & s & Hp & Hs & Hlt)].
        - apply (place_items_missing _ _ _ item); [done|].
          destruct (productId item) as [p|]; [|done].
          by rewrite stock_cleared, Hnone.
        - eapply (place_items_short _ _ _ item);
            [by eapply valid_edit_quantities|done| |exact Hlt].
          by rewrite Hp, stock_cleared, Hs. }
      by rewrite He in Hres.
    + apply edit_result_ledger in Hres. destruct b; [by right|left].
      by rewrite Hres, app_nil_r.
Qed.

(** The store fails the insert of the EUR row (statement 19 of the
    session): the error is swallowed, the MKD insert and the query of the
    total are refused, and the edit rolls back. *)
Lemma edit_is_all_or_nothing_witness :
  (putOrder (fault_at 19) 1700000900000 1 7 edit_A3_Phone shop).1
  = ServerError TransactionAborted
  ∧ (putOrder (fault_at 19) 1700000900000 1 7 edit_A3_Phone shop).2 = shop.
Proof.
  split; [vm_compute; reflexivity|].
  apply (proj1 (edit_is_all_or_nothing (fault_at 19) 1700000900000 1 7 edit_A3_Phone shop)).
  intros b. vm_compute. discriminate.
Defined.




(** The claim C4 as stated compares the new items with the rows the order
    stores.  It fails: the stored items sent back without [originalItems]
    count as all added, and a second debt row for them is appended. *)
Lemma resend_without_original_appends :
  new_pairs [item 2 1 500 "B"; item 1 2 1000 "A"] ≡ₚ stored_pairs (stored_rows shop 7)
  ∧ items resend_without_original = Some [item 2 1 500 "B"; item 1 2 1000 "A"]
  ∧ ledger (putOrder no_faults 1700000900000 1 7 resend_without_original shop).2
    = ledger shop
      ++ [ {| user_id := 42; adjustment_amount := -2500;
              adjustment_type := manual_reduction; currency := Some MKD;
              notes := Some "Items increased in order #7. Added: B (x1), A (x2)";
              created_by := 1; created_at := 1700000900000 |} ].
Proof.
  split_and!.
  - vm_compute. apply perm_swap.
  - reflexivity.
  - vm_compute. reflexivity.
Qed.

(** C4, amended: an edit whose new items are the request's [originalItems]
    (same product ids, same quantities, any order) appends no ledger row and
    leaves the stock and the stored rows alone; the status it carries is
    still applied.  Under faults it does that or fails without effect. *)
Theorem edit_same_items_is_noop flt now actor orderId req d o original its :
  valid_edit req = true → orders d !! orderId = Some o →
  items req = Some its → originalItems req = Some original →
  original_pairs original ≡ₚ new_pairs its → NoDup (new_key <$> its) →
  let d' := apply_status (new_status req) orderId d in
  putOrder no_faults now actor orderId req d = (Updated false, d')
  ∧ ledger d' = ledger d ∧ products d' = products d ∧ order_items d' = order_items d
  ∧ orders d' !! orderId
    = Some (match new_status req with Some st => with_status st o | None => o end)
  ∧ ((∃ e, putOrder flt now actor orderId req d = (ServerError e, d))
     ∨ putOrder flt now actor orderId req d = (Updated false, d')).
Proof.
  intros Hvalid Ho Hits Horig Hperm Hnd d'.
  assert (Hfree : putOrder no_faults now actor orderId req d = (Updated false, d')).
  { rewrite putOrder_fault_free, Hvalid, Ho. simpl. unfold edit_result.
    rewrite Hits, Horig. simpl. rewrite (checkItemsChanged_same _ _ Hperm Hnd). simpl.
    by rewrite apply_status_twice. }
  split_and!.
  - exact Hfree.
  - apply ledger_apply_status.
  - apply products_apply_status.
  - apply order_items_apply_status.
  - subst d'. destruct (new_status req) as [st|]; simpl; [|done].
    by rewrite lookup_alter, decide_True, Ho.
  - rewrite <- Hfree. apply putOrder_all_or_nothing.
Qed.

(** The stored items of order #7 sent back in the other order, with a
    status change. *)
Lemma edit_same_items_is_noop_witness :
  putOrder no_faults 1700000900000 1 7 resend_same shop
  = (Updated false, apply_status (Some completed) 7 shop).
Proof.
  refine (proj1
    (edit_same_items_is_noop no_faults 1700000900000 1 7 resend_same shop
       (client_order 42 pending 2500)
       [item 1 2 1000 "A"; item 2 1 500 "B"] [item 2 1 500 "B"; item 1 2 1000 "A"]
       _ _ _ _ _ _)).
  - reflexivity.
  - reflexivity.
  - reflexivity.
  - reflexivity.
  - apply perm_swap.
  - apply (bool_decide_unpack _). vm_compute. exact I.
Defined.

(** The claim C5 as stated fails on the amount: with a discount the row
    carries the discounted total the client sent, 90 EUR, not the total of
    the order's items, 100 EUR. *)
Lemma creation_row_carries_discounted_total :
  let out := createOrder 1700000000000 admin (order_phone_discount pending) stocked in
  out.1 = Created 1 9000
  ∧ items_total stocked EUR (c_items (order_phone_discount pending)) = 10000
  ∧ ledger out.2
    = [ {| user_id := 42; adjustment_amount := -9000;
           adjustment_type := manual_reduction; currency := Some EUR;
           notes := Some "Debt increase from pending order #1 (Discount: 10 EUR)";
           created_by := 1; created_at := 1700000000000 |} ].
Proof. vm_compute. done. Qed.

(** C5, amended: creation writes ledger rows only for an order created
    pending for a registered client, one per currency whose final total is
    positive, with amount minus that total; the final total of a currency
    is the total the request carries for it ([totalEur], [totalMkd]) when
    positive, otherwise the total of the order's items in that currency.
    Guest orders, orders created completed and refused requests write
    nothing. *)
Theorem creation_debt_rows now user req d :
  u_id user ≠ 0 →
  let out := createOrder now user req d in
  let client := default (u_id user) (requestedClientId req) in
  let finalEur := if decide (0 < totalEur req) then totalEur req
                  else items_total d EUR (c_items req) in
  let finalMkd := if decide (0 < totalMkd req) then totalMkd req
                  else items_total d MKD (c_items req) in
  (∀ orderId total, out.1 = Created orderId total →
     ledger out.2 =
       ledger d
       ++ if decide (guestName req = None ∧ default pending (c_status req) = pending)
          then
            (if decide (0 < finalEur) then
               [ {| user_id := client; adjustment_amount := - finalEur;
                    adjustment_type := manual_reduction; currency := Some EUR;
                    notes := Some (creation_note orderId req);
                    created_by := u_id user; created_at := now |} ]
             else [])
            ++ (if decide (0 < finalMkd) then
                  [ {| user_id := client; adjustment_amount := - finalMkd;
                       adjustment_type := manual_reduction; currency := Some MKD;
                       notes := Some (creation_note orderId req);
                       created_by := u_id user; created_at := now |} ]
                else [])
          else [])
  ∧ ((∀ orderId total, out.1 ≠ Created orderId total) → out.2 = d).
Proof.
  intros Huser out client finalEur finalMkd. subst out. unfold createOrder.
  destruct (negb (valid_create req)) eqn:Hvalid; [by split|].
  destruct (_ && _); [by split|]. destruct (_ && _); [by split|].
  destruct (validate_items d (c_items req) _) as [err|v] eqn:Hv.
  { split; [|done]. intros orderId total. simpl. intros ->.
    by destruct (validate_items_refusal _ _ _ _ Hv orderId total). }
  apply validate_items_totals in Hv as (He & Hm & _). simpl in He, Hm.
  split; [|intros H; by edestruct H].
  intros orderId total [= <- _]. simpl. rewrite ledger_create_items. simpl. f_equal.
  unfold creation_adjustments.
  assert (Hclient : ∀ c, valid_create req = true → requestedClientId req = Some c → c ≠ 0).
  { unfold valid_create. intros c Hval Hc. rewrite Hc in Hval.
    apply andb_true_iff in Hval as [Hval _]. apply andb_true_iff in Hval as [_ Hval].
    apply bool_decide_eq_true in Hval. lia. }
  apply negb_false_iff in Hvalid.
  destruct (guestName req) as [g|] eqn:Hg; simpl.
  { done. }
  assert (Htruthy : truthy (match requestedClientId req with
                            | Some c => Some c
                            | None => Some (u_id user)
                            end) = true).
  { destruct (requestedClientId req) as [c|] eqn:Hc; simpl.
    - rewrite bool_decide_false; [done|]. by apply Hclient.
    - by rewrite bool_decide_false. }
  rewrite Htruthy. simpl.
  destruct (default pending (c_status req)) eqn:Hst; simpl; try done.
  subst finalEur finalMkd client. rewrite He, Hm, !Z.add_0_l.
  assert (Hdef : default 0 (match requestedClientId req with
                            | Some c => Some c
                            | None => Some (u_id user)
                            end) = default (u_id user) (requestedClientId req))
    by (by destruct (requestedClientId req)).
  rewrite Hdef.
  f_equal; repeat case_bool_decide; repeat case_decide; try lia; done.
Qed.

(** The scenario of the specification: a pending client order of one
    smartphone at 100 EUR appends the single row {EUR, -100}. *)
Lemma creation_debt_rows_witness :
  ledger (createOrder 1700000000000 admin order_phone stocked).2
  = [ {| user_id := 42; adjustment_amount := -10000;
         adjustment_type := manual_reduction; currency := Some EUR;
         notes := Some "Debt increase from pending order #1";
         created_by := 1; created_at := 1700000000000 |} ].
Proof.
  assert (Hadmin : u_id admin ≠ 0) by (vm_compute; discriminate).
  rewrite (proj1 (creation_debt_rows 1700000000000 admin order_phone stocked Hadmin)
             1 10000).
  - vm_compute. reflexivity.
  - vm_compute. reflexivity.
Defined.

(** C6: deleting an order adds to the stock of each product the units the
    order's stored rows hold of it, leaves every other product as it was,
    and removes the order and its rows.  Under faults it does that or fails
    without effect. *)
Theorem delete_restores_stock flt orderId d o :
  orders d !! orderId = Some o →
  let rows := stored_rows d orderId in
  ∃ d', deleteOrder no_faults orderId d = (Deleted (length rows), d')
    ∧ (∀ p, products d' !! p = add_to_stock (units_of p rows) <$> products d !! p)
    ∧ (∀ p, (∀ r, r ∈ rows → product_id r ≠ p) → products d' !! p = products d !! p)
    ∧ orders d' = delete orderId (orders d)
    ∧ stored_rows d' orderId = []
    ∧ (∀ k, k ≠ orderId → stored_rows d' k = stored_rows d k)
    ∧ ledger d' = ledger d
    ∧ ((∃ e, deleteOrder flt orderId d = (DeleteFailed e, d))
       ∨ deleteOrder flt orderId d = (Deleted (length rows), d')).
Proof.
  intros Ho rows. exists (deleted orderId d).
  assert (Hfree : deleteOrder no_faults orderId d = (Deleted (length rows), deleted orderId d)).
  { unfold deleteOrder. pose proof (delete_body_run orderId d) as Hrun.
    rewrite Ho in Hrun. by rewrite (transaction_returns _ _ _ _ Hrun). }
  assert (Hstock : ∀ p, products (deleted orderId d) !! p
                        = add_to_stock (units_of p rows) <$> products d !! p).
  { intros p. unfold deleted. simpl. subst rows. by rewrite products_restore_rows. }
  split_and!.
  - exact Hfree.
  - exact Hstock.
  - intros p Hp. rewrite Hstock.
    assert (units_of p rows = 0) as ->.
    { unfold units_of. etrans; [|apply (sum_with_zero rows)]. apply sum_with_ext.
      intros r Hr. rewrite decide_False; [done|]. by apply Hp. }
    destruct (products d !! p); simpl; [by rewrite add_to_stock_0|done].
  - unfold deleted. simpl. by rewrite orders_restore_rows.
  - rewrite stored_rows_after_delete. by rewrite decide_True.
  - intros k Hk. rewrite stored_rows_after_delete. by rewrite decide_False.
  - unfold deleted. simpl. apply ledger_restore_rows.
  - rewrite <- Hfree. apply deleteOrder_all_or_nothing.
Qed.

(** The scenario of the specification: an order with 2 units of one
    product and 3 of another. *)
Lemma delete_restores_stock_witness :
  ∃ d', deleteOrder no_faults 9 shop_2_3 = (Deleted 2, d')
    ∧ stock_quantity <$> products d' !! 1 = Some (5 + 2)
    ∧ stock_quantity <$> products d' !! 3 = Some (5 + 3)
    ∧ products d' !! 2 = products shop_2_3 !! 2
    ∧ orders d' !! 9 = None ∧ stored_rows d' 9 = [].
Proof.
  destruct (delete_restores_stock no_faults 9 shop_2_3 (client_order 42 completed 8000)
              eq_refl) as (d' & Hrun & Hstock & Hother & Horders & Hrows & _).
  exists d'. split_and!.
  - exact Hrun.
  - rewrite Hstock. reflexivity.
  - rewrite Hstock. reflexivity.
  - apply Hother. intros r Hr. vm_compute in Hr.
    repeat (apply elem_of_cons in Hr as [->|Hr]; [discriminate|]).
    by apply elem_of_nil in Hr.
  - rewrite Horders. apply lookup_delete_eq.
  - exact Hrows.
Defined.




(** The claim C8 as stated fails: both routes take a completed order back
    to pending. *)
Lemma completed_order_reopened :
  status <$> orders shop_2_3 !! 9 = Some completed
  ∧ (putStatus 9 pending shop_2_3).1 = StatusUpdated pending
  ∧ status <$> orders (putStatus 9 pending shop_2_3).2 !! 9 = Some pending
  ∧ (putOrder no_faults 1700000900000 1 9 (status_only pending) shop_2_3).1 = Updated false
  ∧ status <$> orders (putOrder no_faults 1700000900000 1 9 (status_only pending)
                         shop_2_3).2 !! 9 = Some pending.
Proof. vm_compute. done. Qed.

(** C8, amended: the status route and the edit route set the status of an
    existing order to the requested value whenever it is pending or
    completed, whatever the current status; any other value is refused. *)
Theorem status_routes_set_requested now actor orderId st d o :
  orders d !! orderId = Some o →
  (accepted_status st = true →
     (putStatus orderId st d).1 = StatusUpdated st
     ∧ orders (putStatus orderId st d).2 !! orderId = Some (with_status st o)
     ∧ (putOrder no_faults now actor orderId (status_only st) d).1 = Updated false
     ∧ orders (putOrder no_faults now actor orderId (status_only st) d).2 !! orderId
       = Some (with_status st o))
  ∧ (accepted_status st = false →
     putStatus orderId st d = (StatusInvalid, d)
     ∧ ∀ flt, putOrder flt now actor orderId (status_only st) d = (BadRequest, d))
  ∧ (accepted_status st = true ↔ st = pending ∨ st = completed).
Proof.
  intros Ho. split_and!.
  - intros Hst.
    assert (Hnew : orders (update_status st orderId d).2 !! orderId = Some (with_status st o)).
    { simpl. by rewrite lookup_alter, decide_True, Ho. }
    unfold putStatus. rewrite putOrder_fault_free. unfold valid_edit, edit_result.
    simpl. rewrite Hst, Ho. simpl. done.
  - intros Hst. unfold putStatus, putOrder, valid_edit. simpl. by rewrite Hst.
  - unfold accepted_status. rewrite orb_true_iff, !bool_decide_eq_true. done.
Qed.

(** The pending order #7 is completed. *)
Lemma status_routes_set_requested_witness :
  orders (putStatus 7 completed shop).2 !! 7
  = Some (with_status completed (client_order 42 pending 2500)).
Proof.
  apply (proj1 (status_routes_set_requested 0 1 7 completed shop (client_order 42 pending 2500)
                  eq_refl)).
  reflexivity.
Defined.




(** The claim C10 as stated fails: a completed order charged 90 EUR after
    a discount counts for 100 EUR of revenue. *)
Lemma revenue_ignores_discount :
  let d := (createOrder 1700000000000 admin (order_phone_discount completed) stocked).2 in
  (total_amount <$> orders d !! 1) = Some 9000
  ∧ completed_totals d = 9000
  ∧ eurRevenue (getRevenue d) = 10000
  ∧ totalRevenue (getRevenue d) = 10000
  ∧ profileRevenue d 42 EUR = 10000
  ∧ totalRevenue (getRevenue d) ≠ completed_totals d.
Proof. vm_compute. split_and!; done. Qed.

(** C10, amended: the revenue of a currency is the sum, over the completed
    orders, of quantity times price of their stored items in the category
    of that currency; the ledger plays no part.  It is the sum of the
    charged totals when every completed order is charged its items' total. *)
Theorem revenue_is_completed_item_totals d :
  let rev := getRevenue d in
  (∀ c, (match c with EUR => eurRevenue rev | MKD => mkdRevenue rev end)
        = sum_with (fun kv => if is_completed kv.2 then order_total_in d c kv.1 else 0)
                   (map_to_list (orders d)))
  ∧ totalRevenue rev = eurRevenue rev + mkdRevenue rev
  ∧ (∀ u c, profileRevenue d u c
            = sum_with (fun kv => if bool_decide (client_id kv.2 = Some u) && is_completed kv.2
                                  then order_total_in d c kv.1 else 0)
                       (map_to_list (orders d)))
  ∧ (∀ f, getRevenue (set_ledger f d) = getRevenue d)
  ∧ ((∀ oi, oi ∈ order_items d → is_Some (products d !! product_id oi)) →
     (∀ k o, orders d !! k = Some o → status o = completed →
             total_amount o = order_items_total d k) →
     totalRevenue rev = completed_totals d).
Proof.
  intros rev. subst rev. unfold getRevenue. simpl. split_and!.
  - intros [|]; apply item_revenue_by_order.
  - done.
  - intros u c. apply item_revenue_by_order.
  - done.
  - intros Hfk Hcharged. rewrite !item_revenue_by_order, completed_totals_sum.
    rewrite <- sum_with_plus. apply sum_with_ext. intros [k o] Hko. simpl.
    apply elem_of_map_to_list in Hko.
    unfold is_completed. case_bool_decide as Hst; [|done].
    rewrite order_total_split by done. symmetry. by apply Hcharged.
Qed.

(** Order #9, completed and charged its items' total of 80. *)
Lemma revenue_is_completed_item_totals_witness :
  totalRevenue (getRevenue shop_2_3) = completed_totals shop_2_3.
Proof.
  apply (proj2 (proj2 (proj2 (proj2 (revenue_is_completed_item_totals shop_2_3))))).
  - intros oi Hoi. vm_compute in Hoi.
    repeat (apply elem_of_cons in Hoi as [->|Hoi]; [vm_compute; eauto|]).
    by apply elem_of_nil in Hoi.
  - intros k o Hko Hst. change (orders shop_2_3) with
      ({[ 9 := client_order 42 completed 8000 ]} : gmap Z Order) in Hko.
    apply lookup_singleton_Some in Hko as [<- <-]. vm_compute. reflexivity.
Defined.

(** * Further lemmas *)

(** ** The maps of the two helpers *)

Lemma elem_of_map_set_keys {V} (k : Key) (v : V) m x :
  x ∈ (map_set k v m).*1 ↔ x = k ∨ x ∈ m.*1.
Proof.
  induction m as [|[k' v'] m IH]; simpl.
  - rewrite list_elem_of_singleton, elem_of_nil. tauto.
  - case_decide as Hk; simpl.
    + subst k'. rewrite !elem_of_cons. tauto.
    + rewrite !elem_of_cons, IH. tauto.
Qed.

Lemma map_set_keys_nodup {V} (k : Key) (v : V) m :
  NoDup m.*1 → NoDup (map_set k v m).*1.
Proof.
  induction m as [|[k' v'] m IH]; simpl; intros Hnd.
  - apply NoDup_singleton.
  - apply NoDup_cons in Hnd as [Hk' Hnd]. case_decide as Hk; simpl.
    + subst k'. by apply NoDup_cons.
    + apply NoDup_cons. split; [|by apply IH].
      rewrite elem_of_map_set_keys. intros [?|?]; [congruence|done].
Qed.

Lemma build_map_keys_nodup {V} (key : Item → Key) (val : Item → V) its :
  NoDup (build_map key val its).*1.
Proof.
  unfold build_map.
  assert (Hgen : ∀ acc : list (Key * V), NoDup acc.*1 →
            NoDup (fold_left (fun m it => map_set (key it) (val it) m) its acc).*1).
  { induction its as [|it its IH]; intros acc Hacc; simpl; [done|].
    apply IH. by apply map_set_keys_nodup. }
  apply Hgen. apply NoDup_nil_2.
Qed.

Lemma map_get_Some_elem {V} (k : Key) (v : V) m : map_get k m = Some v → (k, v) ∈ m.
Proof.
  induction m as [|[k' v'] m IH]; simpl; [done|].
  case_decide as Hk.
  - intros [= ->]. subst k'. left.
  - intros H. right. by apply IH.
Qed.

Lemma map_get_map_set {V} (k k' : Key) (v : V) m :
  map_get k' (map_set k v m) = if decide (k' = k) then Some v else map_get k' m.
Proof.
  induction m as [|[k0 v0] m IH]; simpl.
  - by repeat case_decide.
  - destruct (decide (k = k0)) as [->|Hk]; simpl.
    + repeat case_decide; congruence.
    + rewrite IH. repeat case_decide; congruence.
Qed.

Lemma map_get_build_map_fmap {V W} (f : V → W) (key : Item → Key) (val : Item → V) its k :
  map_get k (build_map key (fun it => f (val it)) its)
  = f <$> map_get k (build_map key val its).
Proof.
  unfold build_map.
  assert (Hgen : ∀ (acc : list (Key * V)) (acc' : list (Key * W)),
            (∀ k, map_get k acc' = f <$> map_get k acc) →
            map_get k (fold_left (fun m it => map_set (key it) (f (val it)) m) its acc')
            = f <$> map_get k (fold_left (fun m it => map_set (key it) (val it) m) its acc)).
  { induction its as [|it its IH]; intros acc acc' Hacc; simpl; [apply Hacc|].
    apply IH. intros k0. rewrite !map_get_map_set. case_decide; [done|apply Hacc]. }
  by apply Hgen.
Qed.

Lemma existsb_false {A} (f : A → bool) l x : existsb f l = false → x ∈ l → f x = false.
Proof.
  induction l as [|y l IH]; simpl; intros H Hx; [by apply elem_of_nil in Hx|].
  apply orb_false_iff in H as [Hy Hl].
  apply elem_of_cons in Hx as [->|Hx]; [done|by apply IH].
Qed.

Lemma omap_none {A B} (f : A → option B) l : (∀ x, x ∈ l → f x = None) → omap f l = [].
Proof.
  induction l as [|x l IH]; intros H; simpl; [done|].
  rewrite (H x) by left. apply IH. intros y Hy. apply H. by right.
Qed.

(** [checkItemsChanged] answers "unchanged" exactly when the two lists have
    the same length and the two maps it builds agree on every key. *)
Lemma checkItemsChanged_maps originalItems newItems :
  checkItemsChanged originalItems newItems = false ↔
  length originalItems = length newItems
  ∧ ∀ k, map_get k (build_map original_key quantity originalItems)
         = map_get k (build_map new_key quantity newItems).
Proof.
  unfold checkItemsChanged.
  set (om := build_map original_key quantity originalItems).
  set (nm := build_map new_key quantity newItems).
  assert (Hom : NoDup om.*1) by apply build_map_keys_nodup.
  assert (Hnm : NoDup nm.*1) by apply build_map_keys_nodup.
  split.
  - case_bool_decide as Hlen; simpl; [|done].
    destruct (existsb _ om) eqn:E1; [done|].
    destruct (existsb _ nm) eqn:E2; [done|]. intros _. split; [done|]. intros k.
    destruct (map_get k om) as [q|] eqn:Hk.
    + apply map_get_Some_elem in Hk.
      pose proof (existsb_false _ _ _ E1 Hk) as H. simpl in H.
      destruct (map_get k nm) as [q'|]; [|done].
      apply negb_false_iff, bool_decide_eq_true in H. by subst.
    + destruct (map_get k nm) as [q'|] eqn:Hk'; [|done].
      apply map_get_Some_elem in Hk'.
      pose proof (existsb_false _ _ _ E2 Hk') as H. simpl in H. by rewrite Hk in H.
  - intros [Hlen Hmaps]. rewrite bool_decide_true by done. simpl.
    rewrite existsb_none.
    + rewrite existsb_none; [done|]. intros [k q] Hin.
      rewrite Hmaps, (map_get_elem k q); done.
    + intros [k q] Hin. rewrite <- Hmaps, (map_get_elem k q) by done.
      by rewrite bool_decide_true.
Qed.

Lemma map_get_quantities key its k :
  map_get k (build_map key quantity its)
  = mi_quantity <$> map_get k (build_map key map_item its).
Proof. apply (map_get_build_map_fmap mi_quantity key map_item). Qed.

Lemma unchanged_no_lines originalItems newItems :
  checkItemsChanged originalItems newItems = false →
  let om := originalMap_of originalItems in
  let nm := newMap_of newItems in
  addedItems_of om nm = [] ∧ removedItems_of om nm = []
  ∧ increases_of om nm = [] ∧ decreases_of om nm = [].
Proof.
  intros H. apply checkItemsChanged_maps in H as [_ Hmaps]. intros om nm.
  assert (Hq : ∀ k, mi_quantity <$> map_get k om = mi_quantity <$> map_get k nm).
  { intros k. unfold om, nm, originalMap_of, newMap_of.
    rewrite <- !map_get_quantities. apply Hmaps. }
  assert (Hom : NoDup om.*1) by apply build_map_keys_nodup.
  assert (Hnm : NoDup nm.*1) by apply build_map_keys_nodup.
  split_and!; apply omap_none; intros [k x] Hx.
  - specialize (Hq k). rewrite (map_get_elem k x nm) in Hq by done.
    by destruct (map_get k om).
  - specialize (Hq k). rewrite (map_get_elem k x om) in Hq by done.
    by destruct (map_get k nm).
  - specialize (Hq k). rewrite (map_get_elem k x nm) in Hq by done.
    destruct (map_get k om) as [y|]; [|done]. simpl in Hq.
    rewrite bool_decide_false; [done|]. injection Hq as Hq. lia.
  - specialize (Hq k). rewrite (map_get_elem k x om) in Hq by done.
    destruct (map_get k nm) as [y|]; [|done]. simpl in Hq.
    rewrite bool_decide_false; [done|]. injection Hq as Hq. lia.
Qed.

Lemma unchanged_net_change d originalItems newItems orderId :
  checkItemsChanged originalItems newItems = false →
  net_change d originalItems newItems orderId
  = {| eurNetChange := 0; mkdNetChange := 0;
       eurNote := "Order items updated"; mkdNote := "Order items updated" |}.
Proof.
  intros H. apply unchanged_no_lines in H as (Ha & Hr & Hi & Hd).
  unfold net_change, net_totals, net_note. cbv zeta.
  rewrite Ha, Hr, Hi, Hd. reflexivity.
Qed.

(** ** Swapping the two item sets *)

Lemma debt_decrease_swap d c om nm : debt_decrease d c nm om = debt_increase d c om nm.
Proof. reflexivity. Qed.

Lemma netChange_swap d c originalItems newItems :
  (∀ it, it ∈ originalItems ++ newItems → original_key it = new_key it) →
  netChange d c newItems originalItems = - netChange d c originalItems newItems.
Proof.
  intros Hk. unfold netChange, originalMap_of, newMap_of.
  rewrite (build_map_ext original_key new_key map_item newItems)
    by (intros it Hit; apply Hk, elem_of_app; by right).
  rewrite <- (build_map_ext original_key new_key map_item originalItems)
    by (intros it Hit; apply Hk, elem_of_app; by left).
  rewrite !debt_decrease_swap. lia.
Qed.

(** ** Balances over appended rows *)

Lemma currentBalance_app u c l1 l2 :
  currentBalance u c (l1 ++ l2) = currentBalance u c l1 + currentBalance u c l2.
Proof.
  unfold currentBalance, entries_of. rewrite filter_app, sum_amounts_app. lia.
Qed.

Lemma currentBalance_nil u c : currentBalance u c [] = 0.
Proof. done. Qed.

Lemma currentBalance_one u c a :
  currentBalance u c [a]
  = if decide (user_id a = u ∧ currency a = Some c) then - adjustment_amount a else 0.
Proof.
  unfold currentBalance, entries_of. rewrite filter_cons, filter_nil.
  case_decide; simpl; lia.
Qed.

Lemma currentBalance_net_rows u c now actor cl net :
  currentBalance u c (net_rows now actor cl net)
  = if truthy cl && bool_decide (default 0 cl = u)
    then match c with EUR => eurNetChange net | MKD => mkdNetChange net end
    else 0.
Proof.
  unfold net_rows. rewrite currentBalance_app.
  destruct (truthy cl); rewrite ?andb_false_r, ?andb_true_r; simpl; [|done].
  destruct (decide (eurNetChange net = 0)) as [He|He],
           (decide (mkdNetChange net = 0)) as [Hm|Hm];
    rewrite ?(bool_decide_true _ He), ?(bool_decide_false _ He),
            ?(bool_decide_true _ Hm), ?(bool_decide_false _ Hm); simpl;
    rewrite ?currentBalance_one; unfold currentBalance; simpl;
    case_bool_decide; destruct c; repeat case_decide; try lia;
    exfalso; intuition congruence.
Qed.

(** ** What an edit leaves alone *)

Lemma edit_result_frame now actor orderId req d b d' :
  edit_result now actor orderId req d = inr (b, d') →
  same_catalog d d'
  ∧ orders d' !! orderId ≫= client_id = orders d !! orderId ≫= client_id.
Proof.
  unfold edit_result.
  pose proof (client_apply_status (new_status req) orderId d) as Hcl. simpl in Hcl.
  destruct (items req) as [its|].
  2:{ intros [= <- <-]. split; [|done].
      apply same_catalog_products, products_apply_status. }
  destruct (negb _).
  { intros [= <- <-]. rewrite apply_status_twice. split; [|done].
    apply same_catalog_products, products_apply_status. }
  destruct (place_items orderId its (cleared orderId req d)) as [e|d4] eqn:Hplace; [done|].
  intros [= <- <-]. apply place_items_frame in Hplace as (_ & Ho & Hc). split.
  - eapply same_catalog_trans; [apply same_catalog_cleared|].
    eapply same_catalog_trans; [exact Hc|]. by apply same_catalog_products.
  - simpl. rewrite lookup_alter, decide_True by done. rewrite Ho.
    unfold cleared. simpl. rewrite orders_restore_rows.
    rewrite <- Hcl. by destruct (orders (apply_status _ _ _) !! orderId).
Qed.

(** ** The loop over the new items of an edit *)

Lemma fmap_minus_0 (x : option Z) : (fun s => s - 0) <$> x = x.
Proof. destruct x; simpl; [f_equal; lia|done]. Qed.

Lemma place_items_rows orderId its d d' :
  place_items orderId its d = inr d' →
  order_items d' = order_items d ++ edit_rows orderId its.
Proof.
  revert d. induction its as [|item rest IH]; intros d; simpl.
  - intros [= <-]. by rewrite app_nil_r.
  - destruct (stock_quantity <$> _) as [st|]; [|done].
    destruct (bool_decide (st < quantity item)); [done|].
    intros H. apply IH in H. rewrite H. simpl. by rewrite <- app_assoc.
Qed.

Lemma place_items_stock orderId its d d' p :
  place_items orderId its d = inr d' →
  stock_at d' (Some p) = (fun s => s - requested_units p its) <$> stock_at d (Some p).
Proof.
  unfold requested_units, sum_with.
  revert d. induction its as [|item rest IH]; intros d.
  - intros [= <-]. simpl. by rewrite fmap_minus_0.
  - cbn [place_items].
    change (select_stock (productId item) d).1 with (stock_at d (productId item)).
    destruct (stock_at d (productId item)) as [st|] eqn:Est; [|done].
    destruct (bool_decide (st < quantity item)); [done|].
    intros H. apply IH in H. rewrite H, stock_at_step. clear H IH.
    destruct (productId item) as [i|] eqn:Ei; [|done]. simpl.
    destruct (stock_at d (Some p)) as [s|]; simpl; [|done]. f_equal.
    repeat case_decide; simplify_eq; lia.
Qed.

Lemma place_items_in_hand orderId its d d' p s' :
  place_items orderId its d = inr d' →
  stock_at d' (Some p) = Some s' →
  Some p ∈ productId <$> its ∨ (∀ s, stock_at d (Some p) = Some s → 0 ≤ s) →
  0 ≤ s'.
Proof.
  revert d. induction its as [|item rest IH]; intros d.
  - intros [= <-] Hs [Hin|H]; [by apply elem_of_nil in Hin|by apply H].
  - cbn [place_items].
    change (select_stock (productId item) d).1 with (stock_at d (productId item)).
    destruct (stock_at d (productId item)) as [st|] eqn:Est; [|done].
    case_bool_decide as Hlow; [done|].
    intros Hrest Hs Hcases. eapply IH; [exact Hrest|exact Hs|].
    destruct (decide (Some p ∈ productId <$> rest)) as [Hin|Hout]; [by left|].
    right. intros s. rewrite stock_at_step.
    destruct (productId item) as [i|] eqn:Ei; [|done]. simpl.
    destruct (decide (i = p)) as [->|Hne].
    + rewrite Est. simpl. rewrite decide_True by done. intros [= <-]. lia.
    + destruct Hcases as [Hin|Hd].
      * rewrite fmap_cons, Ei in Hin. apply elem_of_cons in Hin as [?|Hin]; [congruence|done].
      * destruct (stock_at d (Some p)) as [s0|] eqn:Es0; simpl; [|done].
        rewrite decide_False by congruence. intros [= <-]. by apply Hd.
Qed.

Lemma stored_rows_edit_rows orderId its k :
  filter (fun oi => order_id oi = k) (edit_rows orderId its)
  = if decide (k = orderId) then edit_rows orderId its else [].
Proof.
  unfold edit_rows. induction its as [|it its IH].
  - by case_decide.
  - rewrite fmap_cons, filter_cons. cbn [order_id]. rewrite IH.
    destruct (decide (k = orderId)) as [->|Hk].
    + by rewrite decide_True.
    + by rewrite decide_False by congruence.
Qed.

Lemma stored_rows_without orderId rows k :
  filter (fun oi => order_id oi = k) (filter (fun oi => order_id oi ≠ orderId) rows)
  = if decide (k = orderId) then [] else filter (fun oi => order_id oi = k) rows.
Proof.
  rewrite list_filter_filter. case_decide as Hk.
  - subst k. apply filter_none. intros x _ [H1 H2]. done.
  - apply list_filter_iff. intros x. split; [tauto|]. intros Hx. split; [done|congruence].
Qed.

Lemma total_of_edit_rows orderId its :
  foldr (fun oi acc => oi_quantity oi * oi_price oi + acc) 0 (edit_rows orderId its)
  = request_total its.
Proof.
  unfold edit_rows, request_total, sum_with. induction its as [|it its IH]; [done|].
  rewrite fmap_cons. cbn [foldr oi_quantity oi_price]. by rewrite IH.
Qed.

Lemma items_total_edit_rows orderId its d :
  its ≠ [] → stored_rows d orderId = edit_rows orderId its →
  (select_items_total orderId d).1 = Some (request_total its).
Proof.
  intros Hne Hrows. unfold select_items_total. cbn [fst].
  fold (stored_rows d orderId). rewrite Hrows.
  destruct (edit_rows orderId its) as [|r rows] eqn:E.
  - apply fmap_nil_inv in E. done.
  - rewrite <- E. by rewrite total_of_edit_rows.
Qed.

Lemma units_of_nonneg p rows :
  (∀ r, r ∈ rows → 0 ≤ oi_quantity r) → 0 ≤ units_of p rows.
Proof.
  unfold units_of, sum_with. induction rows as [|r rows IH]; intros Hq; simpl; [done|].
  assert (0 ≤ oi_quantity r) by (apply Hq; left).
  assert (0 ≤ foldr (fun x acc => (if decide (product_id x = p) then oi_quantity x else 0) + acc)
                0 rows) by (apply IH; intros r' Hr'; apply Hq; by right).
  case_decide; lia.
Qed.

(** The tables after an edit that replaced the items. *)
Lemma edit_result_changed now actor orderId req d its d' :
  its ≠ [] → items req = Some its →
  edit_result now actor orderId req d = inr (true, d') →
  order_items d'
  = filter (fun oi => order_id oi ≠ orderId) (order_items d) ++ edit_rows orderId its
  ∧ (∀ p, stock_at d' (Some p)
          = (fun s => s + units_of p (stored_rows d orderId) - requested_units p its)
              <$> stock_at d (Some p))
  ∧ orders d'
    = alter (with_total (final_total req (Some (request_total its)))) orderId
            (orders (apply_status (new_status req) orderId d))
  ∧ (stock_in_hand d → (∀ r, r ∈ stored_rows d orderId → 0 ≤ oi_quantity r) →
     stock_in_hand d').
Proof.
  intros Hne Hits. unfold edit_result. rewrite Hits.
  destruct (negb _); [done|].
  destruct (place_items orderId its (cleared orderId req d)) as [e|d4] eqn:Hplace; [done|].
  intros [= <-].
  pose proof (place_items_rows _ _ _ _ Hplace) as Hrows.
  pose proof (place_items_frame _ _ _ _ Hplace) as (_ & Ho & _).
  assert (Hcl : order_items (cleared orderId req d)
                = filter (fun oi => order_id oi ≠ orderId) (order_items d)).
  { unfold cleared. simpl. by rewrite order_items_restore_rows, order_items_apply_status. }
  assert (Hstock : ∀ p, stock_at d4 (Some p)
            = (fun s => s + units_of p (stored_rows d orderId) - requested_units p its)
                <$> stock_at d (Some p)).
  { intros p. rewrite (place_items_stock _ _ _ _ p Hplace), stock_cleared.
    by destruct (stock_at d (Some p)). }
  split_and!.
  - simpl. by rewrite Hrows, Hcl.
  - exact Hstock.
  - simpl. f_equal.
    + f_equal. f_equal. apply items_total_edit_rows; [done|].
      unfold stored_rows. simpl. rewrite Hrows, Hcl.
      rewrite filter_app, stored_rows_without, stored_rows_edit_rows.
      by rewrite !decide_True.
    + rewrite Ho. unfold cleared. simpl. by rewrite orders_restore_rows.
  - intros Hd Hq p s' Hs'.
    change (stock_at d4 (Some p) = Some s') in Hs'.
    eapply (place_items_in_hand _ _ _ _ p s' Hplace Hs'). right.
    intros s. rewrite stock_cleared.
    destruct (stock_at d (Some p)) as [s0|] eqn:Es0; [|done]. intros [= <-].
    specialize (Hd p s0 Es0).
    pose proof (units_of_nonneg p _ Hq). lia.
Qed.

(** ** POST /orders : the validated items *)

Lemma validate_items_rows d its acc v orderId :
  validate_items d its acc = inr v →
  (fun x => {| order_id := orderId; product_id := v_productId x;
               oi_quantity := v_quantity x; oi_price := v_price x |}) <$> validatedItems v
  = ((fun x => {| order_id := orderId; product_id := v_productId x;
                  oi_quantity := v_quantity x; oi_price := v_price x |})
       <$> validatedItems acc)
    ++ creation_rows d orderId its.
Proof.
  unfold creation_rows.
  revert acc. induction its as [|it rest IH]; intros acc; simpl.
  - intros [= <-]. by rewrite app_nil_r.
  - destruct (productId it) as [i|]; simpl; [|done].
    destruct (products d !! i) as [p|]; simpl; [|done].
    destruct (bool_decide (stock_status p = disabled)); [done|].
    destruct (bool_decide (stock_quantity p < quantity it)); [done|].
    intros H. apply IH in H. rewrite H. clear H IH.
    destruct (decide (category p = smartphones)); simpl;
      rewrite fmap_app, <- app_assoc; done.
Qed.

Lemma sum_with_one {A} (f : A → Z) x : sum_with f [x] = f x.
Proof. unfold sum_with. simpl. lia. Qed.

Lemma requested_units_cons p it its :
  requested_units p (it :: its)
  = (if decide (productId it = Some p) then quantity it else 0) + requested_units p its.
Proof. done. Qed.

Lemma validate_items_units d its acc v p :
  validate_items d its acc = inr v →
  sum_with (fun x => if decide (v_productId x = p) then v_quantity x else 0) (validatedItems v)
  = sum_with (fun x => if decide (v_productId x = p) then v_quantity x else 0)
             (validatedItems acc)
    + requested_units p its.
Proof.
  revert acc. induction its as [|it rest IH]; intros acc.
  - intros [= <-]. unfold requested_units, sum_with. simpl. lia.
  - rewrite requested_units_cons. cbn [validate_items].
    destruct (productId it) as [i|] eqn:Ei; simpl; [|done].
    destruct (products d !! i) as [x|]; simpl; [|done].
    destruct (bool_decide (stock_status x = disabled)); [done|].
    destruct (bool_decide (stock_quantity x < quantity it)); [done|].
    intros H. apply IH in H. rewrite H. clear H IH.
    destruct (decide (category x = smartphones)); simpl;
      rewrite sum_with_app, sum_with_one; simpl;
      repeat case_decide; simplify_eq; lia.
Qed.

(** Every item of an accepted creation names an enabled product that has
    the quantity in stock. *)
Lemma validate_items_enough d its acc v :
  validate_items d its acc = inr v →
  ∀ it, it ∈ its →
    ∃ i x, productId it = Some i ∧ products d !! i = Some x
           ∧ stock_status x ≠ disabled ∧ quantity it ≤ stock_quantity x.
Proof.
  revert acc. induction its as [|hd rest IH]; intros acc; simpl.
  - intros _ it Hit. by apply elem_of_nil in Hit.
  - destruct (productId hd) as [i|] eqn:Ei; simpl; [|done].
    destruct (products d !! i) as [x|] eqn:Ex; simpl; [|done].
    case_bool_decide as Hdis; [done|].
    case_bool_decide as Hlow; [done|].
    intros H it Hit. apply elem_of_cons in Hit as [->|Hit].
    + exists i, x. split_and!; [done|done|done|lia].
    + by eapply IH.
Qed.

Lemma requested_units_absent p its :
  Some p ∉ productId <$> its → requested_units p its = 0.
Proof.
  unfold requested_units, sum_with. induction its as [|it its IH]; intros H; simpl; [done|].
  rewrite fmap_cons, not_elem_of_cons in H. destruct H as [H1 H2].
  rewrite decide_False by congruence. by rewrite IH.
Qed.

Lemma requested_within d its acc v p s :
  validate_items d its acc = inr v → NoDup (productId <$> its) →
  stock_at d (Some p) = Some s → 0 ≤ s → requested_units p its ≤ s.
Proof.
  intros Hv Hnd Hs Hs0.
  pose proof (validate_items_enough _ _ _ _ Hv) as Henough. clear Hv.
  induction its as [|it its IH].
  - unfold requested_units, sum_with. simpl. lia.
  - rewrite fmap_cons in Hnd. apply NoDup_cons in Hnd as [Hit Hnd].
    destruct (decide (productId it = Some p)) as [Hp|Hp].
    + rewrite Hp in Hit. apply requested_units_absent in Hit.
      destruct (Henough it) as (i & x & Hi & Hx & _ & Hq); [left|].
      unfold requested_units, sum_with in *. simpl. rewrite decide_True by done.
      rewrite Hit. rewrite Hp in Hi. injection Hi as <-.
      unfold stock_at, select_stock in Hs. simpl in Hs. rewrite Hx in Hs.
      injection Hs as <-. lia.
    + unfold requested_units, sum_with in *. simpl. rewrite decide_False by done.
      rewrite Z.add_0_l. apply IH; [done|]. intros it' Hit'. apply Henough. by right.
Qed.

Lemma create_items_rows orderId vs d :
  order_items (create_items orderId vs d)
  = order_items d
    ++ ((fun x => {| order_id := orderId; product_id := v_productId x;
                     oi_quantity := v_quantity x; oi_price := v_price x |}) <$> vs).
Proof.
  unfold create_items. revert d. induction vs as [|x vs IH]; intros d; simpl.
  - by rewrite app_nil_r.
  - rewrite IH. simpl. by rewrite <- app_assoc.
Qed.

Lemma create_items_orders orderId vs d : orders (create_items orderId vs d) = orders d.
Proof.
  unfold create_items. revert d. induction vs as [|x vs IH]; intros d; simpl; [done|].
  by rewrite IH.
Qed.

Lemma create_items_products orderId vs d p :
  products (create_items orderId vs d) !! p
  = add_to_stock
      (- sum_with (fun x => if decide (v_productId x = p) then v_quantity x else 0) vs)
    <$> products d !! p.
Proof.
  unfold create_items, sum_with.
  revert d. induction vs as [|x vs IH]; intros d; simpl.
  - destruct (products d !! p); simpl; [by rewrite add_to_stock_0|done].
  - rewrite IH. simpl. rewrite lookup_alter.
    destruct (decide (v_productId x = p)) as [->|Hne].
    + destruct (products d !! p); simpl; [|done]. rewrite add_to_stock_add.
      do 2 f_equal. lia.
    + done.
Qed.

(** ** Sums over the orders *)

Lemma totalPaid_sum d u :
  totalPaid d u
  = sum_with (fun kv => if bool_decide (client_id kv.2 = Some u) && is_completed kv.2
                        then total_amount kv.2 else 0)
             (map_to_list (orders d)).
Proof.
  unfold totalPaid, sum_with.
  induction (map_to_list (orders d)) as [|kv l IH]; simpl; [done|].
  rewrite IH. destruct (_ && _); lia.
Qed.

Lemma sum_with_alter (g : Order → Z) (f : Order → Order) k (m : gmap Z Order) o :
  m !! k = Some o →
  sum_with (fun kv => g kv.2) (map_to_list (alter f k m))
  = sum_with (fun kv => g kv.2) (map_to_list m) - g o + g (f o).
Proof.
  intros Hk.
  assert (Hm : m = <[k := o]> (delete k m)) by (by rewrite insert_delete_id).
  assert (Ha : alter f k m = <[k := f o]> (delete k m)).
  { apply map_eq. intros i. destruct (decide (k = i)) as [<-|Hne].
    - rewrite lookup_alter, decide_True by done.
      rewrite lookup_insert, decide_True by done. by rewrite Hk.
    - rewrite lookup_alter, decide_False by done.
      rewrite lookup_insert, decide_False by done. by rewrite lookup_delete_ne. }
  rewrite Ha. rewrite Hm at 2.
  rewrite (sum_with_perm _ _ _ (map_to_list_insert (delete k m) k (f o) (lookup_delete_eq _ _))).
  rewrite (sum_with_perm _ _ _ (map_to_list_insert (delete k m) k o (lookup_delete_eq _ _))).
  unfold sum_with. simpl. lia.
Qed.

(** ** Pages *)

Lemma ceil_div_gt a b page : 0 < b → (page < ceil_div a b ↔ page * b < a).
Proof.
  intros Hb. unfold ceil_div.
  pose proof (Z.div_mod (- a) b ltac:(lia)) as Hdm.
  pose proof (Z.mod_pos_bound (- a) b Hb) as Hmod.
  split; intros H; nia.
Qed.

Lemma length_page {A} (n m : nat) (l : list A) :
  length (take n (drop m l)) = Nat.min n (length l - m).
Proof. by rewrite length_take, length_drop. Qed.

Lemma length_log_page search limit offset rows :
  length (log_page search limit offset rows)
  = Nat.min (Z.to_nat limit) (length (matching_logs search rows) - Z.to_nat offset).
Proof.
  unfold log_page, matching_logs. rewrite length_page. f_equal. f_equal.
  apply Permutation_length, merge_sort_Permutation.
Qed.

(** ** Words of the notes *)

Lemma includes_here w rest : includes w (w +:+ rest) = true.
Proof.
  assert (H : String.prefix w (w +:+ rest) = true).
  { induction w as [|a w IH].
    - change ("" +:+ rest) with rest. by destruct rest.
    - change (String a w +:+ rest) with (String a (w +:+ rest)). cbn [String.prefix].
      destruct (Ascii.ascii_dec a a); [exact IH|done]. }
  destruct (w +:+ rest); cbn [includes]; by rewrite H.
Qed.

Lemma includes_later w a rest : includes w rest = true → includes w (a +:+ rest) = true.
Proof.
  intros H. induction a as [|c a IH]; [done|].
  change (String c a +:+ rest) with (String c (a +:+ rest)). cbn [includes].
  rewrite IH. apply orb_true_r.
Qed.

Lemma noteText_added addedItems removedItems quantityChanges orderId :
  addedItems ≠ [] →
  ∃ rest, noteText addedItems removedItems quantityChanges orderId
          = "Items increased" +:+ rest.
Proof.
  intros Hne. destruct addedItems as [|a l]; [done|]. unfold noteText.
  destruct removedItems as [|r rs], quantityChanges as [|q qs];
    cbn -[pretty times_text change_text]; eexists; reflexivity.
Qed.

Lemma mentions_increase text :
  notes_mention ["increased"; "Debt increase"; "Added"; "Increased"]
    (Some ("Items increased" +:+ text)) = true.
Proof.
  unfold notes_mention. rewrite bool_decide_false by done. simpl negb. cbn [andb existsb].
  change ("Items increased" +:+ text) with ("Items " +:+ ("increased" +:+ text)).
  rewrite (includes_later "increased" "Items " ("increased" +:+ text)); [done|].
  apply includes_here.
Qed.

Lemma mentions_debt_increase text :
  notes_mention ["increased"; "Debt increase"; "Added"; "Increased"]
    (Some ("Debt increase" +:+ text)) = true.
Proof.
  unfold notes_mention. rewrite bool_decide_false by done. simpl negb. cbn [andb existsb].
  rewrite (includes_here "Debt increase" text). apply orb_true_r.
Qed.

(** ** Cleaning the ledger *)

Lemma sum_amounts_split (P : Adjustment → Prop) `{∀ a, Decision (P a)} rows :
  sum_amounts rows
  = sum_amounts (filter P rows) + sum_amounts (filter (fun a => ¬ P a) rows).
Proof.
  unfold sum_amounts. induction rows as [|a rows IH]; simpl; [done|].
  rewrite !filter_cons. destruct (decide (P a)) as [Ha|Ha].
  - rewrite decide_False by tauto. simpl. lia.
  - rewrite decide_True by done. simpl. lia.
Qed.

Lemma entries_of_filter (P : Adjustment → Prop) `{∀ a, Decision (P a)} u c rows :
  entries_of u c (filter P rows) = filter P (entries_of u c rows).
Proof.
  unfold entries_of. rewrite !list_filter_filter. apply list_filter_iff. tauto.
Qed.

Lemma filter_filter_same {A} (P : A → Prop) `{∀ a, Decision (P a)} (l : list A) :
  filter P (filter P l) = filter P l.
Proof. rewrite list_filter_filter. apply list_filter_iff. tauto. Qed.

Lemma filter_filter_not {A} (P : A → Prop) `{∀ a, Decision (P a)} (l : list A) :
  filter P (filter (fun a => ¬ P a) l) = [].
Proof. apply filter_none. intros x Hx. apply list_elem_of_filter in Hx as [Hx _]. done. Qed.

Lemma filter_length_split {A} (P : A → Prop) `{∀ a, Decision (P a)} (l : list A) :
  (length (filter P l) + length (filter (fun a => ¬ P a) l) = length l)%nat.
Proof.
  induction l as [|a l IH]; simpl; [done|]. rewrite !filter_cons.
  destruct (decide (P a)) as [Ha|Ha].
  - rewrite decide_False by tauto. simpl. lia.
  - rewrite decide_True by done. simpl. lia.
Qed.

(** ** The figures of the invoice *)

Lemma fold_left_sum {A} (f : A → Z) l acc :
  fold_left (fun sum x => sum + f x) l acc = acc + sum_with f l.
Proof.
  unfold sum_with. revert acc. induction l as [|x l IH]; intros acc; simpl; [lia|].
  rewrite IH. lia.
Qed.

Lemma sum_with_filter {A} (P : A → Prop) `{∀ x, Decision (P x)} (f : A → Z) l :
  sum_with f (filter P l) = sum_with (fun x => if decide (P x) then f x else 0) l.
Proof.
  unfold sum_with. induction l as [|x l IH]; [done|].
  rewrite filter_cons. cbn [foldr]. destruct (decide (P x)); cbn [foldr]; rewrite IH; lia.
Qed.

Lemma invoice_rows_total d orderId :
  rows_total (filter (fun item => ir_category item = smartphones)
                     (select_invoice_items orderId d))
  = order_total_in d EUR orderId
  ∧ rows_total (filter (fun item => ir_category item ≠ smartphones)
                       (select_invoice_items orderId d))
    = order_total_in d MKD orderId.
Proof.
  unfold rows_total, order_total_in, stored_rows, select_invoice_items.
  rewrite !fold_left_sum, !Z.add_0_l, !sum_with_filter, !sum_with_omap.
  split; apply sum_with_ext; intros oi _;
    destruct (decide (order_id oi = orderId)); [|done| |done];
    destruct (products d !! product_id oi) as [p|]; simpl; [|done| |done];
    destruct (category p); simpl; repeat case_decide;
    first [lia | congruence | tauto].
Qed.

(** ** DELETE /users/:id *)

Lemma unpaid_count_pos u d :
  (0 < unpaid_count u d)%nat ↔
  ∃ k o, orders d !! k = Some o ∧ client_id o = Some u ∧ status o ≠ completed.
Proof.
  unfold unpaid_count. split.
  - intros H. destruct (filter _ _) as [|[k o] l] eqn:E; [simpl in H; lia|].
    assert (Hin : (k, o) ∈ filter (fun kv : Z * Order =>
                      client_id kv.2 = Some u ∧ status kv.2 ≠ completed)
                    (map_to_list (orders d))) by (rewrite E; left).
    apply list_elem_of_filter in Hin as [[? ?] Hin]. apply elem_of_map_to_list in Hin.
    by exists k, o.
  - intros (k & o & Hko & Hc & Hs).
    assert (Hin : (k, o) ∈ filter (fun kv : Z * Order =>
                      client_id kv.2 = Some u ∧ status kv.2 ≠ completed)
                    (map_to_list (orders d))).
    { apply list_elem_of_filter. split; [done|]. by apply elem_of_map_to_list. }
    destruct (filter _ _); [by apply elem_of_nil in Hin|simpl; lia].
Qed.

(** ** Lemmas on the two routes that edit and create *)

Lemma valid_edit_keys req its :
  valid_edit req = true → items req = Some its →
  its ≠ [] ∧ ∀ it, it ∈ its → original_key it = new_key it.
Proof.
  unfold valid_edit. intros Hv Hits. rewrite Hits in Hv.
  apply andb_true_iff in Hv as [_ Hv]. apply andb_true_iff in Hv as [Hne Hv].
  split.
  - intros ->. done.
  - rewrite forallb_forall in Hv. intros it Hit. apply list_elem_of_In in Hit.
    apply Hv in Hit. unfold valid_edit_item in Hit.
    unfold original_key, new_key, or_id. destruct (productId it) as [p|]; [|done].
    apply andb_true_iff in Hit as [Hit _]. apply andb_true_iff in Hit as [Hit _].
    apply bool_decide_eq_true in Hit. rewrite decide_False by lia. done.
Qed.

Lemma checkItemsChanged_swap a b :
  (∀ it, it ∈ a ++ b → original_key it = new_key it) →
  checkItemsChanged b a = checkItemsChanged a b.
Proof.
  intros Hk.
  assert (Ha : build_map original_key quantity a = build_map new_key quantity a)
    by (apply build_map_ext; intros it Hit; apply Hk, elem_of_app; by left).
  assert (Hb : build_map original_key quantity b = build_map new_key quantity b)
    by (apply build_map_ext; intros it Hit; apply Hk, elem_of_app; by right).
  destruct (checkItemsChanged a b) eqn:E1, (checkItemsChanged b a) eqn:E2; try done.
  - apply checkItemsChanged_maps in E2 as [Hl Hm].
    assert (checkItemsChanged a b = false); [|congruence].
    apply checkItemsChanged_maps. split; [done|]. intros k.
    rewrite Ha, <- Hb. symmetry. apply Hm.
  - apply checkItemsChanged_maps in E1 as [Hl Hm].
    assert (checkItemsChanged b a = false); [|congruence].
    apply checkItemsChanged_maps. split; [done|]. intros k.
    rewrite Hb, <- Ha. symmetry. apply Hm.
Qed.

Lemma edit_result_unchanged now actor orderId req d d' :
  edit_result now actor orderId req d = inr (false, d') →
  d' = apply_status (new_status req) orderId d.
Proof.
  unfold edit_result. destruct (items req) as [its|]; [|by intros [= <-]].
  destruct (negb _); [intros [= <-]; by rewrite apply_status_twice|].
  by destruct (place_items _ _ _).
Qed.

Lemma edit_result_items now actor orderId req d d' :
  edit_result now actor orderId req d = inr (true, d') → ∃ its, items req = Some its.
Proof.
  unfold edit_result. destruct (items req) as [its|]; [by exists its|done].
Qed.

Lemma profileDebt_ledger d d' u :
  (∀ c, currentBalance u c (ledger d') = currentBalance u c (ledger d)) →
  profileDebt d' u = profileDebt d u.
Proof.
  intros H. unfold profileDebt. rewrite !pick_sums_by_currency.
  pose proof (H EUR) as He. pose proof (H MKD) as Hm. unfold currentBalance in He, Hm.
  f_equal; lia.
Qed.

(** * Further properties of the routes *)


(** X2: whenever [checkItemsChanged] answers "unchanged",
    [calculateNetDebtChange] on the same two lists returns a zero net
    change in both currencies and the note "Order items updated". *)
Theorem unchanged_items_have_no_net_change d originalItems newItems orderId :
  checkItemsChanged originalItems newItems = false →
  returns (calculateNetDebtChange originalItems newItems orderId) d
    {| eurNetChange := 0; mkdNetChange := 0;
       eurNote := "Order items updated"; mkdNote := "Order items updated" |} d.
Proof.
  intros H. rewrite <- (unchanged_net_change d _ _ orderId H).
  apply calculateNetDebtChange_run.
Qed.

(** The stored items of order #7 in the other order. *)
Lemma unchanged_items_have_no_net_change_witness :
  returns (calculateNetDebtChange [item 1 2 1000 "A"; item 2 1 500 "B"]
                                  [item 2 1 500 "B"; item 1 2 1000 "A"] 7) shop
    {| eurNetChange := 0; mkdNetChange := 0;
       eurNote := "Order items updated"; mkdNote := "Order items updated" |} shop.
Proof.
  apply (unchanged_items_have_no_net_change shop
           [item 1 2 1000 "A"; item 2 1 500 "B"] [item 2 1 500 "B"; item 1 2 1000 "A"] 7).
  reflexivity.
Defined.

(** X4: an edit followed by the reverse edit (the items and the original
    items exchanged) leaves every debt the profile reports as it was before
    the first edit, whatever the stored rows, the stock and the statuses the
    two requests carry; the two edits take the same no-op decision. *)
Theorem edit_and_reverse_restore_debt
    flt1 flt2 now1 now2 actor1 actor2 orderId req1 req2 a b d b1 d1 b2 d2 :
  originalItems req1 = Some a → items req1 = Some b →
  originalItems req2 = Some b → items req2 = Some a →
  putOrder flt1 now1 actor1 orderId req1 d = (Updated b1, d1) →
  putOrder flt2 now2 actor2 orderId req2 d1 = (Updated b2, d2) →
  b1 = b2 ∧ ∀ u, profileDebt d2 u = profileDebt d u.
Proof.
  intros Ha1 Hb1 Hb2 Ha2 Hrun1 Hrun2.
  apply putOrder_updated in Hrun1 as (Hv1 & _ & Hres1).
  apply putOrder_updated in Hrun2 as (Hv2 & _ & Hres2).
  destruct (valid_edit_keys _ _ Hv1 Hb1) as [_ Hkb].
  destruct (valid_edit_keys _ _ Hv2 Ha2) as [_ Hka].
  assert (Hk : ∀ it, it ∈ a ++ b → original_key it = new_key it).
  { intros it Hit. apply elem_of_app in Hit as [?|?]; auto. }
  pose proof (edit_result_flag _ _ _ _ _ _ _ Hres1) as Hf1.
  pose proof (edit_result_flag _ _ _ _ _ _ _ Hres2) as Hf2.
  rewrite Hb1, Ha1 in Hf1. rewrite Ha2, Hb2 in Hf2. simpl in Hf1, Hf2.
  assert (Hb : b1 = b2) by (rewrite Hf1, Hf2; symmetry; by apply checkItemsChanged_swap).
  split; [done|]. intros u. apply profileDebt_ledger. intros c.
  destruct (edit_result_frame _ _ _ _ _ _ _ Hres1) as [Hcat Hcl].
  apply edit_result_ledger in Hres1, Hres2.
  rewrite Hres2, Hres1, Hcl, Ha1, Hb1, Ha2, Hb2. simpl.
  rewrite (net_change_catalog d d1) by done.
  rewrite <- Hb. destruct b1; [|by rewrite !app_nil_r].
  rewrite !currentBalance_app, !currentBalance_net_rows.
  destruct (truthy _ && _); [|lia].
  unfold net_change. simpl. rewrite !net_totals_netChange. simpl.
  destruct c; rewrite (netChange_swap d _ a b Hk); lia.
Qed.

(** The edit of the example on order #7, then the edit back. *)
Lemma edit_and_reverse_restore_debt_witness :
  profileDebt (putOrder no_faults 1700000950000 1 7 edit_back
                 (putOrder no_faults 1700000900000 1 7 edit_A3_C1 shop).2).2 42
  = profileDebt shop 42.
Proof.
  refine (proj2
    (edit_and_reverse_restore_debt no_faults no_faults 1700000900000 1700000950000 1 1 7
       edit_A3_C1 edit_back
       [item 1 2 1000 "A"; item 2 1 500 "B"] [item 1 3 1000 "A"; item 3 1 2000 "C"]
       shop true _ true _ _ _ _ _ _ _) 42).
  - reflexivity.
  - reflexivity.
  - reflexivity.
  - reflexivity.
  - vm_compute. reflexivity.
  - vm_compute. reflexivity.
Defined.

(** X5: an edit that replaces the items leaves, as the stored rows of the
    order, exactly the request's items in their order and at the prices the
    request gives; the rows of other orders are untouched.  The stock of
    every product rises by the units the order stored of it and falls by
    the units the request asks of it.  The order's total becomes the sum of
    quantity times price over the request's items, less the original
    discount (not below zero) when the request asks to preserve it. *)
Theorem edit_replaces_items flt now actor orderId req d its d' :
  items req = Some its →
  putOrder flt now actor orderId req d = (Updated true, d') →
  stored_rows d' orderId = edit_rows orderId its
  ∧ (∀ k, k ≠ orderId → stored_rows d' k = stored_rows d k)
  ∧ (∀ p, stock_at d' (Some p)
          = (fun s => s + units_of p (stored_rows d orderId) - requested_units p its)
              <$> stock_at d (Some p))
  ∧ total_amount <$> orders d' !! orderId
    = Some (if preserveDiscount req && bool_decide (0 < originalDiscount req)
            then Z.max 0 (request_total its - originalDiscount req)
            else request_total its).
Proof.
  intros Hits Hrun. apply putOrder_updated in Hrun as (Hv & [o Ho] & Hres).
  destruct (valid_edit_keys _ _ Hv Hits) as [Hne _].
  destruct (edit_result_changed _ _ _ _ _ _ _ Hne Hits Hres) as (Hrows & Hstock & Hord & _).
  split_and!.
  - unfold stored_rows. rewrite Hrows, filter_app, stored_rows_without, stored_rows_edit_rows.
    by rewrite !decide_True.
  - intros k Hk. unfold stored_rows.
    rewrite Hrows, filter_app, stored_rows_without, stored_rows_edit_rows.
    rewrite !decide_False by done. by rewrite app_nil_r.
  - exact Hstock.
  - rewrite Hord, lookup_alter, decide_True by done.
    assert (is_Some (orders (apply_status (new_status req) orderId d) !! orderId)) as [o' ->].
    { destruct (new_status req) as [s|]; simpl; [|by rewrite Ho].
      rewrite lookup_alter, decide_True, Ho by done. by eexists. }
    done.
Qed.

(** The edit of the example: order #7 stores A x3 and C x1, is charged 50,
    and the stock of A, B and C goes from 5, 5, 5 to 4, 6, 4. *)
Lemma edit_replaces_items_witness :
  let d' := (putOrder no_faults 1700000900000 1 7 edit_A3_C1 shop).2 in
  stored_rows d' 7 = [ {| order_id := 7; product_id := 1; oi_quantity := 3; oi_price := 1000 |};
                       {| order_id := 7; product_id := 3; oi_quantity := 1; oi_price := 2000 |} ]
  ∧ stock_at d' (Some 1) = Some 4 ∧ stock_at d' (Some 2) = Some 6
  ∧ stock_at d' (Some 3) = Some 4
  ∧ total_amount <$> orders d' !! 7 = Some 5000.
Proof.
  intros d'.
  destruct (edit_replaces_items no_faults 1700000900000 1 7 edit_A3_C1 shop
              [item 1 3 1000 "A"; item 3 1 2000 "C"] d' eq_refl)
    as (Hrows & _ & Hstock & Htotal).
  { vm_compute. reflexivity. }
  split_and!.
  - rewrite Hrows. reflexivity.
  - rewrite Hstock. reflexivity.
  - rewrite Hstock. reflexivity.
  - rewrite Hstock. reflexivity.
  - rewrite Htotal. reflexivity.
Defined.

(** X6: the edit route never leaves a product with a negative stock: if no
    stock is negative and the order's stored rows hold no negative quantity,
    then after the request, whatever its response and whichever statements
    the store fails, no stock is negative. *)
Theorem edit_keeps_stock_in_hand flt now actor orderId req d :
  stock_in_hand d →
  (∀ r, r ∈ stored_rows d orderId → 0 ≤ oi_quantity r) →
  stock_in_hand (putOrder flt now actor orderId req d).2.
Proof.
  intros Hd Hq.
  destruct (putOrder_cases flt now actor orderId req d)
    as [(resp & -> & _)|(b & d' & -> & _ & Hv & Hres)]; [done|]. simpl.
  destruct b.
  - destruct (edit_result_items _ _ _ _ _ _ Hres) as [its Hits].
    destruct (valid_edit_keys _ _ Hv Hits) as [Hne _].
    destruct (edit_result_changed _ _ _ _ _ _ _ Hne Hits Hres) as (_ & _ & _ & H).
    by apply H.
  - apply edit_result_unchanged in Hres. subst d'.
    intros p s. unfold stock_at, select_stock. simpl. rewrite products_apply_status.
    apply Hd.
Qed.

(** The edit of the example asks for 3 A out of 5 + 2. *)
Lemma edit_keeps_stock_in_hand_witness :
  stock_in_hand (putOrder no_faults 1700000900000 1 7 edit_A3_C1 shop).2.
Proof.
  apply (edit_keeps_stock_in_hand no_faults 1700000900000 1 7 edit_A3_C1 shop).
  - intros p s. unfold stock_at, select_stock. simpl. unfold catalog.
    rewrite !lookup_insert. repeat case_decide; simpl; rewrite ?lookup_empty; simpl;
      intros Hs; simplify_eq; lia.
  - intros r Hr. vm_compute in Hr.
    repeat (apply elem_of_cons in Hr as [->|Hr]; [simpl; lia|]).
    by apply elem_of_nil in Hr.
Defined.

(** ** POST /orders, taken apart *)

Lemma createOrder_created now user req d orderId total d' :
  createOrder now user req d = (Created orderId total, d') →
  ∃ v,
    validate_items d (c_items req)
      {| totalAmount := 0; eurPendingTotal := 0; mkdPendingTotal := 0;
         validatedItems := [] |} = inr v
    ∧ (isAdmin user = false → requestedClientId req = None ∧ guestName req = None)
    ∧ orderId = next_order_id d
    ∧ total = (if bool_decide (0 < totalEur req) then totalEur req else eurPendingTotal v)
              + (if bool_decide (0 < totalMkd req) then totalMkd req else mkdPendingTotal v)
    ∧ d' = set_ledger
             (fun l => l ++ creation_adjustments now user req
                             (bool_decide (is_Some (guestName req)))
                             (creation_client user req)
                             (default pending (c_status req)) orderId v)
             (create_items orderId (validatedItems v)
                (insert_order
                   {| client_id := creation_client user req; guest_name := guestName req;
                      status := default pending (c_status req);
                      original_status := default pending (c_status req);
                      total_amount := total; discount_amount := discount req;
                      discount_currency := default EUR (discountCurrency req);
                      original_total := totalAmount v |} d).2).
Proof.
  unfold createOrder, creation_client.
  destruct (negb (valid_create req)); [done|].
  destruct (bool_decide (is_Some (requestedClientId req)) && negb (isAdmin user)) eqn:E1;
    [done|].
  destruct (bool_decide (is_Some (guestName req)) && negb (isAdmin user)) eqn:E2; [done|].
  destruct (validate_items d (c_items req) _) as [err|v] eqn:Hv.
  { intros [= -> _]. by destruct (validate_items_refusal _ _ _ _ Hv orderId total). }
  simpl. intros [= <- <- <-]. exists v. split_and!; try done.
  intros Hadmin. rewrite Hadmin in E1, E2. simpl in E1, E2.
  rewrite andb_true_r in E1, E2. apply bool_decide_eq_false in E1, E2.
  split.
  - destruct (requestedClientId req); [|done]. exfalso. apply E1. by eexists.
  - destruct (guestName req); [|done]. exfalso. apply E2. by eexists.
Qed.

Lemma creation_adjustments_rows now user req guest clientId st orderId v adj :
  adj ∈ creation_adjustments now user req guest clientId st orderId v →
  adjustment_type adj = manual_reduction
  ∧ adjustment_amount adj < 0
  ∧ notes adj = Some (creation_note orderId req).
Proof.
  unfold creation_adjustments. destruct (_ && _); [|by intros ?%elem_of_nil].
  intros Hin. apply elem_of_app in Hin as [Hin|Hin];
    case_bool_decide; try (by apply elem_of_nil in Hin);
    apply list_elem_of_singleton in Hin as ->; simpl; split_and!; try done; lia.
Qed.

Lemma net_rows_rows now actor clientId net adj :
  adj ∈ net_rows now actor clientId net →
  adjustment_type adj = manual_reduction
  ∧ (notes adj = Some (eurNote net) ∨ notes adj = Some (mkdNote net)).
Proof.
  unfold net_rows. intros Hin. apply elem_of_app in Hin as [Hin|Hin];
    destruct (_ && _); try (by apply elem_of_nil in Hin);
    apply list_elem_of_singleton in Hin as ->; simpl; auto.
Qed.

Lemma create_items_next_id orderId vs d :
  next_order_id (create_items orderId vs d) = next_order_id d.
Proof.
  unfold create_items. revert d. induction vs as [|x vs IH]; intros d; simpl; [done|].
  by rewrite IH.
Qed.

Lemma creation_rows_length d orderId its :
  (∀ it, it ∈ its → ∃ i x, productId it = Some i ∧ products d !! i = Some x) →
  length (creation_rows d orderId its) = length its.
Proof.
  unfold creation_rows. induction its as [|it its IH]; intros Hen; [done|]. simpl.
  destruct (Hen it) as (i & x & -> & Hx); [left|]. simpl. rewrite Hx. simpl.
  f_equal. apply IH. intros it' Hit'. apply Hen. by right.
Qed.

Lemma createOrder_stock now user req d orderId total d' p :
  createOrder now user req d = (Created orderId total, d') →
  stock_at d' (Some p)
  = (fun s => s - requested_units p (c_items req)) <$> stock_at d (Some p).
Proof.
  intros Hrun. apply createOrder_created in Hrun as (v & Hv & _ & -> & _ & ->).
  unfold stock_at, select_stock. simpl.
  rewrite create_items_products. simpl.
  rewrite (validate_items_units _ _ _ _ p Hv). simpl.
  destruct (products d !! p) as [x|]; simpl; [|done]. f_equal; try lia.
Qed.

Lemma createOrder_refused now user req d resp d' :
  createOrder now user req d = (resp, d') →
  (∃ orderId total, resp = Created orderId total) ∨ d' = d.
Proof.
  unfold createOrder.
  destruct (negb (valid_create req)); [intros [= _ <-]; by right|].
  destruct (_ && _); [intros [= _ <-]; by right|].
  destruct (_ && _); [intros [= _ <-]; by right|].
  destruct (validate_items d (c_items req) _) as [err|v]; [intros [= _ <-]; by right|].
  simpl. intros [= <- _]. left. by eexists _, _.
Qed.

(** X7: an accepted creation takes the next order id, stores the order with
    the client the request is for (the caller itself unless an admin names
    another client or a guest), and stores one row per item of the request
    at the product's current price: the price an item of the request
    carries is not read.  The stock of every product falls by the units the
    request asks of it, summed over the items that name it. *)
Theorem creation_stores_catalogue_prices now user req d orderId total d' :
  createOrder now user req d = (Created orderId total, d') →
  orderId = next_order_id d
  ∧ next_order_id d' = orderId + 1
  ∧ order_items d' = order_items d ++ creation_rows d orderId (c_items req)
  ∧ length (creation_rows d orderId (c_items req)) = length (c_items req)
  ∧ (∀ p, stock_at d' (Some p)
          = (fun s => s - requested_units p (c_items req)) <$> stock_at d (Some p))
  ∧ (∃ o, orders d' = <[orderId := o]> (orders d)
          ∧ client_id o = creation_client user req
          ∧ status o = default pending (c_status req)
          ∧ total_amount o = total
          ∧ original_total o
            = items_total d EUR (c_items req) + items_total d MKD (c_items req))
  ∧ (isAdmin user = false → creation_client user req = Some (u_id user)).
Proof.
  intros Hrun. pose proof Hrun as Hrun0.
  apply createOrder_created in Hrun as (v & Hv & Hadmin & -> & Htotal & ->).
  pose proof (validate_items_rows _ _ _ _ (next_order_id d) Hv) as Hrows. simpl in Hrows.
  split_and!.
  - done.
  - simpl. by rewrite create_items_next_id.
  - simpl. by rewrite create_items_rows, Hrows.
  - apply creation_rows_length. intros it Hit.
    destruct (validate_items_enough _ _ _ _ Hv it Hit) as (i & x & ? & ? & _).
    by exists i, x.
  - intros p. by eapply createOrder_stock.
  - eexists. split; [simpl; rewrite create_items_orders; reflexivity|]. simpl.
    split_and!; try done.
    apply validate_items_totals in Hv as (_ & _ & Ht). simpl in Ht. lia.
  - intros Ha. destruct (Hadmin Ha) as [Hc Hg]. unfold creation_client.
    rewrite Hc, Hg. rewrite bool_decide_false; [done|]. by intros [? ?].
Qed.

(** The admin's request carries the price 0 for the phone; the stored row
    has its list price, 100 EUR. *)
Lemma creation_stores_catalogue_prices_witness :
  let d' := (createOrder 1700000000000 admin order_phone stocked).2 in
  price <$> c_items order_phone = [0]
  ∧ order_items d' = [ {| order_id := 1; product_id := 4; oi_quantity := 1;
                          oi_price := 10000 |} ]
  ∧ stock_at d' (Some 4) = Some 2.
Proof.
  intros d'.
  destruct (creation_stores_catalogue_prices 1700000000000 admin order_phone stocked
              1 10000 d') as (_ & _ & Hrows & _ & Hstock & _).
  { vm_compute. reflexivity. }
  split_and!.
  - reflexivity.
  - rewrite Hrows. reflexivity.
  - rewrite Hstock. reflexivity.
Defined.

(** X8: a creation whose items name each product once never leaves a
    product with a negative stock, whatever its response; each item is
    checked against the stock before any stock is taken. *)
Theorem creation_keeps_stock_in_hand now user req d :
  stock_in_hand d → NoDup (productId <$> c_items req) →
  stock_in_hand (createOrder now user req d).2.
Proof.
  intros Hd Hnd.
  destruct (createOrder now user req d) as [resp d'] eqn:Hrun. simpl.
  destruct (createOrder_refused _ _ _ _ _ _ Hrun) as [(orderId & total & ->)| ->]; [|done].
  intros p s'. rewrite (createOrder_stock _ _ _ _ _ _ _ p Hrun).
  apply createOrder_created in Hrun as (v & Hv & _).
  destruct (stock_at d (Some p)) as [s|] eqn:Hs; [|done]. intros [= <-].
  pose proof (Hd p s Hs).
  pose proof (requested_within _ _ _ _ p s Hv Hnd Hs). lia.
Qed.

(** One phone out of three. *)
Lemma creation_keeps_stock_in_hand_witness :
  stock_in_hand (createOrder 1700000000000 admin order_phone stocked).2.
Proof.
  apply (creation_keeps_stock_in_hand 1700000000000 admin order_phone stocked).
  - intros p s. unfold stock_at, select_stock. simpl. unfold catalog.
    rewrite !lookup_insert. repeat case_decide; simpl; rewrite ?lookup_empty; simpl;
      intros Hs; simplify_eq; lia.
  - apply (bool_decide_unpack _). vm_compute. exact I.
Defined.

(** ** Rows the debt log reads as increases *)

Lemma history_of_increase rows adj :
  notes_mention ["increased"; "Debt increase"; "Added"; "Increased"] (notes adj) = true →
  debt_after (with_history rows adj)
  = debt_before (with_history rows adj) + Z.abs (adjustment_amount adj).
Proof.
  intros H. unfold with_history, debtAfter. simpl. rewrite H. unfold debtBefore. lia.
Qed.

Lemma creation_note_words orderId req :
  ∃ text, creation_note orderId req = "Debt increase" +:+ text.
Proof. unfold creation_note. eexists. reflexivity. Qed.

(** X9: every ledger row appended by an edit that adds a product the
    original items did not have is read by the debt log as an increase: its
    "debt after" is its "debt before" plus the absolute value of its amount,
    also for a row whose amount is positive because the edit lowered the
    debt of that currency.  The note of such an edit starts with "Items
    increased". *)
Theorem edit_that_adds_logs_as_increase flt now actor orderId req d d' :
  putOrder flt now actor orderId req d = (Updated true, d') →
  addedItems_of (originalMap_of (default [] (originalItems req)))
                (newMap_of (default [] (items req))) ≠ [] →
  ∃ new, ledger d' = ledger d ++ new
    ∧ ∀ adj, adj ∈ new →
        ∀ rows, debt_after (with_history rows adj)
                = debt_before (with_history rows adj) + Z.abs (adjustment_amount adj).
Proof.
  intros Hrun Hadded. apply putOrder_updated in Hrun as (_ & _ & Hres).
  apply edit_result_ledger in Hres. eexists. split; [exact Hres|].
  intros adj Hadj rows. apply history_of_increase.
  apply net_rows_rows in Hadj as [_ Hnote]. unfold net_change in Hnote. simpl in Hnote.
  destruct (noteText_added _ (removedItems_of (originalMap_of (default [] (originalItems req)))
                                (newMap_of (default [] (items req))))
              (increases_of (originalMap_of (default [] (originalItems req)))
                            (newMap_of (default [] (items req)))
               ++ decreases_of (originalMap_of (default [] (originalItems req)))
                               (newMap_of (default [] (items req))))
              orderId Hadded) as [text Htext].
  unfold net_note in Hnote. rewrite Htext in Hnote.
  destruct Hnote as [-> | ->]; apply mentions_increase.
Qed.

(** Order #5 swaps its phone for one A: the EUR row is a reduction of
    100 EUR, and the log shows the EUR debt going from 100 to 200. *)
Lemma edit_that_adds_logs_as_increase_witness :
  ∃ eur mkd,
    ledger (putOrder no_faults 1700000900000 1 5 edit_phone_for_A shop_phone).2
    = ledger shop_phone ++ [eur; mkd]
    ∧ adjustment_amount eur = 10000 ∧ currency eur = Some EUR
    ∧ debt_before (with_history (ledger shop_phone) eur) = 10000
    ∧ debt_after (with_history (ledger shop_phone) eur) = 20000.
Proof.
  destruct (edit_that_adds_logs_as_increase no_faults 1700000900000 1 5 edit_phone_for_A
              shop_phone (putOrder no_faults 1700000900000 1 5 edit_phone_for_A shop_phone).2)
    as (new & Hnew & Hlog).
  { vm_compute. reflexivity. }
  { vm_compute. discriminate. }
  vm_compute in Hnew. injection Hnew as <-.
  eexists _, _. split; [vm_compute; reflexivity|].
  split; [reflexivity|]. split; [reflexivity|]. split; [vm_compute; reflexivity|].
  rewrite Hlog; [vm_compute; reflexivity|left].
Defined.

(** X10: every ledger row written at the creation of an order has a
    negative amount and is read by the debt log as an increase: its "debt
    after" is its "debt before" plus the total it records. *)
Theorem creation_rows_log_as_increase now user req d orderId total d' :
  createOrder now user req d = (Created orderId total, d') →
  ∃ new, ledger d' = ledger d ++ new
    ∧ ∀ adj, adj ∈ new →
        adjustment_amount adj < 0
        ∧ ∀ rows, debt_after (with_history rows adj)
                  = debt_before (with_history rows adj) - adjustment_amount adj.
Proof.
  intros Hrun. apply createOrder_created in Hrun as (v & _ & _ & _ & _ & ->).
  eexists. split.
  { simpl. rewrite ledger_create_items. simpl. reflexivity. }
  intros adj Hadj. apply creation_adjustments_rows in Hadj as (_ & Hneg & Hnote).
  split; [done|]. intros rows. rewrite history_of_increase; [lia|].
  rewrite Hnote. destruct (creation_note_words orderId req) as [text ->].
  apply mentions_debt_increase.
Qed.

(** The pending phone order of client 42. *)
Lemma creation_rows_log_as_increase_witness :
  ∃ adj, ledger (createOrder 1700000000000 admin order_phone stocked).2 = [adj]
    ∧ adjustment_amount adj = -10000
    ∧ debt_before (with_history [] adj) = 0
    ∧ debt_after (with_history [] adj) = 10000.
Proof.
  destruct (creation_rows_log_as_increase 1700000000000 admin order_phone stocked 1 10000
              (createOrder 1700000000000 admin order_phone stocked).2)
    as (new & Hnew & Hlog).
  { vm_compute. reflexivity. }
  vm_compute in Hnew. subst new.
  eexists. split; [vm_compute; reflexivity|]. split; [reflexivity|].
  split; [vm_compute; reflexivity|].
  match goal with |- debt_after (with_history _ ?a) = _ =>
    destruct (Hlog a) as [_ ->]; [left|vm_compute; reflexivity] end.
Defined.

(** ** PUT /users/:id/debt *)

Lemma putDebt_updated flt now actor users id req d u amount ty cur d' :
  putDebt flt now actor users id req d = (DebtUpdated u amount ty cur, d') →
  id = Some u ∧ 0 < u ∧ is_Some (users !! u) ∧ debt req = Given amount
  ∧ ty = manual_reduction
  ∧ cur = match debt_currency req with Given c => Some c | _ => None end
  ∧ d' = if flt 1%nat then d
         else set_ledger
                (fun l => l ++ [ {| user_id := u; adjustment_amount := amount;
                                    adjustment_type := manual_reduction; currency := cur;
                                    notes := or_str (debt_notes req) None;
                                    created_by := u_id actor; created_at := now |} ]) d.
Proof.
  unfold putDebt. destruct (valid_debt req) eqn:Hv; simpl; [|done].
  destruct id as [userId|]; [|done].
  case_bool_decide as Hpos; [done|].
  destruct (flt 0%nat); [done|].
  destruct (users !! userId) as [acc|] eqn:Hu; [|done].
  intros [= <- <- <- <- <-].
  unfold valid_debt in Hv. apply andb_true_iff in Hv as [Hv Hty].
  apply andb_true_iff in Hv as [Hdebt _].
  destruct (debt req) as [|z|]; try done.
  assert (Hred : match debt_adjustment_type req with
                 | Given t => t
                 | _ => manual_reduction
                 end = manual_reduction).
  { by destruct (debt_adjustment_type req) as [|[|]|]. }
  rewrite Hred. split_and!; try done; lia.
Qed.

(** X11: the route accepts a debt adjustment (answers 200) exactly when
    the request passes the validators, the id is positive, the query of
    the user succeeds and finds the user; it answers 200 whether or not the
    insert then succeeds.  An accepted adjustment has the type
    manual_reduction.  When its insert succeeds the ledger gains exactly
    that one row, and the debt the profile reports for that user in the
    row's currency falls by the amount sent (rises, for a negative amount);
    the other currency and every other user are untouched, and a row
    without a currency changes no debt the profile reports.  When the
    insert fails nothing is stored, and no other response stores
    anything. *)
Theorem manual_adjustment_moves_debt flt now actor users id req d :
  let out := putDebt flt now actor users id req d in
  let cur := match debt_currency req with Given c => Some c | _ => None end in
  (∀ u amount,
     out.1 = DebtUpdated u amount manual_reduction cur
     ↔ valid_debt req = true ∧ debt req = Given amount ∧ id = Some u ∧ 0 < u
       ∧ flt 0%nat = false ∧ is_Some (users !! u))
  ∧ (∀ u amount ty c,
       out.1 = DebtUpdated u amount ty c →
       ty = manual_reduction ∧ c = cur
       ∧ (flt 1%nat = true → out.2 = d)
       ∧ (flt 1%nat = false →
            ledger out.2
            = ledger d
              ++ [ {| user_id := u; adjustment_amount := amount;
                      adjustment_type := manual_reduction; currency := cur;
                      notes := or_str (debt_notes req) None;
                      created_by := u_id actor; created_at := now |} ]
            ∧ ∀ v,
                eurDebt (profileDebt out.2 v)
                = eurDebt (profileDebt d v)
                  - (if decide (v = u ∧ cur = Some EUR) then amount else 0)
                ∧ mkdDebt (profileDebt out.2 v)
                  = mkdDebt (profileDebt d v)
                    - (if decide (v = u ∧ cur = Some MKD) then amount else 0))
       ∧ (cur = None → ∀ v, profileDebt out.2 v = profileDebt d v))
  ∧ ((∀ u amount ty c, out.1 ≠ DebtUpdated u amount ty c) → out.2 = d).
Proof.
  intros out cur.
  assert (Hrun : putDebt flt now actor users id req d = out) by done.
  clearbody out. destruct out as [resp d']. simpl. split_and!.
  - intros u amount. split.
    + intros ->. pose proof Hrun as Hrun'.
      apply putDebt_updated in Hrun' as (Hid & Hu & Hex & Hdebt & _).
      unfold putDebt in Hrun. destruct (valid_debt req); [|done]. simpl in Hrun.
      rewrite Hid in Hrun. rewrite bool_decide_false in Hrun by lia.
      split_and!; try done. by destruct (flt 0%nat).
    + intros (Hv & Hdebt & -> & Hu & Hflt & [acc Hacc]). unfold putDebt in Hrun.
      rewrite Hv in Hrun. simpl in Hrun. rewrite bool_decide_false in Hrun by lia.
      rewrite Hflt, Hacc, Hdebt in Hrun. injection Hrun as <- _. f_equal.
      unfold valid_debt in Hv. apply andb_true_iff in Hv as [_ Hty].
      by destruct (debt_adjustment_type req) as [|[|]|].
  - intros u amount ty c ->.
    apply putDebt_updated in Hrun as (_ & Hu & Hex & _ & -> & -> & ->).
    fold cur. split_and!; try done.
    + by intros ->.
    + intros ->. split; [done|]. intros v.
      match goal with |- context [set_ledger ?f d] =>
        destruct (profileDebt_balance (set_ledger f d) v) as (-> & -> & _) end.
      destruct (profileDebt_balance d v) as (-> & -> & _).
      cbn [ledger set_ledger]. rewrite !currentBalance_app, !currentBalance_one. simpl.
      split.
      * destruct (decide (v = u ∧ cur = Some EUR)) as [[-> Hc]|Hn].
        -- rewrite decide_True by done. lia.
        -- rewrite decide_False by (intros [? ?]; by apply Hn). lia.
      * destruct (decide (v = u ∧ cur = Some MKD)) as [[-> Hc]|Hn].
        -- rewrite decide_True by done. lia.
        -- rewrite decide_False by (intros [? ?]; by apply Hn). lia.
    + intros Hnone v. destruct (flt 1%nat); [done|].
      apply profileDebt_ledger. intros c. cbn [ledger set_ledger].
      rewrite currentBalance_app, currentBalance_one. simpl.
      rewrite Hnone. rewrite decide_False; [lia|]. by intros [_ ?].
  - intros Hno. unfold putDebt in Hrun.
    destruct (negb (valid_debt req)); [by injection Hrun|].
    destruct id as [userId|]; [|by injection Hrun].
    destruct (bool_decide (userId ≤ 0)); [by injection Hrun|].
    destruct (flt 0%nat); [by injection Hrun|].
    destruct (users !! userId); [|by injection Hrun].
    injection Hrun as <- _. by destruct (Hno _ _ _ _ eq_refl).
Qed.

(** Client 42 owes 100 EUR and pays 140: the profile reports -40.  When
    the store fails the insert, the answer is the same 200 and the debt
    stays. *)
Lemma manual_adjustment_moves_debt_witness :
  let before := {| products := ∅; orders := ∅; next_order_id := 1; order_items := [];
                   ledger := take 1 credit_ledger |} in
  let after := (putDebt no_faults 1700000600000 admin accounts (Some 42) pay_140_eur
                  before).2 in
  eurDebt (profileDebt before 42) = 10000
  ∧ eurDebt (profileDebt after 42) = 10000 - 14000
  ∧ ledger after = credit_ledger
  ∧ putDebt (fault_at 1) 1700000600000 admin accounts (Some 42) pay_140_eur before
    = (DebtUpdated 42 14000 manual_reduction (Some EUR), before).
Proof.
  intros before after.
  destruct (manual_adjustment_moves_debt no_faults 1700000600000 admin accounts (Some 42)
              pay_140_eur before) as (_ & Hok & _).
  destruct (Hok 42 14000 manual_reduction (Some EUR)) as (_ & _ & _ & Hstored & _).
  { vm_compute. reflexivity. }
  destruct (Hstored eq_refl) as [Hledger Hdebt].
  assert (Hbefore : eurDebt (profileDebt before 42) = 10000) by (vm_compute; reflexivity).
  destruct (manual_adjustment_moves_debt (fault_at 1) 1700000600000 admin accounts (Some 42)
              pay_140_eur before) as (Hresp & Hfail & _).
  split_and!.
  - exact Hbefore.
  - destruct (Hdebt 42) as [He _]. unfold after. rewrite He, Hbefore.
    rewrite decide_True by done. done.
  - unfold after. rewrite Hledger. reflexivity.
  - apply injective_projections.
    + apply (Hresp 42 14000). split_and!; try reflexivity; try lia. by eexists.
    + destruct (Hfail 42 14000 manual_reduction (Some EUR)) as (_ & _ & Hsame & _).
      * apply (Hresp 42 14000). split_and!; try reflexivity; try lia. by eexists.
      * apply Hsame. reflexivity.
Defined.

(** ** DELETE /users/debt-logs/cleanup *)

(** X12: the cleanup deletes exactly the manual_reduction rows created
    before the cutoff and reports their number.  Since the debts are sums
    over the ledger, the debt the profile reports for a user and currency
    changes by the sum of the deleted entries of that pair: the debt of an
    order older than the cutoff is forgotten with its row.  A second cleanup
    with the same cutoff deletes nothing; a cleanup whose query fails
    changes nothing. *)
Theorem cleanup_forgets_old_entries cutoff d :
  let out := cleanupDebtLogs no_faults cutoff d in
  let gone := filter (old_log cutoff) (ledger d) in
  out.1 = CleanupDone (length gone)
  ∧ ledger out.2 = filter (fun a => ¬ old_log cutoff a) (ledger d)
  ∧ (length (ledger out.2) + length gone = length (ledger d))%nat
  ∧ (∀ u, eurDebt (profileDebt out.2 u)
          = eurDebt (profileDebt d u) + sum_amounts (entries_of u EUR gone)
          ∧ mkdDebt (profileDebt out.2 u)
            = mkdDebt (profileDebt d u) + sum_amounts (entries_of u MKD gone))
  ∧ cleanupDebtLogs no_faults cutoff out.2 = (CleanupDone 0, out.2)
  ∧ (∀ flt, flt 0%nat = true → cleanupDebtLogs flt cutoff d = (CleanupFailed, d)).
Proof.
  intros out gone. subst out gone. unfold cleanupDebtLogs. simpl. split_and!.
  - done.
  - done.
  - pose proof (filter_length_split (old_log cutoff) (ledger d)). lia.
  - intros u.
    destruct (profileDebt_balance
                (set_ledger (filter (fun a => ¬ old_log cutoff a)) d) u) as (-> & -> & _).
    destruct (profileDebt_balance d u) as (-> & -> & _).
    unfold currentBalance. cbn [ledger set_ledger].
    rewrite !entries_of_filter.
    rewrite (sum_amounts_split (old_log cutoff) (entries_of u EUR (ledger d))).
    rewrite (sum_amounts_split (old_log cutoff) (entries_of u MKD (ledger d))).
    lia.
  - rewrite filter_filter_not. simpl. f_equal.
    destruct d. unfold set_ledger. simpl. f_equal.
    rewrite list_filter_filter. apply list_filter_iff. tauto.
  - intros flt ->. done.
Qed.

(** ** What the routes write *)

Lemma only_reductions_app l1 l2 :
  only_reductions l1 → only_reductions l2 → only_reductions (l1 ++ l2).
Proof. unfold only_reductions. intros. by apply Forall_app. Qed.

Lemma only_reductions_filter (P : Adjustment → Prop) `{∀ a, Decision (P a)} l :
  only_reductions l → only_reductions (filter P l).
Proof.
  unfold only_reductions. rewrite !Forall_forall. intros Hl a Ha.
  apply list_elem_of_filter in Ha as [_ Ha]. by apply Hl.
Qed.

(** X13: no route writes a ledger row of another type than
    manual_reduction.  If every row of the ledger has that type, so has
    every row after a creation, an edit, a deletion, a status change, a
    manual adjustment or a cleanup, whatever the response and whichever
    statements the store fails.  On such a ledger the type condition of the
    debt log and of the cleanup selects every row: the log lists the debts
    of orders along with the payments, and the cleanup deletes every row
    older than the cutoff. *)
Theorem routes_write_only_reductions d :
  only_reductions (ledger d) →
  (∀ now user req, only_reductions (ledger (createOrder now user req d).2))
  ∧ (∀ flt now actor orderId req,
       only_reductions (ledger (putOrder flt now actor orderId req d).2))
  ∧ (∀ flt orderId, only_reductions (ledger (deleteOrder flt orderId d).2))
  ∧ (∀ orderId st, only_reductions (ledger (putStatus orderId st d).2))
  ∧ (∀ flt now actor users id req,
       only_reductions (ledger (putDebt flt now actor users id req d).2))
  ∧ (∀ flt cutoff, only_reductions (ledger (cleanupDebtLogs flt cutoff d).2))
  ∧ matching_logs (fun _ => true) (ledger d) = ledger d
  ∧ (∀ cutoff, ledger (cleanupDebtLogs no_faults cutoff d).2
               = filter (fun a => cutoff ≤ created_at a) (ledger d)).
Proof.
  intros Hd. split_and!.
  - intros now user req.
    destruct (createOrder now user req d) as [resp d'] eqn:Hrun. simpl.
    destruct (createOrder_refused _ _ _ _ _ _ Hrun) as [(orderId & total & ->)| ->]; [|done].
    apply createOrder_created in Hrun as (v & _ & _ & _ & _ & ->). simpl.
    rewrite ledger_create_items. simpl. apply only_reductions_app; [done|].
    apply Forall_forall. intros adj Hadj.
    by apply creation_adjustments_rows in Hadj as [? _].
  - intros flt now actor orderId req.
    destruct (putOrder_cases flt now actor orderId req d)
      as [(resp & -> & _)|(b & d' & -> & _ & _ & Hres)]; [done|]. simpl.
    apply edit_result_ledger in Hres. rewrite Hres.
    apply only_reductions_app; [done|]. destruct b; [|constructor].
    apply Forall_forall. intros adj Hadj. by apply net_rows_rows in Hadj as [? _].
  - intros flt orderId.
    destruct (deleteOrder_all_or_nothing flt orderId d) as [[e ->]| ->]; [done|].
    unfold deleteOrder. pose proof (delete_body_run orderId d) as Hrun.
    rewrite (transaction_returns _ _ _ _ Hrun).
    destruct (orders d !! orderId); [|done]. simpl.
    unfold deleted. simpl. by rewrite ledger_restore_rows.
  - intros orderId st. unfold putStatus.
    destruct (negb _); [done|]. by destruct (orders d !! orderId).
  - intros flt now actor users id req.
    destruct (putDebt flt now actor users id req d) as [resp d'] eqn:Hrun. simpl.
    destruct resp as [| | |u amount ty cur|].
    4:{ apply putDebt_updated in Hrun as (_ & _ & _ & _ & _ & _ & ->).
        destruct (flt 1%nat); [done|]. simpl. apply only_reductions_app; [done|].
        by repeat constructor. }
    all: unfold putDebt in Hrun; destruct (negb _); [by simplify_eq|];
      destruct id as [userId|]; [|by simplify_eq];
      destruct (bool_decide _); [by simplify_eq|];
      destruct (flt 0%nat); [by simplify_eq|];
      destruct (users !! userId); by simplify_eq.
  - intros flt cutoff. unfold cleanupDebtLogs. destruct (flt 0%nat); [done|]. simpl.
    by apply only_reductions_filter.
  - unfold matching_logs. unfold only_reductions in Hd. rewrite Forall_forall in Hd.
    induction (ledger d) as [|a l IH]; [done|].
    rewrite filter_cons, decide_True by (split; [apply Hd; left|done]).
    f_equal. apply IH. intros x Hx. apply Hd. by right.
  - intros cutoff. unfold cleanupDebtLogs. simpl.
    unfold only_reductions in Hd. rewrite Forall_forall in Hd.
    apply filter_ext_in. intros a Ha. unfold old_log. specialize (Hd a Ha).
    split; [intros H; destruct (decide (cutoff ≤ created_at a)); [done|]; exfalso; apply H;
            split; [done|lia] | intros H [_ ?]; lia].
Qed.

(** The ledger of the shop after the edit of the example. *)
Lemma routes_write_only_reductions_witness :
  only_reductions (ledger (putOrder no_faults 1700000900000 1 7 edit_A3_C1 shop).2).
Proof.
  assert (Hshop : only_reductions (ledger shop)) by (repeat constructor).
  apply (proj1 (proj2 (routes_write_only_reductions shop Hshop))).
Defined.

(** ** The pages of the debt log *)

Lemma debtLogs_page search page limit d :
  1 ≤ page → 1 ≤ limit ≤ 100 →
  debtLogs search (Some page) (Some limit) d
  = Some (with_history (ledger d) <$> log_page search limit ((page - 1) * limit) (ledger d)).
Proof.
  intros Hp Hl. unfold debtLogs, int_or. rewrite !decide_False by lia. cbv zeta.
  rewrite !bool_decide_false by lia. done.
Qed.

Lemma length_debt_page search page limit rows :
  1 ≤ page → 1 ≤ limit →
  Z.of_nat (length (log_page search limit ((page - 1) * limit) rows))
  = Z.min limit (Z.max 0 (Z.of_nat (length (matching_logs search rows))
                          - (page - 1) * limit)).
Proof.
  intros Hp Hl. rewrite length_log_page.
  assert (0 ≤ (page - 1) * limit) by nia.
  generalize dependent ((page - 1) * limit). intros offset Ho. lia.
Qed.

(** X14: the pagination block of the debt log.  A page holds
    min(limit, records left from its offset) rows, never more than 100;
    [hasNextPage] is true exactly when the next page holds at least one
    row, [hasPreviousPage] exactly when the page is not the first, and a
    page past [totalPages] is empty. *)
Theorem debt_log_pagination search page limit d pg :
  debtLogsPagination search page limit d = Some pg →
  1 ≤ currentPage pg ∧ 1 ≤ recordsPerPage pg ≤ 100
  ∧ totalRecords pg = Z.of_nat (length (matching_logs search (ledger d)))
  ∧ ∃ logs,
      debtLogs search page limit d = Some logs
      ∧ Z.of_nat (length logs)
        = Z.min (recordsPerPage pg)
                (Z.max 0 (totalRecords pg - (currentPage pg - 1) * recordsPerPage pg))
      ∧ (hasNextPage pg = true ↔
         ∃ log more, debtLogs search (Some (currentPage pg + 1))
                       (Some (recordsPerPage pg)) d = Some (log :: more))
      ∧ (hasPreviousPage pg = true ↔ 1 < currentPage pg)
      ∧ (totalPages pg < currentPage pg → logs = []).
Proof.
  unfold debtLogsPagination. cbv zeta.
  set (p := int_or 1 page). set (l := int_or 50 limit).
  destruct (bool_decide (p < 1) || bool_decide (l < 1) || bool_decide (100 < l)) eqn:Hguard;
    [done|].
  apply orb_false_iff in Hguard as [Hguard H100].
  apply orb_false_iff in Hguard as [Hp Hl].
  apply bool_decide_eq_false in Hp, Hl, H100.
  intros [= <-]. simpl. split_and!; try lia.
  exists (with_history (ledger d) <$> log_page search l ((p - 1) * l) (ledger d)).
  split.
  { unfold debtLogs. cbv zeta. fold p l. by rewrite !bool_decide_false by lia. }
  set (total := Z.of_nat (length (matching_logs search (ledger d)))).
  assert (Htotal : 0 ≤ total) by (subst total; lia).
  split_and!.
  - rewrite length_fmap. apply length_debt_page; lia.
  - rewrite bool_decide_eq_true, ceil_div_gt by lia.
    rewrite debtLogs_page by lia.
    pose proof (length_debt_page search (p + 1) l (ledger d) ltac:(lia) ltac:(lia)) as Hlen.
    fold total in Hlen. replace (p + 1 - 1) with p in * by lia.
    split.
    + intros Hlt.
      destruct (log_page search l (p * l) (ledger d)) as [|a rest] eqn:E.
      * simpl in Hlen. lia.
      * simpl. by eexists _, _.
    + intros (log & more & Hnext). injection Hnext as Hnext.
      destruct (log_page search l (p * l) (ledger d)) as [|a rest]; [done|].
      simpl in Hlen. lia.
  - by rewrite bool_decide_eq_true.
  - intros Hpast. apply nil_length_inv. rewrite length_fmap.
    pose proof (length_debt_page search p l (ledger d) ltac:(lia) ltac:(lia)) as Hlen.
    fold total in Hlen.
    assert (¬ (p - 1 < ceil_div total l)) as Hno by lia.
    rewrite ceil_div_gt in Hno by lia. lia.
Qed.

(** Seven rows, three to a page: the second page holds three rows and has
    a next page, which is the last. *)
Lemma debt_log_pagination_witness :
  ∃ pg logs,
    debtLogsPagination (fun _ => true) (Some 2) (Some 3) seven_db = Some pg
    ∧ debtLogs (fun _ => true) (Some 2) (Some 3) seven_db = Some logs
    ∧ totalRecords pg = 7 ∧ totalPages pg = 3 ∧ length logs = 3%nat
    ∧ hasNextPage pg = true.
Proof.
  destruct (debt_log_pagination (fun _ => true) (Some 2) (Some 3) seven_db
              {| currentPage := 2; totalPages := 3; totalRecords := 7; recordsPerPage := 3;
                 hasNextPage := true; hasPreviousPage := true |})
    as (_ & _ & _ & logs & Hlogs & Hlen & _).
  { vm_compute. reflexivity. }
  eexists _, logs. split_and!; [vm_compute; reflexivity|exact Hlogs|reflexivity..| |reflexivity].
  simpl in Hlen. lia.
Defined.

(** ** The figures of the invoice *)

(** X15: the invoice is made only for an existing order of which a stored
    item names an existing product, and for a caller who is an admin or the
    order's client.  Its total per currency is the sum of quantity times
    price over the order's stored items of that currency's category, the
    amount the revenue counts for the order.  The discount it applies is
    the stored one when that is not zero, else what the items' total
    exceeds the charged total by.  A discount that is not negative is
    deducted from the EUR total and from the MKD total alike: on an order
    with items in both currencies the two totals shown add up to the items'
    total less twice the discount, and on an order in one currency the
    total shown is the charged total exactly when the discount applied is
    the items' total less the charged total. *)
Theorem invoice_figures user orderId d f :
  invoice user orderId d = InvoicePdf f →
  ∃ o, orders d !! orderId = Some o
    ∧ (isAdmin user = true ∨ client_id o = Some (u_id user))
    ∧ (∃ oi, oi ∈ stored_rows d orderId ∧ is_Some (products d !! product_id oi))
    ∧ eurTotal f = order_total_in d EUR orderId
    ∧ mkdTotal f = order_total_in d MKD orderId
    ∧ actualDiscount f
      = (if decide (discount_amount o = 0)
         then Z.max 0 (eurTotal f + mkdTotal f - total_amount o)
         else discount_amount o)
    ∧ (0 ≤ actualDiscount f →
       displayEurTotal f
       = (if decide (0 < eurTotal f) then Some (eurTotal f - actualDiscount f) else None)
       ∧ displayMkdTotal f
         = (if decide (0 < mkdTotal f) then Some (mkdTotal f - actualDiscount f) else None))
    ∧ (0 ≤ actualDiscount f → 0 < eurTotal f → 0 < mkdTotal f →
       ∃ eur mkd, displayEurTotal f = Some eur ∧ displayMkdTotal f = Some mkd
                  ∧ eur + mkd = eurTotal f + mkdTotal f - 2 * actualDiscount f)
    ∧ (0 ≤ actualDiscount f → 0 < eurTotal f → mkdTotal f = 0 →
       displayMkdTotal f = None
       ∧ (displayEurTotal f = Some (total_amount o)
          ↔ actualDiscount f = eurTotal f - total_amount o))
    ∧ (0 ≤ actualDiscount f → 0 < mkdTotal f → eurTotal f = 0 →
       displayEurTotal f = None
       ∧ (displayMkdTotal f = Some (total_amount o)
          ↔ actualDiscount f = mkdTotal f - total_amount o)).
Proof.
  unfold invoice. destruct (orders d !! orderId) as [o|]; [|done].
  destruct (negb (isAdmin user) && negb (bool_decide (client_id o = Some (u_id user))))
    eqn:Hacc; [done|].
  destruct (empty (select_invoice_items orderId d)) eqn:Hrows; [done|].
  destruct (invoice_rows_total d orderId) as [-> ->].
  set (e := order_total_in d EUR orderId). set (m := order_total_in d MKD orderId).
  intros [= <-]. exists o. cbn [eurTotal mkdTotal actualDiscount displayEurTotal displayMkdTotal].
  set (disc := if decide (discount_amount o = 0)
               then if decide (total_amount o < e + m) then e + m - total_amount o else 0
               else discount_amount o).
  assert (Hdisc : disc = if decide (discount_amount o = 0)
                         then Z.max 0 (e + m - total_amount o) else discount_amount o)
    by (subst disc; repeat case_decide; lia).
  assert (Hshown : 0 ≤ disc →
            (if decide (0 < e)
             then Some (if decide (0 < disc ∧ 0 < e) then e - disc else e) else None)
            = (if decide (0 < e) then Some (e - disc) else None)
            ∧ (if decide (0 < m)
               then Some (if decide (0 < disc ∧ 0 < m) then m - disc else m) else None)
              = (if decide (0 < m) then Some (m - disc) else None)).
  { intros Hd. split; repeat case_decide; first [done | f_equal; lia]. }
  clearbody disc e m.
  split_and!; try done.
  - apply andb_false_iff in Hacc as [H|H]; apply negb_false_iff in H; [by left|].
    right. by apply bool_decide_eq_true in H.
  - unfold empty in Hrows. apply bool_decide_eq_false in Hrows.
    destruct (select_invoice_items orderId d) as [|r rows] eqn:Hsel; [done|].
    assert (Hr : r ∈ select_invoice_items orderId d) by (rewrite Hsel; left).
    unfold select_invoice_items in Hr. apply list_elem_of_omap in Hr as (oi & Hoi & Hr).
    destruct (decide (order_id oi = orderId)) as [Hid|]; [|done].
    exists oi. split.
    + unfold stored_rows. by apply list_elem_of_filter.
    + destruct (products d !! product_id oi); [by eexists|done].
  - intros Hd He Hm. destruct (Hshown Hd) as [-> ->].
    rewrite !decide_True by done. exists (e - disc), (m - disc). split_and!; [done|done|lia].
  - intros Hd He Hm. destruct (Hshown Hd) as [-> ->].
    rewrite (decide_True (P := 0 < e)) by done.
    rewrite (decide_False (P := 0 < m)) by lia. split; [done|].
    split; [intros [= H]; lia | intros ->; f_equal; lia].
  - intros Hd Hm He. destruct (Hshown Hd) as [-> ->].
    rewrite (decide_True (P := 0 < m)) by done.
    rewrite (decide_False (P := 0 < e)) by lia. split; [done|].
    split; [intros [= H]; lia | intros ->; f_equal; lia].
Qed.

(** Order #3, a phone at 100 EUR and two A at 10 MKD with a discount of 10:
    the invoice shows 90 EUR and 10 MKD. *)
Lemma invoice_figures_witness :
  ∃ f, invoice admin 3 mixed_db = InvoicePdf f
    ∧ eurTotal f = 10000 ∧ mkdTotal f = 2000 ∧ actualDiscount f = 1000
    ∧ displayEurTotal f = Some 9000 ∧ displayMkdTotal f = Some 1000.
Proof.
  eexists. split; [vm_compute; reflexivity|].
  match goal with |- eurTotal ?f = _ ∧ _ =>
    destruct (invoice_figures admin 3 mixed_db f)
      as (o & _ & _ & _ & _ & _ & _ & Hshown & _)
  end.
  { vm_compute. reflexivity. }
  split; [reflexivity|]. split; [reflexivity|]. split; [reflexivity|].
  apply Hshown. vm_compute. discriminate.
Defined.

(** ** Completing an order *)

(** X16: completing an order of a client through the status route adds the
    order's charged total to what the profile reports as paid by that
    client, and leaves every debt the profile reports as it was: the debt a
    pending order wrote at its creation stays in the ledger after the order
    is completed.  Stock and stored items are untouched, and the edit route
    with a status alone does the same or fails without effect. *)
Theorem completion_counts_as_paid_and_keeps_debt orderId d o u :
  orders d !! orderId = Some o → client_id o = Some u → status o ≠ completed →
  let d' := (putStatus orderId completed d).2 in
  totalPaid d' u = totalPaid d u + total_amount o
  ∧ (∀ v, v ≠ u → totalPaid d' v = totalPaid d v)
  ∧ (∀ v, profileDebt d' v = profileDebt d v)
  ∧ products d' = products d ∧ order_items d' = order_items d
  ∧ (∀ flt now actor,
       (putOrder flt now actor orderId (status_only completed) d).2 = d'
       ∨ (putOrder flt now actor orderId (status_only completed) d).2 = d).
Proof.
  intros Ho Hu Hst d'.
  assert (Hd' : d' = apply_status (Some completed) orderId d).
  { subst d'. unfold putStatus. simpl. by rewrite Ho. }
  assert (Hord : orders d' = alter (with_status completed) orderId (orders d))
    by (by rewrite Hd').
  split_and!.
  - rewrite !totalPaid_sum, Hord.
    pose proof (sum_with_alter
                  (fun x => if bool_decide (client_id x = Some u) && is_completed x
                            then total_amount x else 0)
                  (with_status completed) _ _ _ Ho) as Hsum.
    cbv beta in Hsum. rewrite Hsum.
    unfold is_completed. simpl. rewrite (bool_decide_true _ Hu).
    rewrite (bool_decide_false _ Hst). simpl. lia.
  - intros v Hv. rewrite !totalPaid_sum, Hord.
    pose proof (sum_with_alter
                  (fun x => if bool_decide (client_id x = Some v) && is_completed x
                            then total_amount x else 0)
                  (with_status completed) _ _ _ Ho) as Hsum.
    cbv beta in Hsum. rewrite Hsum.
    simpl. rewrite !bool_decide_false by congruence. simpl. lia.
  - intros v. apply profileDebt_ledger. intros c. by rewrite Hd'.
  - by rewrite Hd'.
  - by rewrite Hd'.
  - intros flt now actor.
    destruct (putOrder_cases flt now actor orderId (status_only completed) d)
      as [(resp & -> & _)|(b & d0 & -> & _ & _ & Hres)]; [by right|].
    left. simpl. unfold edit_result in Hres. simpl in Hres. injection Hres as _ <-.
    by rewrite Hd'.
Qed.

(** Order #7, pending and charged 25 MKD, is completed: 25 is paid, and the
    debt of 25 MKD stays. *)
Lemma completion_counts_as_paid_and_keeps_debt_witness :
  let d' := (putStatus 7 completed shop).2 in
  totalPaid shop 42 = 0 ∧ totalPaid d' 42 = 2500
  ∧ mkdDebt (profileDebt d' 42) = 2500.
Proof.
  intros d'.
  destruct (completion_counts_as_paid_and_keeps_debt 7 shop (client_order 42 pending 2500) 42)
    as (Hpaid & _ & Hdebt & _); [reflexivity|reflexivity|discriminate|].
  assert (H0 : totalPaid shop 42 = 0) by (vm_compute; reflexivity).
  split; [exact H0|]. split.
  - unfold d'. rewrite Hpaid, H0. reflexivity.
  - unfold d'. rewrite Hdebt. vm_compute. reflexivity.
Defined.

(** ** DELETE /users/:id *)

(** X17: whatever the store does with the DELETE statement and whichever
    query fails, the route reports a deletion only for an existing user who
    is not an admin and all of whose orders are completed: one order in any
    other status, cancelled included, keeps the user.  Every other response
    leaves users and tables as they were.  The ledger is not read: a
    refusal is the same refusal on any other ledger, and a client whose
    orders are all completed passes the guard whatever debt the ledger
    records for them. *)
Theorem user_delete_guard
    (delete_user_row : Z → gmap Z Account * DB → option (gmap Z Account * DB))
    flt id users d :
  let out := deleteUser delete_user_row flt id users d in
  (∀ u, out.1 = UserDeleted u →
     id = Some u
     ∧ (∃ acc, users !! u = Some acc ∧ acc_role acc ≠ role_admin)
     ∧ (∀ k o, orders d !! k = Some o → client_id o = Some u → status o = completed)
     ∧ delete_user_row u (users, d) = Some out.2)
  ∧ ((∀ u, out.1 ≠ UserDeleted u) → out.2 = (users, d))
  ∧ (∀ f, out.1 ≠ UserDeleteFailed → (∀ u, out.1 ≠ UserDeleted u) →
          (deleteUser delete_user_row flt id users (set_ledger f d)).1 = out.1).
Proof.
  intros out. subst out. unfold deleteUser.
  destruct id as [userId|]; [|by split_and!].
  case_bool_decide as Hpos; [by split_and!|].
  destruct (flt 0%nat); [by split_and!|].
  destruct (users !! userId) as [acc|] eqn:Hacc; [|by split_and!].
  case_bool_decide as Hrole; [by split_and!|].
  destruct (flt 1%nat); [by split_and!|].
  assert (Hsame : ∀ f, unpaid_count userId (set_ledger f d) = unpaid_count userId d) by done.
  case_bool_decide as Hunpaid.
  { split_and!; try done. intros f _ _. rewrite Hsame. by rewrite bool_decide_true. }
  destruct (delete_user_row userId (users, d)) as [after|] eqn:Hdel; simpl.
  - split_and!.
    + intros u [= <-]. split_and!; [done|by exists acc| |done].
      intros k o Hko Hc. destruct (decide (status o = completed)) as [|Hs]; [done|].
      exfalso. apply Hunpaid. apply unpaid_count_pos. by exists k, o.
    + intros H. by destruct (H userId).
    + intros f _ H. by destruct (H userId).
  - split_and!; done.
Qed.

(** Client 42 of the shop has the pending order #7 and is kept. *)
Lemma user_delete_guard_witness :
  deleteUser delete_account no_faults (Some 42) accounts shop
  = (UserHasUnpaidOrders 1, (accounts, shop)).
Proof.
  pose proof (proj1 (proj2 (user_delete_guard delete_account no_faults (Some 42)
                              accounts shop))) as Hkept.
  assert (Hresp : (deleteUser delete_account no_faults (Some 42) accounts shop).1
                  = UserHasUnpaidOrders 1) by (vm_compute; reflexivity).
  destruct (deleteUser delete_account no_faults (Some 42) accounts shop) as [resp after].
  simpl in *. rewrite Hresp in *. rewrite Hkept; [reflexivity|discriminate].
Defined.

(** ** A creation and the deletion of the created order *)

Lemma stored_rows_creation_rows d orderId its k :
  filter (fun oi => order_id oi = k) (creation_rows d orderId its)
  = if decide (k = orderId) then creation_rows d orderId its else [].
Proof.
  unfold creation_rows. induction its as [|it its IH].
  { by destruct (decide (k = orderId)). }
  cbn [omap list_omap]. destruct (productId it) as [pid|]; cbn [mbind option_bind]; [|done].
  destruct (products d !! pid) as [x|]; cbn [mbind option_bind]; [|done].
  rewrite filter_cons. cbn [order_id]. rewrite IH.
  destruct (decide (k = orderId)) as [->|Hne].
  - by rewrite decide_True.
  - by rewrite decide_False.
Qed.

Lemma filter_others (rows : list OrderItem) orderId :
  filter (fun oi => order_id oi = orderId) rows = [] →
  filter (fun oi => order_id oi ≠ orderId) rows = rows.
Proof.
  induction rows as [|r rows IH]; [done|]. rewrite !filter_cons.
  destruct (decide (order_id r = orderId)) as [He|Hne]; [done|].
  intros Hnil. rewrite decide_True by done. f_equal. by apply IH.
Qed.

Lemma creation_rows_gone d orderId its :
  filter (fun oi => order_id oi ≠ orderId) (creation_rows d orderId its) = [].
Proof.
  unfold creation_rows. induction its as [|it its IH]; [done|].
  cbn [omap list_omap]. destruct (productId it) as [pid|]; cbn [mbind option_bind]; [|done].
  destruct (products d !! pid) as [x|]; cbn [mbind option_bind]; [|done].
  rewrite filter_cons. cbn [order_id]. by rewrite decide_False by (by intros H; apply H).
Qed.

Lemma add_to_stock_back n p : add_to_stock n (add_to_stock (- n) p) = p.
Proof. rewrite add_to_stock_add. replace (- n + n) with 0 by lia. apply add_to_stock_0. Qed.

(** X18: a creation followed by the deletion of the created order gives
    back the stock of every product, the orders and the stored items as
    they were before the creation; the order id is not given again.  The
    ledger is not given back: the rows the creation wrote stay, and with
    them the debt the profile reports for the client of the deleted
    order. *)
Theorem creation_then_deletion_keeps_debt now user req d orderId total d1 :
  createOrder now user req d = (Created orderId total, d1) →
  orders d !! orderId = None → stored_rows d orderId = [] →
  ∃ d2, deleteOrder no_faults orderId d1 = (Deleted (length (c_items req)), d2)
    ∧ products d2 = products d
    ∧ orders d2 = orders d
    ∧ order_items d2 = order_items d
    ∧ next_order_id d2 = next_order_id d + 1
    ∧ ledger d2 = ledger d1
    ∧ (∀ u, profileDebt d2 u = profileDebt d1 u).
Proof.
  intros Hrun Hfresh Hnone.
  apply createOrder_created in Hrun as (v & Hv & _ & Hid & _ & ->).
  set (its := c_items req) in *.
  set (adj := creation_adjustments _ _ _ _ _ _ _ _).
  set (o := Build_Order _ _ _ _ _ _ _ _).
  set (d1 := set_ledger (fun l => l ++ adj) (create_items orderId (validatedItems v)
                                               (insert_order o d).2)).
  pose proof (validate_items_rows _ _ _ _ orderId Hv) as Hrows. simpl in Hrows.
  assert (Hitems : order_items d1 = order_items d ++ creation_rows d orderId its).
  { subst d1. simpl. by rewrite create_items_rows, Hrows. }
  assert (Hstored : stored_rows d1 orderId = creation_rows d orderId its).
  { unfold stored_rows in *. rewrite Hitems, filter_app, Hnone, stored_rows_creation_rows.
    by rewrite decide_True. }
  assert (Hlen : length (creation_rows d orderId its) = length its).
  { apply creation_rows_length. intros it Hit.
    destruct (validate_items_enough _ _ _ _ Hv it Hit) as (i & x & ? & ? & _).
    by exists i, x. }
  assert (Hord : orders d1 = <[orderId := o]> (orders d)).
  { subst d1. simpl. rewrite create_items_orders. simpl. by rewrite Hid. }
  exists (deleted orderId d1). split_and!.
  - unfold deleteOrder. pose proof (delete_body_run orderId d1) as Hdel.
    rewrite Hord, lookup_insert, decide_True in Hdel by done.
    rewrite (transaction_returns _ _ _ _ Hdel). by rewrite Hstored, Hlen.
  - apply map_eq. intros p. unfold deleted. simpl.
    rewrite products_restore_rows, Hstored. subst d1. simpl.
    rewrite create_items_products. simpl.
    rewrite (validate_items_units _ _ _ _ p Hv). simpl.
    assert (units_of p (creation_rows d orderId its) = requested_units p its) as ->.
    { unfold units_of. rewrite <- Hrows, sum_with_fmap. simpl.
      by rewrite (validate_items_units _ _ _ _ p Hv). }
    destruct (products d !! p) as [x|]; simpl; [|done].
    by rewrite add_to_stock_back.
  - unfold deleted. simpl. rewrite orders_restore_rows, Hord.
    rewrite delete_insert_eq. by apply delete_id.
  - unfold deleted. simpl. rewrite order_items_restore_rows, Hitems, filter_app.
    rewrite creation_rows_gone, app_nil_r. by apply filter_others.
  - unfold deleted. simpl.
    assert (Hnext : ∀ rows x, next_order_id (restore_rows rows x) = next_order_id x).
    { unfold restore_rows. intros rows. induction rows as [|r rows IH]; intros x; simpl;
        [done|]. by rewrite IH. }
    rewrite Hnext. subst d1. simpl. rewrite create_items_next_id. simpl. lia.
  - unfold deleted. simpl. apply ledger_restore_rows.
  - intros u. apply profileDebt_ledger. intros c. unfold deleted. simpl.
    by rewrite ledger_restore_rows.
Qed.

(** The admin sells a phone of 100 EUR to client 42 and deletes the order:
    the three phones are back, the debt of 100 EUR stays. *)
Lemma creation_then_deletion_keeps_debt_witness :
  let d1 := (createOrder 1700000000000 admin order_phone stocked).2 in
  let d2 := (deleteOrder no_faults 1 d1).2 in
  stock_at stocked (Some 4) = Some 3 ∧ stock_at d1 (Some 4) = Some 2
  ∧ stock_at d2 (Some 4) = Some 3
  ∧ eurDebt (profileDebt stocked 42) = 0 ∧ eurDebt (profileDebt d2 42) = 10000.
Proof.
  intros d1 d2.
  destruct (creation_then_deletion_keeps_debt 1700000000000 admin order_phone stocked
              1 10000 d1) as (d2' & Hdel & Hprod & _ & _ & _ & _ & Hdebt).
  { vm_compute. reflexivity. }
  { reflexivity. }
  { reflexivity. }
  assert (Hd2 : d2 = d2') by (unfold d2; by rewrite Hdel).
  split_and!.
  - reflexivity.
  - vm_compute. reflexivity.
  - rewrite Hd2. unfold stock_at, select_stock. simpl. rewrite Hprod. reflexivity.
  - vm_compute. reflexivity.
  - rewrite Hd2, Hdebt. vm_compute. reflexivity.
Defined.
